(** * kokovoicelab: voice style store and interpolation engine

    A shallow embedding of the Python sources

      - [kokovoicelab.py]              (group resolution, interpolation, CLI workflow)
      - [scripts/create_voice_db.py]   (schema and bulk load)
      - [scripts/export_voice.py]      (bulk export)

    NumPy arrays are records of a shape and a row-major list of elements.
    The workflow is modelled with style vectors over the real numbers, which
    stand for the values that are passed around; what the arithmetic of
    [interpolate_styles] and of [np.mean] returns is stated on a second
    model of these two computations in IEEE floating point (module [IEEE]).
    The blob codec ([np.save] / [np.load]) is modelled on raw little-endian
    bit patterns, so that its round trip is a statement about bits.

    Exceptions are values of [exn]; effectful code runs in the monad [M],
    which threads a [world] (database file, open transaction, output files,
    trace of external calls) and keeps the effects made before a failure. *)

From Stdlib Require Import Reals Lra Lia ZArith NArith List String Ascii.
From Stdlib.Strings Require Import Byte.
From Stdlib Require Import DecimalString DecimalNat DecimalFacts.
From Stdlib.Floats Require Import SpecFloat.
From stdpp Require Import base list strings gmap.

Open Scope string_scope.
Open Scope list_scope.
Open Scope nat_scope.

(* ===================================================================== *)
(** * Part I.  Definitions                                                *)
(* ===================================================================== *)

(** ** Python exceptions and results *)

Inductive exn : Type :=
| ValueError (msg : string)
| KeyError (key : string)
| TypeError (msg : string)
| IndexError (msg : string)
| AttributeError (msg : string)
| IntegrityError (msg : string)      (* sqlite3.IntegrityError *)
| OperationalError (msg : string)    (* sqlite3.OperationalError *)
| ProgrammingError (msg : string)    (* sqlite3.ProgrammingError *)
| RuntimeError (msg : string)        (* failure of an external collaborator *)
| SystemExit (status : Z) (msg : string).

(** [except Exception] does not catch [SystemExit]. *)
Definition is_Exception (e : exn) : bool :=
  match e with
  | SystemExit _ _ => false
  | _ => true
  end.

Inductive result (A : Type) : Type :=
| Ok (a : A)
| Raise (e : exn).
Arguments Ok {A} a.
Arguments Raise {A} e.

Definition rbind {A B} (r : result A) (k : A -> result B) : result B :=
  match r with
  | Ok a => k a
  | Raise e => Raise e
  end.

Notation "x <~ r ;; k" := (rbind r (fun x => k))
  (at level 62, r at next level, right associativity).

Fixpoint rmap {A B} (f : A -> result B) (l : list A) : result (list B) :=
  match l with
  | [] => Ok []
  | x :: l' => y <~ f x ;; ys <~ rmap f l' ;; Ok (y :: ys)
  end.

(** ** NumPy arrays *)

Record ndarray (A : Type) : Type := mk_ndarray {
  shape : list nat;
  data : list A            (* row-major (C order) *)
}.
Arguments mk_ndarray {A} shape data.
Arguments shape {A} n.
Arguments data {A} n.

Definition prod_shape (s : list nat) : nat := fold_right Nat.mul 1 s.

(** An array is well formed when it holds one element per index. *)
Definition wf_array {A} (a : ndarray A) : Prop :=
  length (data a) = prod_shape (shape a).

Definition shape_eqb (s1 s2 : list nat) : bool :=
  bool_decide (s1 = s2).

(** *** Broadcasting

    Shapes are aligned at their last axis; two extents are compatible when
    they are equal or one of them is 1. *)

Definition broadcast_dim (a b : nat) : option nat :=
  if a =? b then Some a
  else if a =? 1 then Some b
  else if b =? 1 then Some a
  else None.

(** Both shapes are given last axis first. *)
Fixpoint broadcast_rev (s1 s2 : list nat) : option (list nat) :=
  match s1, s2 with
  | [], s => Some s
  | s, [] => Some s
  | a :: s1', b :: s2' =>
      match broadcast_dim a b, broadcast_rev s1' s2' with
      | Some d, Some r => Some (d :: r)
      | _, _ => None
      end
  end.

Definition broadcast_shapes (s1 s2 : list nat) : option (list nat) :=
  match broadcast_rev (rev s1) (rev s2) with
  | Some r => Some (rev r)
  | None => None
  end.

(** Flat index into an operand of (reversed) shape [inp] for the element at
    flat index [i] of the result of (reversed) shape [out]: an axis of
    extent 1, or a missing leading axis, is repeated. *)
Fixpoint src_index (out inp : list nat) (i : nat) : nat :=
  match out, inp with
  | d :: out', e :: inp' =>
      (if e =? 1 then 0 else i mod d) + e * src_index out' inp' (i / d)
  | _, _ => 0
  end.

Definition np_binop (f : R -> R -> R) (a b : ndarray R) : result (ndarray R) :=
  match broadcast_shapes (shape a) (shape b) with
  | None => Raise (ValueError "operands could not be broadcast together")
  | Some s =>
      Ok (mk_ndarray s
            (map (fun i =>
                    f (nth (src_index (rev s) (rev (shape a)) i) (data a) 0%R)
                      (nth (src_index (rev s) (rev (shape b)) i) (data b) 0%R))
                 (seq 0 (prod_shape s))))
  end.

Definition np_add := np_binop Rplus.
Definition np_sub := np_binop Rminus.

(** [np.broadcast_to(a, s)]: the operand repeated to the shape [s], as an
    element-wise operation reads it. *)
Definition broadcast_to (s : list nat) (a : ndarray R) : ndarray R :=
  mk_ndarray s
    (map (fun i => nth (src_index (rev s) (rev (shape a)) i) (data a) 0%R)
       (seq 0 (prod_shape s))).

(** Array with a Python scalar on the right. *)
Definition np_scalar (f : R -> R -> R) (a : ndarray R) (x : R) : ndarray R :=
  mk_ndarray (shape a) (map (fun v => f v x) (data a)).

(** ** kokovoicelab.py: interpolate_styles *)

Definition interpolate_styles (style1 style2 : ndarray R) (factor : R)
  : result (ndarray R) :=
  diff_vector <~ np_sub style2 style1 ;;
  total <~ np_add style1 style2 ;;
  let midpoint := np_scalar Rdiv total 2%R in
  np_add midpoint (np_scalar Rdiv (np_scalar Rmult diff_vector factor) 2%R).

(** ** The blob codec: adapt_array and convert_array

    [np.save] and [np.load] are NumPy's; they are modelled after the NPY
    file format, versions 1.0 and 2.0, for little-endian floating-point
    arrays in C order:

      magic [\x93NUMPY], major and minor version, the length of the header
      as a little-endian integer of 2 (version 1.0) or 4 (version 2.0)
      bytes, the header, the elements.

    The header is the text of a Python dictionary with the keys [descr],
    [fortran_order] and [shape], followed by spaces and one newline so that
    the elements start at a multiple of 64.  An element is its IEEE bit
    pattern, a number below [2 ^ (8 * itemsize)]; equality of bit patterns
    is bit-exact equality of floats.  The reader is modelled on the headers
    the writer produces; it refuses any other header. *)

Inductive dtype : Type := Float16 | Float32 | Float64.

Definition itemsize (d : dtype) : nat :=
  match d with
  | Float16 => 2
  | Float32 => 4
  | Float64 => 8
  end.

Definition descr (d : dtype) : string :=
  match d with
  | Float16 => "<f2"
  | Float32 => "<f4"
  | Float64 => "<f8"
  end.

Record float_array : Type := mk_float_array {
  float_dtype : dtype;
  bits : ndarray N
}.

Definition ascii_bytes (s : string) : list byte := list_byte_of_string s.
Arguments ascii_bytes : simpl never.

Definition space : byte := x20.
Definition newline : byte := x0a.
Definition comma : byte := x2c.
Definition quote : byte := x27.
Definition rparen : byte := x29.

(** The bytes of the characters 0 to 9. *)
Definition is_digit (b : byte) : bool :=
  match b with
  | x30 | x31 | x32 | x33 | x34 | x35 | x36 | x37 | x38 | x39 => true
  | _ => false
  end.

(** [repr(n)] of a non-negative integer. *)
Definition dec (n : nat) : list byte :=
  ascii_bytes (NilEmpty.string_of_uint (Nat.to_uint n)).

(** A decimal literal: digits only, no leading zero, not empty. *)
Definition parse_dec (bs : list byte) : option nat :=
  match NilEmpty.uint_of_string (string_of_list_byte bs) with
  | Some d => if Decimal.uint_beq d (Decimal.unorm d) then Some (Nat.of_uint d)
              else None
  | None => None
  end.

(** [repr(shape)] of a tuple of integers. *)
Definition shape_repr (s : list nat) : list byte :=
  match s with
  | [] => ascii_bytes "()"
  | [n] => ascii_bytes "(" ++ dec n ++ ascii_bytes ",)"
  | n :: s' =>
      ascii_bytes "(" ++ dec n
        ++ flat_map (fun m => ascii_bytes ", " ++ dec m) s'
        ++ ascii_bytes ")"
  end.

(** The text between the parentheses of [repr(shape)]. *)
Definition shape_inner (s : list nat) : list byte :=
  match s with
  | [] => []
  | [n] => dec n ++ [comma]
  | n :: s' => dec n ++ flat_map (fun m => comma :: space :: dec m) s'
  end.

Definition header_dict (d : dtype) (s : list nat) : list byte :=
  ascii_bytes "{'descr': '" ++ ascii_bytes (descr d)
    ++ ascii_bytes "', 'fortran_order': False, 'shape': "
    ++ shape_repr s ++ ascii_bytes ", }".

(** Spare room left after the dictionary so that the first extent can grow
    in place (21 characters for its digits). *)
Definition growth_padding (s : list nat) : nat :=
  match s with
  | [] => 0
  | n :: _ => 21 - length (dec n)
  end.

Definition header_text (d : dtype) (s : list nat) : list byte :=
  header_dict d s ++ repeat space (growth_padding s).

Definition byte_of_N (x : N) : byte :=
  match Byte.of_N (x mod 256) with
  | Some b => b
  | None => x00
  end.

(** [k] bytes of a number, least significant first. *)
Fixpoint le_bytes (k : nat) (x : N) : list byte :=
  match k with
  | O => []
  | S k' => byte_of_N x :: le_bytes k' (x / 256)
  end.

Fixpoint le_word (bs : list byte) : N :=
  match bs with
  | [] => 0
  | b :: bs' => Byte.to_N b + 256 * le_word bs'
  end.

Definition magic : list byte := [x93; x4e; x55; x4d; x50; x59].

Definition ARRAY_ALIGN : nat := 64.
Definition MAGIC_LEN : nat := 8.

(** Magic, version, length field and padded header for a format version
    whose length field has [size] bytes. *)
Definition wrap_header (major : byte) (size : nat) (header : list byte)
  : result (list byte) :=
  let hlen := length header + 1 in
  let padlen := ARRAY_ALIGN - ((MAGIC_LEN + size + hlen) mod ARRAY_ALIGN) in
  if (N.of_nat (hlen + padlen) <? 2 ^ N.of_nat (8 * size))%N
  then Ok (magic ++ [major; x00] ++ le_bytes size (N.of_nat (hlen + padlen))
             ++ header ++ repeat space padlen ++ [newline])
  else Raise (ValueError "Header length too big for version").

(** Version 1.0 when the header fits its length field, else version 2.0. *)
Definition wrap_header_guess_version (header : list byte) : result (list byte) :=
  match wrap_header x01 2 header with
  | Ok b => Ok b
  | Raise _ => wrap_header x02 4 header
  end.

Definition np_save (arr : float_array) : result (list byte) :=
  prefix <~ wrap_header_guess_version
              (header_text (float_dtype arr) (shape (bits arr))) ;;
  Ok (prefix ++ flat_map (le_bytes (itemsize (float_dtype arr))) (data (bits arr))).

(** [np.save(out, arr); out.getvalue()] on a fresh buffer *)
Definition adapt_array (arr : float_array) : result (list byte) := np_save arr.

Definition byte_eqb (a b : byte) : bool := Byte.eqb a b.

Fixpoint strip_prefix (p s : list byte) : option (list byte) :=
  match p, s with
  | [], _ => Some s
  | a :: p', b :: s' => if byte_eqb a b then strip_prefix p' s' else None
  | _ :: _, [] => None
  end.

(** The text before the first [c], and the text after it. *)
Fixpoint break_at (c : byte) (s : list byte) : option (list byte * list byte) :=
  match s with
  | [] => None
  | b :: s' =>
      if byte_eqb b c then Some ([], s')
      else match break_at c s' with
           | Some (l, r) => Some (b :: l, r)
           | None => None
           end
  end.

Fixpoint split_bytes (sep : byte) (s : list byte) : list (list byte) :=
  match s with
  | [] => [[]]
  | b :: s' =>
      if byte_eqb b sep then [] :: split_bytes sep s'
      else match split_bytes sep s' with
           | w :: ws => (b :: w) :: ws
           | [] => [[b]]
           end
  end.

Fixpoint omap {A B} (f : A -> option B) (l : list A) : option (list B) :=
  match l with
  | [] => Some []
  | x :: l' =>
      match f x, omap f l' with
      | Some y, Some ys => Some (y :: ys)
      | _, _ => None
      end
  end.

(** An item of a tuple after the first: a space, then the literal. *)
Definition parse_item (q : list byte) : option nat :=
  match q with
  | b :: q' => if byte_eqb b space then parse_dec q' else None
  | [] => None
  end.

(** The text between the parentheses of a tuple of integers. *)
Definition parse_shape (inner : list byte) : option (list nat) :=
  match inner with
  | [] => Some []
  | _ =>
      match split_bytes comma inner with
      | [p; []] =>
          match parse_dec p with
          | Some n => Some [n]
          | None => None
          end
      | p :: (_ :: _) as ps =>
          match parse_dec p, omap parse_item ps with
          | Some n, Some ns => Some (n :: ns)
          | _, _ => None
          end
      | _ => None
      end
  end.

Fixpoint bytes_eqb (x y : list byte) : bool :=
  match x, y with
  | [], [] => true
  | a :: x', b :: y' => byte_eqb a b && bytes_eqb x' y'
  | _, _ => false
  end.

Definition dtype_of_descr (bs : list byte) : option dtype :=
  if bytes_eqb bs (ascii_bytes "<f2") then Some Float16
  else if bytes_eqb bs (ascii_bytes "<f4") then Some Float32
  else if bytes_eqb bs (ascii_bytes "<f8") then Some Float64
  else None.

(** Spaces up to the newline that ends the header. *)
Fixpoint is_trailer (s : list byte) : bool :=
  match s with
  | [] => false
  | [b] => byte_eqb b newline
  | b :: s' => byte_eqb b space && is_trailer s'
  end.

Definition parse_header (header : list byte) : option (dtype * list nat) :=
  match strip_prefix (ascii_bytes "{'descr': '") header with
  | Some r1 =>
      match break_at quote r1 with
      | Some (descr_text, r2) =>
          match dtype_of_descr descr_text,
                strip_prefix (ascii_bytes ", 'fortran_order': False, 'shape': (") r2 with
          | Some d, Some r3 =>
              match break_at rparen r3 with
              | Some (inner, r4) =>
                  match parse_shape inner, strip_prefix (ascii_bytes ", }") r4 with
                  | Some s, Some r5 => if is_trailer r5 then Some (d, s) else None
                  | _, _ => None
                  end
              | None => None
              end
          | _, _ => None
          end
      | None => None
      end
  | None => None
  end.

(** [count] elements of [k] bytes each from the front of [bs]. *)
Fixpoint read_words (k count : nat) (bs : list byte) : option (list N) :=
  match count with
  | O => Some []
  | S count' =>
      if length bs <? k then None
      else match read_words k count' (skipn k bs) with
           | Some ws => Some (le_word (firstn k bs) :: ws)
           | None => None
           end
  end.

Definition max_header_size : nat := 100 * 100.

Definition length_field_size (major minor : byte) : option nat :=
  if byte_eqb minor x00 then
    if byte_eqb major x01 then Some 2
    else if byte_eqb major x02 || byte_eqb major x03 then Some 4
    else None
  else None.

Definition np_load (blob : list byte) : result float_array :=
  match strip_prefix magic blob with
  | Some (major :: minor :: rest) =>
      match length_field_size major minor with
      | Some size =>
          if length rest <? size
          then Raise (ValueError "EOF: reading array header length")
          else
            let hlength := N.to_nat (le_word (firstn size rest)) in
            let rest' := skipn size rest in
            if length rest' <? hlength
            then Raise (ValueError "EOF: reading array header")
            else if max_header_size <? hlength
            then Raise (ValueError "Header info length is large and may not be safe to load securely")
            else
              match parse_header (firstn hlength rest') with
              | Some (d, s) =>
                  match read_words (itemsize d) (prod_shape s)
                          (skipn hlength rest') with
                  | Some ws => Ok (mk_float_array d (mk_ndarray s ws))
                  | None => Raise (ValueError "EOF: reading array data")
                  end
              | None => Raise (ValueError "Cannot parse header")
              end
      | None => Raise (ValueError "we only support format version (1,0), (2,0), and (3,0)")
      end
  | _ => Raise (ValueError "Cannot load file containing pickled data when allow_pickle=False")
  end.

(** [np.load(io.BytesIO(blob))] *)
Definition convert_array (blob : list byte) : result float_array :=
  np_load blob.

(** The limits of NumPy on a shape: at most 64 axes, extents below
    [2 ^ 63]. *)
Definition within_numpy_limits (s : list nat) : Prop :=
  length s <= 64 /\ Forall (fun n => (N.of_nat n < 2 ^ 63)%N) s.

(** The arrays the codec is stated for: a shape NumPy can hold, and one
    bit pattern of the element size per index. *)
Definition storable (arr : float_array) : Prop :=
  within_numpy_limits (shape (bits arr))
  /\ wf_array (bits arr)
  /\ Forall (fun x => (x < 2 ^ N.of_nat (8 * itemsize (float_dtype arr)))%N)
       (data (bits arr)).

(** ** Values crossing the SQLite boundary

    A value bound to a statement or fetched from a row.  A style vector is
    stored through the registered adapter and fetched through the converter
    of the declared type [array]; [SArr] is such a column seen from Python.
    SQLite's type-affinity coercions are not modelled: a value is stored as
    it was bound. *)

Inductive sqlval : Type :=
| SNull
| SInt (z : Z)
| SReal (r : R)
| SText (s : string)
| SBlob (b : list byte)
| SArr (a : ndarray R).

(** Values of the JSON manifest, as [json.load] returns them. *)
#[warnings="-register-all"] Inductive json : Type :=
| JNull
| JBool (b : bool)
| JInt (z : Z)
| JFloat (r : R)
| JStr (s : string)
| JList (l : list json)
| JDict (d : list (string * json)).

Definition NL : string := String (ascii_of_nat 10) EmptyString.

(** ** The voices table (scripts/create_voice_db.py, create_voice_database)

    [name TEXT PRIMARY KEY, gender TEXT NOT NULL, language TEXT NOT NULL,
     quality INTEGER NOT NULL, training_duration TEXT,
     style_vector array NOT NULL, is_synthetic BOOLEAN NOT NULL DEFAULT 0,
     notes TEXT, created_at TIMESTAMP DEFAULT CURRENT_TIMESTAMP] *)

Record row : Type := mk_row {
  name : sqlval;
  gender : sqlval;
  language : sqlval;
  quality : sqlval;
  training_duration : sqlval;
  style_vector : sqlval;
  is_synthetic : sqlval;
  notes : sqlval;
  created_at : sqlval
}.

Definition table : Type := list row.

(** A row as the tuple that [SELECT *] yields. *)
Definition row_tuple (r : row) : list sqlval :=
  [name r; gender r; language r; quality r; training_duration r;
   style_vector r; is_synthetic r; notes r; created_at r].

(** Equality of two key values under the uniqueness constraint: values of
    one storage class are compared; a NULL is distinct from every value,
    itself included.  No array is ever bound to the key column. *)
Definition key_eqb (k1 k2 : sqlval) : bool :=
  match k1, k2 with
  | SInt a, SInt b => (a =? b)%Z
  | SReal a, SReal b => if Req_dec_T a b then true else false
  | SText a, SText b => String.eqb a b
  | SBlob a, SBlob b => bytes_eqb a b
  | _, _ => false
  end.

Definition has_key (k : sqlval) (t : table) : bool :=
  existsb (fun r => key_eqb k (name r)) t.

Definition not_null (column : string) (v : sqlval) : result unit :=
  match v with
  | SNull => Raise (IntegrityError ("NOT NULL constraint failed: voices." +:+ column))
  | _ => Ok tt
  end.

Definition check_not_null (r : row) : result unit :=
  _ <~ not_null "gender" (gender r) ;;
  _ <~ not_null "language" (language r) ;;
  _ <~ not_null "quality" (quality r) ;;
  _ <~ not_null "style_vector" (style_vector r) ;;
  not_null "is_synthetic" (is_synthetic r).

(** [INSERT INTO voices]: a second row with the same key is refused and the
    table is left as it was. *)
Definition sql_insert (r : row) (t : table) : result table :=
  _ <~ check_not_null r ;;
  if has_key (name r) t
  then Raise (IntegrityError "UNIQUE constraint failed: voices.name")
  else Ok (t ++ [r]).

(** [INSERT OR REPLACE INTO voices]: the rows with the same key are deleted
    before the new row is added. *)
Definition sql_insert_or_replace (r : row) (t : table) : result table :=
  _ <~ check_not_null r ;;
  Ok (List.filter (fun r' => negb (key_eqb (name r) (name r'))) t ++ [r]).

(** [SELECT COUNT( * ) FROM voices] *)
Definition count (t : table) : nat := length t.

(** ** The world: effects of a run *)

Inductive fragment : Type :=
| FText (s : string)
| FSql (v : sqlval)
| FJson (v : json)
| FExn (e : exn)
| FReal (r : R)
| FNat (n : nat).

Inductive event : Type :=
| EMkdir (path : string)
| EConnect (db_path : string)
| EExecute (statement : string)
| ECommit
| EClose
| EKokoro (model voices : string)
| EGetVoiceStyle (voice : json)
| ECreate (text : string) (voice : ndarray R) (speed : R) (lang : string)
| EOpen (path : string)
| ESave (path : string)
| EPrint (line : list fragment).

Inductive file : Type :=
| EmptyFile
| WavFile (samples : list R) (sample_rate : Z)
| NpzFile (entries : list (string * sqlval)).

Record world : Type := mk_world {
  disk : table;               (* committed content of the database file *)
  pending : table;            (* content as seen through the connection *)
  files : gmap string file;   (* output files *)
  trace : list event          (* external calls, oldest first *)
}.

Definition M (A : Type) : Type := world -> result A * world.

Definition ret {A} (a : A) : M A := fun w => (Ok a, w).

Definition bind {A B} (m : M A) (k : A -> M B) : M B :=
  fun w =>
    match m w with
    | (Ok a, w') => k a w'
    | (Raise e, w') => (Raise e, w')
    end.

Notation "x <- m ;; k" := (bind m (fun x => k))
  (at level 62, m at next level, right associativity).

Definition raise {A} (e : exn) : M A := fun w => (Raise e, w).

Definition lift {A} (r : result A) : M A := fun w => (r, w).

(** The world after external calls that change neither database nor files. *)
Definition after (w : world) (events : list event) : world :=
  mk_world (disk w) (pending w) (files w) (trace w ++ events).
Arguments after : simpl never.

Definition emit (e : event) : M unit :=
  fun w => (Ok tt, after w [e]).

(** [try: body finally: final] *)
Definition try_finally {A} (body : M A) (final : M unit) : M A :=
  fun w =>
    let '(r, w1) := body w in
    match final w1 with
    | (Ok _, w2) => (r, w2)
    | (Raise e, w2) => (Raise e, w2)
    end.

(** [try: body except Exception as e: handler e] *)
Definition try_except {A} (body : M A) (handler : exn -> M A) : M A :=
  fun w =>
    match body w with
    | (Ok a, w1) => (Ok a, w1)
    | (Raise e, w1) => if is_Exception e then handler e w1 else (Raise e, w1)
    end.

Fixpoint for_each {A} (l : list A) (body : A -> M unit) : M unit :=
  match l with
  | [] => ret tt
  | x :: l' => _ <- body x ;; for_each l' body
  end.

Fixpoint map_m {A B} (f : A -> M B) (l : list A) : M (list B) :=
  match l with
  | [] => ret []
  | x :: l' => y <- f x ;; ys <- map_m f l' ;; ret (y :: ys)
  end.

Definition print (line : list fragment) : M unit := emit (EPrint line).

(** *** The connection *)

Definition connect (db_path : string) : M unit :=
  fun w => (Ok tt, mk_world (disk w) (disk w) (files w)
                     (trace w ++ [EConnect db_path])).

Definition commit : M unit :=
  fun w => (Ok tt, mk_world (pending w) (pending w) (files w)
                     (trace w ++ [ECommit])).

(** Closing drops what was not committed. *)
Definition close : M unit :=
  fun w => (Ok tt, mk_world (disk w) (disk w) (files w) (trace w ++ [EClose])).

Definition update_table (statement : string) (f : table -> result table)
  : M unit :=
  fun w =>
    let tr := trace w ++ [EExecute statement] in
    match f (pending w) with
    | Ok t => (Ok tt, mk_world (disk w) t (files w) tr)
    | Raise e => (Raise e, mk_world (disk w) (pending w) (files w) tr)
    end.

Definition put_file (path : string) (f : file) (e : event) : M unit :=
  fun w => (Ok tt, mk_world (disk w) (pending w) (<[path := f]> (files w))
                     (trace w ++ [e])).

Definition mkdir (path : string) : M unit := emit (EMkdir path).

(** [tuple[i]] *)
Definition index (t : list sqlval) (i : nat) : result sqlval :=
  match t !! i with
  | Some v => Ok v
  | None => Raise (IndexError "tuple index out of range")
  end.

(** ** External collaborators

    The SQL engine evaluating a caller-supplied query, the synthesis engine
    and the conversions between text and floating-point numbers are not
    part of the repository. *)

Class Externals : Type := {
  sql_select : string -> table -> result (list (list sqlval));
  CURRENT_TIMESTAMP : sqlval;
  Kokoro : string -> string -> result unit;
  kokoro_create : string -> ndarray R -> R -> string -> result (list R * Z);
  kokoro_get_voice_style : json -> result (ndarray R);
  float_of_str : string -> result R;
  format_2f : R -> string
}.

(** [cursor.execute(query); cursor.fetchall()] *)
Definition fetchall `{Externals} (query : string) : M (list (list sqlval)) :=
  _ <- emit (EExecute query) ;;
  fun w => (sql_select query (pending w), w).

(** ** numpy.mean(list, axis=0)

    The list is first made one array, which needs one shape for all its
    entries (NumPy 1.24 and later refuse a ragged list); the entries are
    then added up and divided by their number.  For an empty list NumPy
    returns not-a-number with a warning; the reals have no such value, and
    the case does not arise: the caller has checked that the list is not
    empty. *)

Definition entry_shape (v : sqlval) : list nat :=
  match v with
  | SArr a => shape a
  | _ => []
  end.

Definition entry_array (v : sqlval) : result (ndarray R) :=
  match v with
  | SArr a => Ok a
  | SInt z => Ok (mk_ndarray [] [IZR z])
  | SReal r => Ok (mk_ndarray [] [r])
  | _ => Raise (TypeError "unsupported operand type(s) for the mean")
  end.

Definition vsum (x : list R) (xs : list (list R)) : list R :=
  fold_left (zip_with Rplus) xs x.

Definition np_mean_axis0 (l : list sqlval) : result (ndarray R) :=
  match l with
  | [] => Raise (ValueError "mean of an empty list")
  | v :: vs =>
      if forallb (fun v' => shape_eqb (entry_shape v') (entry_shape v)) vs
      then
        a <~ entry_array v ;;
        rest <~ rmap entry_array vs ;;
        Ok (mk_ndarray (shape a)
              (map (fun x => (x / INR (length l))%R)
                 (vsum (data a) (map data rest))))
      else Raise (ValueError "setting an array element with a sequence. The requested array has an inhomogeneous shape")
  end.

(** ** kokovoicelab.py: get_voice_group_vector *)

Definition get_voice_group_vector `{Externals} (query : string)
  : M (ndarray R) :=
  voices <- fetchall query ;;
  match voices with
  | [] => raise (ValueError ("No voices found for query: " +:+ query))
  | _ =>
      _ <- print [FText (NL +:+ "Voices matched by query:")] ;;
      _ <- for_each voices (fun voice =>
             v0 <- lift (index voice 0) ;;
             v1 <- lift (index voice 1) ;;
             v2 <- lift (index voice 2) ;;
             v3 <- lift (index voice 3) ;;
             print [FText "Name: "; FSql v0; FText ", Gender: "; FSql v1;
                    FText ", Language: "; FSql v2; FText ", Quality: "; FSql v3]) ;;
      style_vectors <- map_m (fun voice => lift (index voice 5)) voices ;;
      lift (np_mean_axis0 style_vectors)
  end.

(** ** kokovoicelab.py: the command line

    [cli] holds the options as given, after argparse's type conversion;
    [parse_args] applies [required], [choices] and the defaults of the
    [add_argument] calls. *)

Record cli : Type := mk_cli {
  cli_source_query : option string;
  cli_target_query : option string;
  cli_text : option string;
  cli_ranges : option string;
  cli_speed : option R;
  cli_lang : option string;
  cli_output_dir : option string;
  cli_db_path : option string;
  cli_insert : option R;
  cli_name : option string;
  cli_gender : option string;
  cli_quality : option Z;
  cli_notes : option string
}.

Record args : Type := mk_args {
  args_source_query : string;
  args_target_query : string;
  args_text : string;
  args_ranges : string;
  args_speed : R;
  args_lang : string;
  args_output_dir : string;
  args_db_path : string;
  args_insert : option R;
  args_name : option string;
  args_gender : option string;
  args_quality : option Z;
  args_notes : option string
}.

(** [parser.error(message)]: usage and message on stderr, exit status 2. *)
Definition parser_error {A} (message : string) : M A :=
  raise (SystemExit 2 message).

Definition required (flag : string) (o : option string) : M string :=
  match o with
  | Some v => ret v
  | None => parser_error ("the following arguments are required: " +:+ flag)
  end.

Definition gender_choices : list string := ["M"; "F"; "X"].

Definition check_gender (o : option string) : M unit :=
  match o with
  | Some g =>
      if existsb (String.eqb g) gender_choices then ret tt
      else parser_error "argument --gender: invalid choice"
  | None => ret tt
  end.

(** [choices=range(0, 101)] *)
Definition check_quality (o : option Z) : M unit :=
  match o with
  | Some q =>
      if ((0 <=? q) && (q <? 101))%Z then ret tt
      else parser_error "argument --quality: invalid choice"
  | None => ret tt
  end.

Definition parse_args (c : cli) : M args :=
  source_query <- required "--source-query" (cli_source_query c) ;;
  target_query <- required "--target-query" (cli_target_query c) ;;
  _ <- check_gender (cli_gender c) ;;
  _ <- check_quality (cli_quality c) ;;
  ret (mk_args source_query target_query
         (default "Hello, world!" (cli_text c))
         (default "-2,-1,-0.5,0,0.5,1,2" (cli_ranges c))
         (default 1%R (cli_speed c))
         (default "en-us" (cli_lang c))
         (default "output" (cli_output_dir c))
         (default "voices.db" (cli_db_path c))
         (cli_insert c) (cli_name c) (cli_gender c) (cli_quality c)
         (cli_notes c)).

(** Truth value of an optional string: [None] and [""] are false. *)
Definition truthy (o : option string) : bool :=
  match o with
  | Some s => negb (String.eqb s "")
  | None => false
  end.

Definition bind_str (o : option string) : sqlval :=
  match o with
  | Some s => SText s
  | None => SNull
  end.

Definition bind_int (o : option Z) : sqlval :=
  match o with
  | Some z => SInt z
  | None => SNull
  end.

(** [str(x)] of an optional string inside an f-string. *)
Definition str_opt (o : option string) : string := default "None" o.

(** [Path(dir) / file] *)
Definition path_join (dir file : string) : string := dir +:+ "/" +:+ file.

(** [s.split(sep)] for a one-character separator. *)
Fixpoint split_on (sep : ascii) (s : string) : list string :=
  match s with
  | EmptyString => [EmptyString]
  | String c s' =>
      if Ascii.eqb c sep then EmptyString :: split_on sep s'
      else match split_on sep s' with
           | w :: ws => String c w :: ws
           | [] => [String c EmptyString]
           end
  end.

(** The messages of the three checks made when [--insert] is given. *)
Definition missing_argument_messages : list string :=
  ["--name is required when using --insert";
   "--gender is required when using --insert";
   "--quality is required when using --insert"].

Definition validate_insert (a : args) : M unit :=
  match args_insert a with
  | Some _ =>
      _ <- (if truthy (args_name a) then ret tt
            else parser_error "--name is required when using --insert") ;;
      _ <- (if truthy (args_gender a) then ret tt
            else parser_error "--gender is required when using --insert") ;;
      match args_quality a with
      | Some _ => ret tt
      | None => parser_error "--quality is required when using --insert"
      end
  | None => ret tt
  end.

(** The row of the [INSERT INTO voices] statement of [main]: the column
    [training_duration] is not listed and takes its default, NULL. *)
Definition synthetic_row `{Externals} (a : args) (interpolated_style : ndarray R)
  : row :=
  mk_row (bind_str (args_name a))
         (bind_str (args_gender a))
         (SText (args_lang a))
         (bind_int (args_quality a))
         SNull
         (SArr interpolated_style)
         (SInt 1)
         (bind_str (args_notes a))
         CURRENT_TIMESTAMP.

Definition create_and_write `{Externals} (a : args) (voice : ndarray R)
  (output_file : string) : M unit :=
  _ <- emit (ECreate (args_text a) voice (args_speed a) (args_lang a)) ;;
  audio <- lift (kokoro_create (args_text a) voice (args_speed a) (args_lang a)) ;;
  put_file output_file (WavFile (fst audio) (snd audio)) (ESave output_file).

(** The block under [if args.insert is not None]. *)
Definition insert_voice `{Externals} (a : args)
  (source_style target_style : ndarray R) (factor : R) : M unit :=
  _ <- print [FText (NL +:+ "Generating voice for insertion at factor: ");
              FReal factor] ;;
  interpolated_style <-
    lift (interpolate_styles source_style target_style factor) ;;
  _ <- update_table "INSERT INTO voices"
         (sql_insert (synthetic_row a interpolated_style)) ;;
  _ <- commit ;;
  _ <- print [FText "Inserted synthetic voice '";
              FText (str_opt (args_name a)); FText "' into database"] ;;
  let output_file :=
    path_join (args_output_dir a) (str_opt (args_name a) +:+ ".wav") in
  _ <- create_and_write a interpolated_style output_file ;;
  print [FText "Created sample file: "; FText output_file].

(** The block under [else]: one sample per factor of [--ranges]. *)
Definition generate_samples `{Externals} (a : args)
  (source_style target_style : ndarray R) : M unit :=
  ranges <- map_m (fun x => lift (float_of_str x))
              (split_on "," (args_ranges a)) ;;
  for_each ranges (fun factor =>
    _ <- print [FText (NL +:+ "Generating sample for interpolation factor: ");
                FReal factor] ;;
    interpolated_style <-
      lift (interpolate_styles source_style target_style factor) ;;
    let output_file :=
      path_join (args_output_dir a)
        ("interpolation_" +:+ format_2f factor +:+ ".wav") in
    _ <- create_and_write a interpolated_style output_file ;;
    print [FText "Created "; FText output_file]).

(** The body of the [try] block. *)
Definition workflow `{Externals} (a : args) : M unit :=
  _ <- print [FText (NL +:+ "Processing source group...")] ;;
  source_style <- get_voice_group_vector (args_source_query a) ;;
  _ <- print [FText (NL +:+ "Processing target group...")] ;;
  target_style <- get_voice_group_vector (args_target_query a) ;;
  _ <- emit (EKokoro "kokoro-v1.0.onnx" "voices-v1.0.bin") ;;
  _ <- lift (Kokoro "kokoro-v1.0.onnx" "voices-v1.0.bin") ;;
  match args_insert a with
  | Some factor => insert_voice a source_style target_style factor
  | None => generate_samples a source_style target_style
  end.

(** [main] after [parser.parse_args()]. *)
Definition main_with `{Externals} (a : args) : M unit :=
  _ <- validate_insert a ;;
  _ <- mkdir (args_output_dir a) ;;
  _ <- connect (args_db_path a) ;;
  try_finally (workflow a) close.

Definition main `{Externals} (c : cli) : M unit :=
  a <- parse_args c ;;
  main_with a.

(** ** scripts/create_voice_db.py: populate_database *)

Fixpoint assoc (key : string) (d : list (string * json)) : option json :=
  match d with
  | [] => None
  | (k, v) :: d' => if String.eqb k key then Some v else assoc key d'
  end.

(** [obj[key]] for a string key. *)
Definition getitem (obj : json) (key : string) : result json :=
  match obj with
  | JDict d =>
      match assoc key d with
      | Some v => Ok v
      | None => Raise (KeyError key)
      end
  | JList _ => Raise (TypeError "list indices must be integers or slices, not str")
  | JStr _ => Raise (TypeError "string indices must be integers, not 'str'")
  | _ => Raise (TypeError "object is not subscriptable")
  end.

(** [obj.get(key, default)] *)
Definition get (obj : json) (key : string) (dflt : json) : result json :=
  match obj with
  | JDict d => Ok (default dflt (assoc key d))
  | _ => Raise (AttributeError "object has no attribute 'get'")
  end.

Fixpoint chars (s : string) : list json :=
  match s with
  | EmptyString => []
  | String c s' => JStr (String c EmptyString) :: chars s'
  end.

(** [for x in obj] *)
Definition iterate (obj : json) : result (list json) :=
  match obj with
  | JList l => Ok l
  | JDict d => Ok (map (fun kv => JStr (fst kv)) d)
  | JStr s => Ok (chars s)
  | _ => Raise (TypeError "object is not iterable")
  end.

(** Binding of a Python value to a statement parameter. *)
Definition bind_param (v : json) : result sqlval :=
  match v with
  | JNull => Ok SNull
  | JBool b => Ok (SInt (if b then 1 else 0))
  | JInt z =>
      if ((- 2 ^ 63 <=? z) && (z <? 2 ^ 63))%Z then Ok (SInt z)
      else Raise (ValueError "Python int too large to convert to SQLite INTEGER")
  | JFloat r => Ok (SReal r)
  | JStr s => Ok (SText s)
  | JList _ | JDict _ => Raise (ProgrammingError "Error binding parameter: type is not supported")
  end.

(** The values of the parameter tuple that come from the manifest entry,
    evaluated left to right. *)
Record voice_fields : Type := mk_fields {
  f_name : json;
  f_gender : json;
  f_language : json;
  f_quality : json;
  f_training_duration : json;
  f_is_synthetic : json;
  f_notes : json
}.

Definition voice_params (voice : json) : result voice_fields :=
  p_name <~ getitem voice "name" ;;
  p_gender <~ getitem voice "gender" ;;
  p_language <~ getitem voice "language" ;;
  p_quality <~ getitem voice "quality" ;;
  p_training_duration <~ get voice "training_duration" JNull ;;
  p_is_synthetic <~ get voice "is_synthetic" (JBool false) ;;
  p_notes <~ get voice "notes" JNull ;;
  Ok (mk_fields p_name p_gender p_language p_quality p_training_duration
        p_is_synthetic p_notes).

(** The row of the [INSERT OR REPLACE] statement; [created_at] is not
    listed and takes its default. *)
Definition bind_params `{Externals} (p : voice_fields) (style_vector : ndarray R)
  : result row :=
  c_name <~ bind_param (f_name p) ;;
  c_gender <~ bind_param (f_gender p) ;;
  c_language <~ bind_param (f_language p) ;;
  c_quality <~ bind_param (f_quality p) ;;
  c_training_duration <~ bind_param (f_training_duration p) ;;
  c_is_synthetic <~ bind_param (f_is_synthetic p) ;;
  c_notes <~ bind_param (f_notes p) ;;
  Ok (mk_row c_name c_gender c_language c_quality c_training_duration
        (SArr style_vector) c_is_synthetic c_notes CURRENT_TIMESTAMP).

(** The body of the [try] block for one voice of the manifest. *)
Definition add_voice `{Externals} (voice : json) : M unit :=
  voice_name <- lift (getitem voice "name") ;;
  _ <- emit (EGetVoiceStyle voice_name) ;;
  style_vector <- lift (kokoro_get_voice_style voice_name) ;;
  p <- lift (voice_params voice) ;;
  _ <- update_table "INSERT OR REPLACE INTO voices"
         (fun t => r <~ bind_params p style_vector ;; sql_insert_or_replace r t) ;;
  shown <- lift (getitem voice "name") ;;
  print [FText "Added voice: "; FJson shown].

(** The [except Exception as e] handler. *)
Definition report_failure (voice : json) (e : exn) : M unit :=
  shown <- lift (getitem voice "name") ;;
  print [FText "Error processing voice "; FJson shown; FText ": "; FExn e].

Definition populate_database `{Externals} (voice_data : json) : M unit :=
  voices <- lift (getitem voice_data "voices") ;;
  entries <- lift (iterate voices) ;;
  _ <- for_each entries (fun voice =>
         try_except (add_voice voice) (report_failure voice)) ;;
  commit.

(** ** scripts/export_voice.py: export_all_voices *)

(** [SELECT name, style_vector FROM voices] *)
Definition select_name_vector (t : table) : list (sqlval * sqlval) :=
  map (fun r => (name r, style_vector r)) t.

(** Keys of a Python dict compare with [==]: [None] equals [None], an
    integer equals the float of the same value. *)
Definition dict_key_eqb (k1 k2 : sqlval) : bool :=
  match k1, k2 with
  | SNull, SNull => true
  | SInt a, SReal b => if Req_dec_T (IZR a) b then true else false
  | SReal a, SInt b => if Req_dec_T a (IZR b) then true else false
  | _, _ => key_eqb k1 k2
  end.

(** [d[k] = v]: an existing key keeps its place and takes the new value. *)
Fixpoint dict_set (k v : sqlval) (d : list (sqlval * sqlval))
  : list (sqlval * sqlval) :=
  match d with
  | [] => [(k, v)]
  | (k', v') :: d' =>
      if dict_key_eqb k k' then (k', v) :: d' else (k', v') :: dict_set k v d'
  end.

(** [{name: style_vector for name, style_vector in voices}] *)
Definition dict_of (voices : list (sqlval * sqlval)) : list (sqlval * sqlval) :=
  fold_left (fun d kv => dict_set (fst kv) (snd kv) d) voices [].

(** [f( **d )] accepts string keys only. *)
Definition keywords (d : list (sqlval * sqlval)) : result (list (string * sqlval)) :=
  rmap (fun kv => match fst kv with
                  | SText s => Ok (s, snd kv)
                  | _ => Raise (TypeError "keywords must be strings")
                  end) d.

Definition export_all_voices (output_file : string) : M unit :=
  _ <- emit (EExecute "SELECT name, style_vector FROM voices") ;;
  voices <- (fun w => (Ok (select_name_vector (pending w)), w)) ;;
  match voices with
  | [] => raise (ValueError "No voices found in database")
  | _ =>
      let voice_dict := dict_of voices in
      _ <- print [FText (NL +:+ "Exporting "); FNat (length voice_dict);
                  FText " voices to "; FText output_file] ;;
      _ <- put_file output_file EmptyFile (EOpen output_file) ;;
      entries <- lift (keywords voice_dict) ;;
      _ <- put_file output_file (NpzFile entries) (ESave output_file) ;;
      print [FText "Successfully exported voices to: "; FText output_file]
  end.

(** ** Vocabulary of the statements about the two insertion paths *)

(** The rows of a table stored under a key. *)
Definition rows_named (k : sqlval) (t : table) : list row :=
  List.filter (fun r => key_eqb k (name r)) t.

(** The manifest entry [voice], with the style vector the engine has for
    its name, makes the row [r], and [r] satisfies the NOT NULL columns. *)
Definition describes `{Externals} (voice : json) (r : row) : Prop :=
  exists voice_name style p,
    getitem voice "name" = Ok voice_name
    /\ kokoro_get_voice_style voice_name = Ok style
    /\ voice_params voice = Ok p
    /\ bind_params p style = Ok r
    /\ check_not_null r = Ok tt.

(** The query matches a non-empty group of full rows of mean [v]. *)
Definition group_of `{Externals} (t : table) (query : string) (v : ndarray R)
  : Prop :=
  exists r rs,
    sql_select query t = Ok (map row_tuple (r :: rs))
    /\ np_mean_axis0 (map style_vector (r :: rs)) = Ok v.

(** A command line that asks for the insertion of a voice named [n] at
    [factor] and passes the parser and the checks of [main]. *)
Definition insert_request (c : cli) (source_query target_query n : string)
  (factor : R) : Prop :=
  cli_source_query c = Some source_query
  /\ cli_target_query c = Some target_query
  /\ cli_insert c = Some factor
  /\ cli_name c = Some n /\ n <> ""
  /\ (exists g, cli_gender c = Some g /\ In g gender_choices)
  /\ (exists q, cli_quality c = Some q /\ (0 <= q <= 100)%Z).

(** ** What a computation leaves alone *)

(** Database file and open transaction are the same in both worlds. *)
Definition same_db (w w' : world) : Prop :=
  disk w' = disk w /\ pending w' = pending w.

(** Database and output files are the same: only the trace grew. *)
Definition same_store (w w' : world) : Prop :=
  exists events, w' = after w events.

Definition preserves {A} (rel : world -> world -> Prop) (m : M A) : Prop :=
  forall w, rel w (snd (m w)).

(** Every error that a computation raises is caught by [except Exception]. *)
Definition catchable {A} (m : M A) : Prop :=
  forall w e, fst (m w) = Raise e -> is_Exception e = true.

Definition catchable_result {A} (r : result A) : Prop :=
  forall e, r = Raise e -> is_Exception e = true.

(** The line printed for one matched voice. *)
Definition voice_line (r : row) : event :=
  EPrint [FText "Name: "; FSql (name r); FText ", Gender: "; FSql (gender r);
          FText ", Language: "; FSql (language r);
          FText ", Quality: "; FSql (quality r)].

(** ** A small catalog and stand-ins for the collaborators

    Used to run the definitions on concrete inputs. *)

Module Demo.

Definition vec (l : list R) : ndarray R := mk_ndarray [length l] l.

Definition voice_a : row :=
  mk_row (SText "A") (SText "M") (SText "en-us") (SInt 90) SNull
    (SArr (vec [1; 0]%R)) (SInt 0) SNull (SText "2025-01-01 00:00:00").

Definition voice_b : row :=
  mk_row (SText "B") (SText "M") (SText "en-us") (SInt 80) SNull
    (SArr (vec [0; 1]%R)) (SInt 0) SNull (SText "2025-01-01 00:00:00").

Definition voice_c : row :=
  mk_row (SText "C") (SText "F") (SText "en-gb") (SInt 70) SNull
    (SArr (vec [1; 2; 3]%R)) (SInt 0) SNull (SText "2025-01-01 00:00:00").

Definition gender_is (g : string) (r : row) : bool :=
  match gender r with
  | SText s => String.eqb s g
  | _ => false
  end.

Definition name_is (n : string) (r : row) : bool :=
  match name r with
  | SText s => String.eqb s n
  | _ => false
  end.

(** An engine that knows a handful of queries. *)
Definition select (query : string) (t : table) : result (list (list sqlval)) :=
  if String.eqb query "SELECT * FROM voices" then Ok (map row_tuple t)
  else if String.eqb query "SELECT * FROM voices WHERE gender = 'M'"
  then Ok (map row_tuple (List.filter (gender_is "M") t))
  else if String.eqb query "SELECT * FROM voices WHERE gender = 'X'"
  then Ok (map row_tuple (List.filter (gender_is "X") t))
  else if String.eqb query "SELECT * FROM voices WHERE name = 'A'"
  then Ok (map row_tuple (List.filter (name_is "A") t))
  else if String.eqb query "SELECT * FROM voices WHERE name = 'B'"
  then Ok (map row_tuple (List.filter (name_is "B") t))
  else Raise (OperationalError "syntax error").

Definition voice_style (v : json) : result (ndarray R) :=
  match v with
  | JStr "A" => Ok (vec [1; 0]%R)
  | JStr "B" => Ok (vec [0; 1]%R)
  | JStr s => Raise (KeyError s)
  | _ => Raise (TypeError "voice name must be a string")
  end.

Definition externals : Externals := {|
  sql_select := select;
  CURRENT_TIMESTAMP := SText "2025-06-01 12:00:00";
  Kokoro := fun _ _ => Ok tt;
  kokoro_create := fun _ _ _ _ => Ok ([], 24000%Z);
  kokoro_get_voice_style := voice_style;
  float_of_str := fun s => if String.eqb s "0" then Ok 0%R
                           else Raise (ValueError "could not convert string to float");
  format_2f := fun _ => "0.00"
|}.

(** A request to store the voice between A and B under a new name. *)
Definition request (voice_name : option string) (voice_quality : option Z)
  : cli :=
  mk_cli (Some "SELECT * FROM voices WHERE name = 'A'")
         (Some "SELECT * FROM voices WHERE name = 'B'")
         None None None None None None
         (Some 0%R) voice_name (Some "M") voice_quality None.

(** A manifest whose first entry has no name. *)
Definition manifest_nameless : json :=
  JDict [("voices",
          JList [JDict [("gender", JStr "F"); ("language", JStr "en-us");
                        ("quality", JInt 50)];
                 JDict [("name", JStr "A"); ("gender", JStr "M");
                        ("language", JStr "en-us"); ("quality", JInt 90)]])].

(** A manifest whose first entry names a voice the engine does not have. *)
Definition manifest_unknown : json :=
  JDict [("voices",
          JList [JDict [("name", JStr "Z"); ("gender", JStr "F");
                        ("language", JStr "en-us"); ("quality", JInt 50)];
                 JDict [("name", JStr "A"); ("gender", JStr "M");
                        ("language", JStr "en-us"); ("quality", JInt 90)]])].

(** A manifest that describes voice A again, with another quality. *)
Definition entry_a : json :=
  JDict [("name", JStr "A"); ("gender", JStr "M");
         ("language", JStr "en-us"); ("quality", JInt 95)].

Definition manifest_a : json := JDict [("voices", JList [entry_a])].

Definition row_a : row :=
  mk_row (SText "A") (SText "M") (SText "en-us") (SInt 95) SNull
    (SArr (vec [1; 0]%R)) (SInt 0) SNull (SText "2025-06-01 12:00:00").

(** The means of the groups {A} and {B}. *)
Definition mean_a : ndarray R := mk_ndarray [2] [(1 / 1)%R; (0 / 1)%R].
Definition mean_b : ndarray R := mk_ndarray [2] [(0 / 1)%R; (1 / 1)%R].

Definition between_a_b : ndarray R :=
  mk_ndarray [2]
    (zip_with (fun s t => ((s + t) / 2 + (t - s) * 0 / 2)%R)
       (data mean_a) (data mean_b)).

(** The floats 1.0 and -1.0 in single precision, as a 2 x 1 array. *)
Definition style : float_array :=
  mk_float_array Float32 (mk_ndarray [2; 1] [1065353216%N; 3212836864%N]).

Definition empty_world : world := mk_world [] [] ∅ [].

Definition catalog : table := [voice_a; voice_b; voice_c].

Definition world0 : world := mk_world catalog catalog ∅ [].

End Demo.

(** * Part I, continued.  Floating-point arithmetic

    NumPy computes on arrays of IEEE binary floating-point numbers, every
    operation rounded to nearest, ties to even, in the element type of the
    arrays.  [spec_float] is the Standard Library's specification of these
    numbers (signed zeros, infinities, one NaN, finite numbers as sign,
    mantissa and exponent) and of their operations, for a precision and a
    largest exponent.  The two computations of [kokovoicelab.py] on style
    vectors are modelled again on it: [interpolate_styles] and the
    [np.mean(style_vectors, axis=0)] of [get_voice_group_vector]. *)

Module IEEE.

(** Bits of the mantissa, the implicit one included. *)
Definition prec (d : dtype) : Z :=
  match d with
  | Float16 => 11
  | Float32 => 24
  | Float64 => 53
  end.

(** Exponent of the infinities. *)
Definition emax (d : dtype) : Z :=
  match d with
  | Float16 => 16
  | Float32 => 128
  | Float64 => 1024
  end.

Definition add (d : dtype) : spec_float -> spec_float -> spec_float :=
  SFadd (prec d) (emax d).
Definition sub (d : dtype) : spec_float -> spec_float -> spec_float :=
  SFsub (prec d) (emax d).
Definition mul (d : dtype) : spec_float -> spec_float -> spec_float :=
  SFmul (prec d) (emax d).
Definition div (d : dtype) : spec_float -> spec_float -> spec_float :=
  SFdiv (prec d) (emax d).



(** A Python [int] as a number of the element type. *)
Definition of_Z (d : dtype) (z : Z) : spec_float :=
  binary_normalize (prec d) (emax d) z 0 false.

(** A float of another type (a Python [float] is a [Float64]) converted to
    the element type. *)
Definition round_to (d : dtype) (x : spec_float) : spec_float :=
  match x with
  | S754_finite s m e => binary_round (prec d) (emax d) s m e
  | _ => x
  end.

(** Element-wise operation on two arrays, with broadcasting. *)
Definition np_binop (f : spec_float -> spec_float -> spec_float)
  (a b : ndarray spec_float) : result (ndarray spec_float) :=
  match broadcast_shapes (shape a) (shape b) with
  | None => Raise (ValueError "operands could not be broadcast together")
  | Some s =>
      Ok (mk_ndarray s
            (map (fun i =>
                    f (nth (src_index (rev s) (rev (shape a)) i) (data a) S754_nan)
                      (nth (src_index (rev s) (rev (shape b)) i) (data b) S754_nan))
                 (seq 0 (prod_shape s))))
  end.

(** Array with a Python scalar on the right; the scalar takes the element
    type of the array. *)
Definition np_scalar (f : spec_float -> spec_float -> spec_float)
  (a : ndarray spec_float) (x : spec_float) : ndarray spec_float :=
  mk_ndarray (shape a) (map (fun v => f v x) (data a)).

(** [interpolate_styles] on two arrays of element type [d] and a Python
    float. *)
Definition interpolate_styles (d : dtype) (style1 style2 : ndarray spec_float)
  (factor : spec_float) : result (ndarray spec_float) :=
  diff_vector <~ np_binop (sub d) style2 style1 ;;
  total <~ np_binop (add d) style1 style2 ;;
  let midpoint := np_scalar (div d) total (of_Z d 2) in
  np_binop (add d) midpoint
    (np_scalar (div d) (np_scalar (mul d) diff_vector (round_to d factor))
       (of_Z d 2)).

(** One element of [midpoint] and of the result of [interpolate_styles],
    from the elements [s] of [style1] and [t] of [style2]. *)
Definition midpoint (d : dtype) (s t : spec_float) : spec_float :=
  div d (add d s t) (of_Z d 2).


(** The element type in which [np.mean] adds and divides: half-precision
    input is accumulated in single precision and the result converted
    back. *)
Definition accumulator (d : dtype) : dtype :=
  match d with
  | Float16 => Float32
  | _ => d
  end.

Definition result_of (d : dtype) (x : spec_float) : spec_float :=
  match d with
  | Float16 => round_to Float16 x
  | _ => x
  end.

(** [np.mean(l, axis=0)] on a list of arrays of element type [d].  The list
    becomes one array with the list index as first axis; the rows are added
    up in their order, element by element, and the sums divided by the
    number of rows.  (That is the order of the additions when a row has more
    than one element; rows of a single element are summed along the
    contiguous axis, in blocks.)  An empty list gives NaN, with a warning. *)
Definition np_mean_axis0 (d : dtype) (l : list (ndarray spec_float))
  : result (ndarray spec_float) :=
  match l with
  | [] => Ok (mk_ndarray [] [S754_nan])
  | v :: vs =>
      if forallb (fun v' => shape_eqb (shape v') (shape v)) vs
      then
        Ok (mk_ndarray (shape v)
              (map (fun x =>
                      result_of d
                        (div (accumulator d) x
                           (of_Z (accumulator d) (Z.of_nat (length l)))))
                 (fold_left (zip_with (add (accumulator d)))
                    (map data vs) (data v))))
      else Raise (ValueError "setting an array element with a sequence. The requested array has an inhomogeneous shape")
  end.


(** Some numbers. *)
Definition vec (l : list spec_float) : ndarray spec_float :=
  mk_ndarray [length l] l.


End IEEE.

(** * Part I, continued.  The rest of the scripts                         *)

(** A second set of stand-ins: an engine whose queries project columns. *)

Module Demo2.

(** [SELECT name FROM voices] yields rows of one column. *)
Definition select (query : string) (t : table) : result (list (list sqlval)) :=
  if String.eqb query "SELECT name FROM voices"
  then Ok (map (fun r => [name r]) t)
  else if String.eqb query "SELECT * FROM voices ORDER BY name DESC"
  then Ok (map row_tuple (rev t))
  else Demo.select query t.

Definition externals : Externals := {|
  sql_select := select;
  CURRENT_TIMESTAMP := SText "2025-06-01 12:00:00";
  Kokoro := fun _ _ => Ok tt;
  kokoro_create := fun _ _ _ _ => Ok ([], 24000%Z);
  kokoro_get_voice_style := Demo.voice_style;
  float_of_str := fun s => if String.eqb s "0" then Ok 0%R
                           else if String.eqb s "1" then Ok 1%R
                           else Raise (ValueError "could not convert string to float");
  format_2f := fun _ => "0.00"
|}.

(** Two voices of one shape. *)
Definition pair : table := [Demo.voice_a; Demo.voice_b].

Definition world0 : world := mk_world pair pair ∅ [].

End Demo2.

(** More stand-ins for runs of [main]. *)

Module Demo3.

(** The command line of [Demo.request (Some "AB") (Some 75)] after parsing. *)
Definition args_ab : args :=
  mk_args "SELECT * FROM voices WHERE name = 'A'"
          "SELECT * FROM voices WHERE name = 'B'"
          "Hello, world!" "-2,-1,-0.5,0,0.5,1,2" 1%R "en-us" "output"
          "voices.db" (Some 0%R) (Some "AB") (Some "M") (Some 75%Z) None.

(** A request for samples at the factors 0 and 1. *)
Definition samples_cli (ranges : string) : cli :=
  mk_cli (Some "SELECT * FROM voices WHERE name = 'A'")
         (Some "SELECT * FROM voices WHERE name = 'B'")
         None (Some ranges) None None None None None None None None None.

Definition samples_args (ranges : string) : args :=
  mk_args "SELECT * FROM voices WHERE name = 'A'"
          "SELECT * FROM voices WHERE name = 'B'"
          "Hello, world!" ranges 1%R "en-us" "output" "voices.db"
          None None None None None.

Definition nobody_args : args :=
  mk_args "SELECT * FROM voices WHERE gender = 'X'"
          "SELECT * FROM voices WHERE name = 'B'"
          "Hello, world!" "-2,-1,-0.5,0,0.5,1,2" 1%R "en-us" "output"
          "voices.db" None None None None None.

(** An engine that loads but cannot synthesize. *)
Definition mute : Externals := {|
  sql_select := Demo.select;
  CURRENT_TIMESTAMP := SText "2025-06-01 12:00:00";
  Kokoro := fun _ _ => Ok tt;
  kokoro_create := fun _ _ _ _ => Raise (RuntimeError "inference failed");
  kokoro_get_voice_style := Demo.voice_style;
  float_of_str := fun s => if String.eqb s "0" then Ok 0%R
                           else Raise (ValueError "could not convert string to float");
  format_2f := fun _ => "0.00"
|}.

(** An engine that knows the styles of the voices A and B. *)
Definition voice_style (v : json) : result (ndarray R) :=
  match v with
  | JStr s => if String.eqb s "A" then Ok (Demo.vec [1; 0]%R)
              else if String.eqb s "B" then Ok (Demo.vec [0; 1]%R)
              else Raise (KeyError s)
  | _ => Raise (TypeError "voice name must be a string")
  end.

Definition externals : Externals := {|
  sql_select := Demo2.select;
  CURRENT_TIMESTAMP := SText "2025-06-01 12:00:00";
  Kokoro := fun _ _ => Ok tt;
  kokoro_create := fun _ _ _ _ => Ok ([], 24000%Z);
  kokoro_get_voice_style := voice_style;
  float_of_str := fun s => if String.eqb s "0" then Ok 0%R
                           else if String.eqb s "1" then Ok 1%R
                           else Raise (ValueError "could not convert string to float");
  format_2f := fun _ => "0.00"
|}.

(** The entries of [Demo.manifest_unknown]. *)
Definition entry_z : json :=
  JDict [("name", JStr "Z"); ("gender", JStr "F");
         ("language", JStr "en-us"); ("quality", JInt 50)].

Definition entry_a : json :=
  JDict [("name", JStr "A"); ("gender", JStr "M");
         ("language", JStr "en-us"); ("quality", JInt 90)].

Definition entry_b : json :=
  JDict [("name", JStr "B"); ("gender", JStr "M");
         ("language", JStr "en-us"); ("quality", JInt 80)].

(** An entry without a name. *)
Definition entry_nameless : json :=
  JDict [("gender", JStr "F"); ("language", JStr "en-us");
         ("quality", JInt 50)].

Definition manifest (entries : list json) : json :=
  JDict [("voices", JList entries)].

End Demo3.

(** ** scripts/create_voice_db.py: the bulk load as a function of the catalog

    [entry_row] is the row that one entry of the manifest makes: the
    evaluations of the [try] block of [populate_database] in their order,
    without the statement itself.  [upsert] is the table after
    [INSERT OR REPLACE] of a row that satisfies the constraints, and
    [load_entry] what one round of the loop does to the catalog. *)

Definition entry_row `{Externals} (voice : json) : result row :=
  voice_name <~ getitem voice "name" ;;
  style_vector <~ kokoro_get_voice_style voice_name ;;
  p <~ voice_params voice ;;
  r <~ bind_params p style_vector ;;
  _ <~ check_not_null r ;;
  Ok r.

Definition upsert (r : row) (t : table) : table :=
  List.filter (fun r' => negb (key_eqb (name r) (name r'))) t ++ [r].

Definition load_entry `{Externals} (t : table) (voice : json) : table :=
  match entry_row voice with
  | Ok r => upsert r t
  | Raise _ => t
  end.

(** The columns that the [INSERT OR REPLACE] statement lists; [created_at]
    is not among them. *)
Definition listed_columns (r : row) : list sqlval :=
  [name r; gender r; language r; quality r; training_duration r;
   style_vector r; is_synthetic r; notes r].

(** The rows that the entries of a manifest make, in their order; the
    entries that fail make none. *)
Definition loaded_rows `{Externals} (entries : list json) : list row :=
  flat_map (fun voice => match entry_row voice with
                         | Ok r => [r]
                         | Raise _ => []
                         end) entries.

(** The row [r'] carries the key of none of [rows]. *)
Definition no_key_of (rows : list row) (r' : row) : bool :=
  forallb (fun r => negb (key_eqb (name r) (name r'))) rows.

(** ** Entries of the documented types

    SQLite converts a value to the affinity of its column before it stores
    it, and puts the default of a column in the place of a NULL that
    [OR REPLACE] would otherwise refuse; the rows of the model are the bound
    values as they are.  The two agree on an entry whose name is a string and
    whose other fields, where it has them, have the type of their column:
    strings for gender and language, an integer for the quality, a boolean
    for [is_synthetic], a string or null for the duration and the notes. *)

Definition is_str (v : json) : bool :=
  match v with JStr _ => true | _ => false end.

Definition is_int (v : json) : bool :=
  match v with JInt _ => true | _ => false end.

Definition is_bool (v : json) : bool :=
  match v with JBool _ => true | _ => false end.

Definition is_str_or_null (v : json) : bool :=
  match v with JStr _ | JNull => true | _ => false end.

Definition field_is (p : json -> bool) (d : list (string * json))
  (key : string) : bool :=
  match assoc key d with
  | Some v => p v
  | None => true
  end.

Definition typed_entry (voice : json) : bool :=
  match voice with
  | JDict d =>
      match assoc "name" d with
      | Some (JStr _) => true
      | _ => false
      end
      && field_is is_str d "gender"
      && field_is is_str d "language"
      && field_is is_int d "quality"
      && field_is is_str_or_null d "training_duration"
      && field_is is_bool d "is_synthetic"
      && field_is is_str_or_null d "notes"
  | _ => false
  end.

(** ** The host

    Making a directory, opening a database file and writing a sound file are
    calls into the operating system, and each of them can fail; how a path is
    put together from a directory and a file name is the business of
    [pathlib].  None of this is code of the repository. *)

Class Host : Type := {
  path_mkdir : string -> result unit;
  sqlite3_connect : string -> result unit;
  sf_write : string -> list R -> Z -> result unit;
  joinpath : string -> string -> string
}.

(** [Path(path).mkdir(exist_ok=True)] *)
Definition make_directory `{Host} (path : string) : M unit :=
  _ <- lift (path_mkdir path) ;;
  mkdir path.

(** [sqlite3.connect(db_path, detect_types=sqlite3.PARSE_DECLTYPES)] *)
Definition open_database `{Host} (db_path : string) : M unit :=
  _ <- lift (sqlite3_connect db_path) ;;
  connect db_path.

(** [sf.write(path, samples, sample_rate)] *)
Definition write_sound `{Host} (path : string) (audio : list R * Z) : M unit :=
  _ <- lift (sf_write path (fst audio) (snd audio)) ;;
  put_file path (WavFile (fst audio) (snd audio)) (ESave path).

(** [s[:n]], the first [n] characters of a string.  A string is held as the
    UTF-8 encoding of its characters, in which the bytes 10xxxxxx continue
    the character that the byte before them began. *)
Definition continuation (c : ascii) : bool :=
  (128 <=? nat_of_ascii c) && (nat_of_ascii c <? 192).

Fixpoint str_prefix (n : nat) (s : string) : string :=
  match s with
  | EmptyString => EmptyString
  | String c s' =>
      if continuation c then String c (str_prefix n s')
      else match n with
           | O => EmptyString
           | S n' => String c (str_prefix n' s')
           end
  end.

(** ** Lookup of one voice by its name

    [cursor.execute("SELECT * FROM voices WHERE name = ?", (voice_name,))]
    followed by [cursor.fetchone()]: the first row whose name is the text
    bound to the parameter, as the tuple of its nine columns, or [None]. *)

Definition fetchone_by_name (voice_name : string) : M (option (list sqlval)) :=
  _ <- emit (EExecute "SELECT * FROM voices WHERE name = ?") ;;
  fun w => (Ok (head (map row_tuple (rows_named (SText voice_name) (pending w)))),
            w).

(** [kokoro.create] takes the voice as it comes out of a row.  A column of
    declared type [array] gives an array; what the engine answers to any
    other value is its own business. *)
Class VoiceArgument : Type := {
  kokoro_create_other : string -> sqlval -> R -> string -> result (list R * Z)
}.

Definition create_from_row `{Externals} `{VoiceArgument}
  (text : string) (voice : sqlval) (speed : R) (lang : string)
  : M (list R * Z) :=
  match voice with
  | SArr v =>
      _ <- emit (ECreate text v speed lang) ;;
      lift (kokoro_create text v speed lang)
  | _ => lift (kokoro_create_other text voice speed lang)
  end.

(** ** scripts/synthesize.py *)

Module synthesize.

Definition get_voice_vector (voice_name : string) : M sqlval :=
  found <- fetchone_by_name voice_name ;;
  match found with
  | None => raise (ValueError ("No voice found with name: " +:+ voice_name))
  | Some voice =>
      _ <- print [FText (NL +:+ "Voice details:")] ;;
      v0 <- lift (index voice 0) ;;
      v1 <- lift (index voice 1) ;;
      v2 <- lift (index voice 2) ;;
      v3 <- lift (index voice 3) ;;
      _ <- print [FText "Name: "; FSql v0; FText ", Gender: "; FSql v1;
                  FText ", Language: "; FSql v2; FText ", Quality: "; FSql v3] ;;
      lift (index voice 5)
  end.

Record cli : Type := mk_cli {
  cli_text : option string;
  cli_voice_name : option string;
  cli_speed : option R;
  cli_output_dir : option string;
  cli_db_path : option string
}.

Record args : Type := mk_args {
  args_text : string;
  args_voice_name : string;
  args_speed : R;
  args_output_dir : string;
  args_db_path : string
}.

(** Both [--text] and [--voice-name] are required; argparse names all the
    missing ones in one message. *)
Definition parse_args (c : cli) : M args :=
  match cli_text c, cli_voice_name c with
  | Some text, Some voice_name =>
      ret (mk_args text voice_name
             (default 1%R (cli_speed c))
             (default "output" (cli_output_dir c))
             (default "voices.db" (cli_db_path c)))
  | None, Some _ =>
      parser_error "the following arguments are required: --text"
  | Some _, None =>
      parser_error "the following arguments are required: --voice-name"
  | None, None =>
      parser_error "the following arguments are required: --text, --voice-name"
  end.

(** [output_dir / f"{args.voice_name}_{args.text[:20]}.wav"] *)
Definition output_file `{Host} (a : args) : string :=
  joinpath (args_output_dir a)
    (args_voice_name a +:+ "_" +:+ str_prefix 20 (args_text a) +:+ ".wav").

(** The body of the [try] block. *)
Definition workflow `{Externals} `{VoiceArgument} `{Host} (a : args)
  : M unit :=
  voice_style <- get_voice_vector (args_voice_name a) ;;
  _ <- emit (EKokoro "kokoro-v1.0.onnx" "voices-v1.0.bin") ;;
  _ <- lift (Kokoro "kokoro-v1.0.onnx" "voices-v1.0.bin") ;;
  _ <- print [FText (NL +:+ "Generating audio for voice: ");
              FText (args_voice_name a)] ;;
  audio <- create_from_row (args_text a) voice_style (args_speed a) "en-us" ;;
  _ <- write_sound (output_file a) audio ;;
  print [FText "Created audio file: "; FText (output_file a)].

Definition main `{Externals} `{VoiceArgument} `{Host} (c : cli) : M unit :=
  a <- parse_args c ;;
  _ <- make_directory (args_output_dir a) ;;
  _ <- open_database (args_db_path a) ;;
  try_finally (workflow a) close.

End synthesize.

(** ** scripts/export_voice.py *)

(** [torch.save(torch.from_numpy(voice_vector), output_file)]: the library
    and what it writes are not part of the repository. *)
Class Torch : Type := {
  torch_save : sqlval -> string -> M unit
}.

Module export_voice.

(** Truth value of a value fetched from a row.  The array case is NumPy's
    (an array of one element has the truth value of the element, any other
    is refused); it does not arise for the column read here, whose declared
    type is TEXT. *)
Definition truth (v : sqlval) : result bool :=
  match v with
  | SNull => Ok false
  | SInt z => Ok (negb (z =? 0)%Z)
  | SReal r => Ok (if Req_dec_T r 0 then false else true)
  | SText s => Ok (negb (String.eqb s ""))
  | SBlob b => Ok (match b with [] => false | _ => true end)
  | SArr a =>
      match data a with
      | [x] => Ok (if Req_dec_T x 0 then false else true)
      | _ => Raise (ValueError "The truth value of an array with more than one element is ambiguous. Use a.any() or a.all()")
      end
  end.

Definition get_voice_vector (voice_name : string) : M sqlval :=
  found <- fetchone_by_name voice_name ;;
  match found with
  | None => raise (ValueError ("No voice found with name: " +:+ voice_name))
  | Some voice =>
      _ <- print [FText (NL +:+ "Voice details:")] ;;
      v0 <- lift (index voice 0) ;;
      _ <- print [FText "Name: "; FSql v0] ;;
      v1 <- lift (index voice 1) ;;
      _ <- print [FText "Gender: "; FSql v1] ;;
      v2 <- lift (index voice 2) ;;
      _ <- print [FText "Language: "; FSql v2] ;;
      v3 <- lift (index voice 3) ;;
      _ <- print [FText "Quality: "; FSql v3] ;;
      v7 <- lift (index voice 7) ;;
      has_notes <- lift (truth v7) ;;
      _ <- (if has_notes : bool
            then shown <- lift (index voice 7) ;;
                 print [FText "Notes: "; FSql shown]
            else ret tt) ;;
      lift (index voice 5)
  end.

Record cli : Type := mk_cli {
  cli_voice_name : option string;
  cli_output_dir : option string;
  cli_db_path : option string;
  cli_export_all : bool
}.

Record args : Type := mk_args {
  args_voice_name : option string;
  args_output_dir : string;
  args_db_path : string;
  args_export_all : bool
}.

(** No option is required and none has choices. *)
Definition parse_args (c : cli) : M args :=
  ret (mk_args (cli_voice_name c)
         (default "exported_voices" (cli_output_dir c))
         (default "voices.db" (cli_db_path c))
         (cli_export_all c)).

(** The body of the [try] block. *)
Definition workflow `{Torch} `{Host} (a : args) : M unit :=
  if args_export_all a then
    export_all_voices (joinpath (args_output_dir a) "voices.bin")
  else if truthy (args_voice_name a) then
    voice_vector <- get_voice_vector (str_opt (args_voice_name a)) ;;
    let output_file :=
      joinpath (args_output_dir a) (str_opt (args_voice_name a) +:+ ".pt") in
    _ <- torch_save voice_vector output_file ;;
    print [FText (NL +:+ "Exported voice to: "); FText output_file]
  else parser_error "Either --voice-name or --export-all must be specified".

Definition main `{Torch} `{Host} (c : cli) : M unit :=
  a <- parse_args c ;;
  _ <- make_directory (args_output_dir a) ;;
  _ <- open_database (args_db_path a) ;;
  try_finally (workflow a) close.

End export_voice.

(** Stand-ins for the runs of the two scripts. *)

Module Demo4.

(** The blob of [Demo.style]. *)
Definition style_blob : list byte :=
  match adapt_array Demo.style with
  | Ok blob => blob
  | Raise _ => []
  end.

Definition voice_argument : VoiceArgument := {|
  kokoro_create_other := fun _ _ _ _ => Raise (TypeError "voice must be an array")
|}.

Definition torch : Torch := {|
  torch_save := fun _ path => emit (ESave path)
|}.

(** A host on which every call succeeds. *)
Definition host : Host := {|
  path_mkdir := fun _ => Ok tt;
  sqlite3_connect := fun _ => Ok tt;
  sf_write := fun _ _ _ => Ok tt;
  joinpath := fun dir file => dir +:+ "/" +:+ file
|}.

Definition say (voice_name : string) : synthesize.cli :=
  synthesize.mk_cli (Some "Hello there, this is a long sentence.")
    (Some voice_name) None None None.

Definition say_args (voice_name : string) : synthesize.args :=
  synthesize.mk_args "Hello there, this is a long sentence." voice_name 1%R
    "output" "voices.db".

Definition no_option : export_voice.cli :=
  export_voice.mk_cli (Some "") None None false.

End Demo4.

(** ** scripts/create_voice_db.py: the rest of the script *)

(** [open(file_path, 'r')] and [json.load]: the manifest as the file system
    and the JSON reader give it. *)
Class Manifest : Type := {
  json_load : string -> result json
}.

Module create_voice_db.

(** The table of the model is there from the start, so that
    [CREATE TABLE IF NOT EXISTS] leaves it as it is. *)
Definition create_voice_database `{Host} (db_path : string) : M unit :=
  _ <- open_database db_path ;;
  _ <- update_table "CREATE TABLE IF NOT EXISTS voices" (fun t => Ok t) ;;
  commit.

Definition load_voice_data `{Manifest} (file_path : string) : M json :=
  _ <- emit (EOpen file_path) ;;
  lift (json_load file_path).

Definition count_statement : string :=
  "SELECT COUNT(" +:+ "*" +:+ ") FROM voices".

Definition top_quality_query : string :=
  NL +:+ "    SELECT name, gender, language, quality "
     +:+ NL +:+ "    FROM voices "
     +:+ NL +:+ "    ORDER BY quality DESC "
     +:+ NL +:+ "    LIMIT 5"
     +:+ NL +:+ "    ".

Definition main `{Externals} `{Manifest} `{Host} : M unit :=
  _ <- print [FText "Initializing Kokoro..."] ;;
  _ <- emit (EKokoro "kokoro-v1.0.onnx" "voices-v1.0.bin") ;;
  _ <- lift (Kokoro "kokoro-v1.0.onnx" "voices-v1.0.bin") ;;
  _ <- print [FText "Loading voice metadata..."] ;;
  voice_data <- load_voice_data "voice-data.json" ;;
  _ <- print [FText "Creating database..."] ;;
  _ <- create_voice_database "voices.db" ;;
  _ <- print [FText "Populating database with voices..."] ;;
  _ <- populate_database voice_data ;;
  _ <- emit (EExecute count_statement) ;;
  n <- (fun w => (Ok (count (pending w)), w)) ;;
  _ <- print [FText (NL +:+ "Database created successfully with "); FNat n;
              FText " voices"] ;;
  rows <- fetchall top_quality_query ;;
  _ <- print [FText (NL +:+ "Top 5 quality voices:")] ;;
  _ <- for_each rows (fun row =>
         v0 <- lift (index row 0) ;;
         v1 <- lift (index row 1) ;;
         v2 <- lift (index row 2) ;;
         v3 <- lift (index row 3) ;;
         print [FText "Name: "; FSql v0; FText ", Gender: "; FSql v1;
                FText ", Language: "; FSql v2; FText ", Quality: "; FSql v3]) ;;
  close.

End create_voice_db.

Module Demo5.

Definition manifest_file : Manifest := {|
  json_load := fun path =>
    if String.eqb path "voice-data.json"
    then Ok (Demo3.manifest [Demo3.entry_z; Demo3.entry_a])
    else Raise (RuntimeError "No such file or directory")
|}.

(** An engine that answers the query of the report with name, gender,
    language and quality of the rows, in the order of the table. *)
Definition select (query : string) (t : table) : result (list (list sqlval)) :=
  if String.eqb query create_voice_db.top_quality_query
  then Ok (map (fun r => [name r; gender r; language r; quality r])
             (firstn 5 t))
  else Demo.select query t.

Definition externals : Externals := {|
  sql_select := select;
  CURRENT_TIMESTAMP := SText "2025-06-01 12:00:00";
  Kokoro := fun _ _ => Ok tt;
  kokoro_create := fun _ _ _ _ => Ok ([], 24000%Z);
  kokoro_get_voice_style := Demo3.voice_style;
  float_of_str := fun s => if String.eqb s "0" then Ok 0%R
                           else Raise (ValueError "could not convert string to float");
  format_2f := fun _ => "0.00"
|}.

End Demo5.


(* ===================================================================== *)
(** * Part II.  Properties                                                *)
(* ===================================================================== *)

Lemma broadcast_dim_refl a : broadcast_dim a a = Some a.
Proof. unfold broadcast_dim. by rewrite Nat.eqb_refl. Qed.

Lemma broadcast_rev_refl s : broadcast_rev s s = Some s.
Proof.
  induction s as [|a s IH]; [done|].
  simpl. by rewrite broadcast_dim_refl, IH.
Qed.

Lemma broadcast_shapes_refl s : broadcast_shapes s s = Some s.
Proof.
  unfold broadcast_shapes. by rewrite broadcast_rev_refl, rev_involutive.
Qed.

Lemma src_index_same s : forall i, i < prod_shape s -> src_index s s i = i.
Proof.
  induction s as [|d s IH]; intros i Hi; simpl in *.
  - lia.
  - destruct (Nat.eq_dec d 0) as [->|Hd]; [simpl in Hi; lia|].
    assert (Hq : i / d < prod_shape s).
    { apply Nat.Div0.div_lt_upper_bound. lia. }
    rewrite (IH _ Hq).
    destruct (d =? 1) eqn:E.
    + apply Nat.eqb_eq in E. subst d. rewrite Nat.div_1_r. lia.
    + pose proof (Nat.div_mod_eq i d). lia.
Qed.

Lemma prod_shape_rev s : prod_shape (rev s) = prod_shape s.
Proof.
  unfold prod_shape. induction s as [|d s IH]; [done|].
  simpl. rewrite fold_right_app. simpl.
  rewrite <- IH. clear IH.
  induction (rev s) as [|e r IHr]; simpl; [lia|]. rewrite IHr. lia.
Qed.

Lemma map_nth_seq_zip (f : R -> R -> R) (xs ys : list R) n :
  length xs = n -> length ys = n ->
  map (fun i => f (nth i xs 0%R) (nth i ys 0%R)) (seq 0 n) = zip_with f xs ys.
Proof.
  revert ys n. induction xs as [|x xs IH]; intros [|y ys] n Hx Hy;
    simpl in *; subst n; try discriminate; [done|].
  simpl. f_equal. rewrite <- seq_shift, map_map. apply IH; [done|lia].
Qed.

Lemma np_binop_same_shape f (a b : ndarray R) :
  shape a = shape b -> wf_array a -> wf_array b ->
  np_binop f a b = Ok (mk_ndarray (shape a) (zip_with f (data a) (data b))).
Proof.
  intros Hs Ha Hb. unfold np_binop. rewrite <- Hs, broadcast_shapes_refl.
  do 2 f_equal.
  rewrite <- (map_nth_seq_zip f (data a) (data b) (prod_shape (shape a)));
    [|done|by rewrite Hs].
  apply map_ext_in. intros i Hi. apply in_seq in Hi.
  rewrite src_index_same; [done|]. rewrite prod_shape_rev. lia.
Qed.

(** The three array operations of [interpolate_styles], fused into one pass
    over the two operands. *)
Lemma interpolate_zip (f : R) (xs ys : list R) :
  zip_with Rplus
    (map (fun v => (v / 2)%R) (zip_with Rplus xs ys))
    (map (fun v => (v / 2)%R)
       (map (fun v => (v * f)%R) (zip_with Rminus ys xs)))
  = zip_with (fun s t => ((s + t) / 2 + (t - s) * f / 2)%R) xs ys.
Proof.
  revert ys. induction xs as [|x xs IH]; intros [|y ys]; simpl; try done.
  by rewrite IH.
Qed.


Lemma interpolate_styles_same_shape (source target : ndarray R) (factor : R) :
  shape source = shape target -> wf_array source -> wf_array target ->
  interpolate_styles source target factor =
    Ok (mk_ndarray (shape source)
          (zip_with (fun s t => ((s + t) / 2 + (t - s) * factor / 2)%R)
             (data source) (data target))).
Proof.
  intros Hs Hw1 Hw2. unfold interpolate_styles, np_sub, np_add.
  assert (Hlen : length (data source) = length (data target)).
  { unfold wf_array in *. congruence. }
  rewrite (np_binop_same_shape _ target source); [|done..].
  rewrite (np_binop_same_shape _ source target); [|done..].
  simpl. rewrite np_binop_same_shape; simpl.
  - unfold np_scalar; simpl. by rewrite interpolate_zip, Hs.
  - done.
  - unfold wf_array; simpl.
    rewrite length_map, length_zip_with. unfold wf_array in Hw1. lia.
  - unfold wf_array; simpl.
    rewrite !length_map, length_zip_with, <- Hs. unfold wf_array in Hw1. lia.
Qed.

(** ** Running the monad *)

Lemma bind_ok {A B} (m : M A) (k : A -> M B) w a w' :
  m w = (Ok a, w') -> bind m k w = k a w'.
Proof. intros E. unfold bind. by rewrite E. Qed.

Lemma bind_raise {A B} (m : M A) (k : A -> M B) w e w' :
  m w = (Raise e, w') -> bind m k w = (Raise e, w').
Proof. intros E. unfold bind. by rewrite E. Qed.

Lemma after_after w e1 e2 : after (after w e1) e2 = after w (e1 ++ e2).
Proof. unfold after; simpl. by rewrite <- app_assoc. Qed.

Lemma after_nil w : after w [] = w.
Proof. destruct w. unfold after; simpl. by rewrite app_nil_r. Qed.

Lemma emit_after e w : emit e w = (Ok tt, after w [e]).
Proof. done. Qed.

Lemma fetchall_run `{Externals} query w :
  fetchall query w = (sql_select query (pending w), after w [EExecute query]).
Proof. done. Qed.

(** ** Group resolution *)

Lemma voice_lines_run (rs : list row) w :
  for_each (map row_tuple rs) (fun voice =>
     v0 <- lift (index voice 0) ;;
     v1 <- lift (index voice 1) ;;
     v2 <- lift (index voice 2) ;;
     v3 <- lift (index voice 3) ;;
     print [FText "Name: "; FSql v0; FText ", Gender: "; FSql v1;
            FText ", Language: "; FSql v2; FText ", Quality: "; FSql v3]) w
  = (Ok tt, after w (map voice_line rs)).
Proof.
  revert w. induction rs as [|r rs IH]; intros w; simpl.
  - by rewrite after_nil.
  - unfold bind at 1. simpl. rewrite IH, after_after. done.
Qed.

Lemma style_vectors_run (rs : list row) w :
  map_m (fun voice => lift (index voice 5)) (map row_tuple rs) w
  = (Ok (map style_vector rs), w).
Proof.
  revert w. induction rs as [|r rs IH]; intros w; simpl; [done|].
  unfold bind at 1. simpl. unfold bind at 1. by rewrite IH.
Qed.

(** C3.  When the query matches no record, [get_voice_group_vector] raises
    the error whose message ends with the query.  The only external call
    made is the execution of the query itself: nothing is printed, nothing
    is averaged, and no vector is returned. *)
Theorem empty_group_raises `{Externals} (query : string) (w : world) :
  sql_select query (pending w) = Ok [] ->
  get_voice_group_vector query w =
    (Raise (ValueError ("No voices found for query: " +:+ query)),
     after w [EExecute query]).
Proof.
  intros Hq. unfold get_voice_group_vector.
  rewrite (bind_ok _ _ w [] (after w [EExecute query])); [done|].
  by rewrite fetchall_run, Hq.
Qed.

Lemma empty_group_raises_witness :
  @get_voice_group_vector Demo.externals
    "SELECT * FROM voices WHERE gender = 'X'" Demo.world0 =
    (Raise (ValueError "No voices found for query: SELECT * FROM voices WHERE gender = 'X'"),
     after Demo.world0 [EExecute "SELECT * FROM voices WHERE gender = 'X'"]).
Proof.
  apply (@empty_group_raises Demo.externals
           "SELECT * FROM voices WHERE gender = 'X'" Demo.world0).
  reflexivity.
Defined.

(** ** The mean of a group *)

Lemma rmap_entry_array (vs : list (ndarray R)) :
  rmap entry_array (map SArr vs) = Ok vs.
Proof. induction vs as [|a vs IH]; simpl; [done|]. by rewrite IH. Qed.

Lemma shape_eqb_true s1 s2 : shape_eqb s1 s2 = true <-> s1 = s2.
Proof. unfold shape_eqb. apply bool_decide_eq_true. Qed.

Lemma same_shape_check (a : ndarray R) (vs : list (ndarray R)) :
  Forall (fun b => shape b = shape a) vs ->
  forallb (fun v' => shape_eqb (entry_shape v') (shape a)) (map SArr vs) = true.
Proof.
  induction 1 as [|b vs Hb _ IH]; simpl; [done|].
  rewrite IH, andb_true_r. by apply shape_eqb_true.
Qed.

Lemma nth_zip_with_Rplus (x y : list R) k :
  length y = length x ->
  nth k (zip_with Rplus x y) 0%R = (nth k x 0 + nth k y 0)%R.
Proof.
  revert y k. induction x as [|a x IH]; intros [|b y] [|k] Hl;
    simpl in *; try discriminate; try lra.
  apply IH. lia.
Qed.

(** The run of [get_voice_group_vector] on a non-empty match of full rows. *)
Lemma get_voice_group_vector_run `{Externals} query w (r : row) (rs : list row) :
  sql_select query (pending w) = Ok (map row_tuple (r :: rs)) ->
  get_voice_group_vector query w =
    (np_mean_axis0 (map style_vector (r :: rs)),
     after w (EExecute query
                :: EPrint [FText (NL +:+ "Voices matched by query:")]
                :: map voice_line (r :: rs))).
Proof.
  intros Hq. unfold get_voice_group_vector.
  rewrite (bind_ok _ _ w (map row_tuple (r :: rs)) (after w [EExecute query]));
    [|by rewrite fetchall_run, Hq].
  change (map row_tuple (r :: rs)) with (row_tuple r :: map row_tuple rs).
  cbv iota beta.
  change (row_tuple r :: map row_tuple rs) with (map row_tuple (r :: rs)).
  unfold print at 1. rewrite (bind_ok _ _ _ _ _ (emit_after _ _)).
  rewrite (bind_ok _ _ _ _ _ (voice_lines_run _ _)).
  rewrite (bind_ok _ _ _ _ _ (style_vectors_run _ _)).
  rewrite !after_after. done.
Qed.

(** ** Arrays of different shapes *)

Lemma broadcast_dim_sym a b : broadcast_dim a b = broadcast_dim b a.
Proof.
  unfold broadcast_dim.
  destruct (Nat.eqb_spec a b), (Nat.eqb_spec b a), (Nat.eqb_spec a 1),
    (Nat.eqb_spec b 1); subst; try done; congruence.
Qed.

Lemma broadcast_rev_sym s1 : forall s2, broadcast_rev s1 s2 = broadcast_rev s2 s1.
Proof.
  induction s1 as [|a s1 IH]; intros [|b s2]; simpl; try done.
  by rewrite broadcast_dim_sym, IH.
Qed.

Lemma broadcast_shapes_sym s1 s2 : broadcast_shapes s1 s2 = broadcast_shapes s2 s1.
Proof. unfold broadcast_shapes. by rewrite broadcast_rev_sym. Qed.

Lemma np_binop_ok f (a b : ndarray R) s :
  broadcast_shapes (shape a) (shape b) = Some s ->
  exists d, np_binop f a b = Ok (mk_ndarray s d).
Proof. intros Hb. unfold np_binop. rewrite Hb. by eexists. Qed.

Lemma np_binop_incompatible f (a b : ndarray R) :
  broadcast_shapes (shape a) (shape b) = None ->
  np_binop f a b = Raise (ValueError "operands could not be broadcast together").
Proof. intros Hb. unfold np_binop. by rewrite Hb. Qed.

(** Shapes [n] and [m] of two vectors are incompatible exactly when they
    differ and neither is 1. *)
Lemma broadcast_shapes_vectors n m :
  n <> m -> n <> 1 -> m <> 1 -> broadcast_shapes [n] [m] = None.
Proof.
  intros Hnm Hn Hm. unfold broadcast_shapes; simpl. unfold broadcast_dim.
  by destruct (Nat.eqb_spec n m), (Nat.eqb_spec n 1), (Nat.eqb_spec m 1).
Qed.

Lemma mixed_shapes_check (v : ndarray R) (vs : list (ndarray R)) :
  (exists a b, In a (v :: vs) /\ In b (v :: vs) /\ shape a <> shape b) ->
  forallb (fun v' => shape_eqb (entry_shape v') (entry_shape (SArr v)))
    (map SArr vs) = false.
Proof.
  intros (a & b & Ha & Hb & Hab).
  apply not_true_is_false. intros Hall. apply Hab.
  rewrite forallb_forall in Hall.
  assert (Hv : forall c, In c (v :: vs) -> shape c = shape v).
  { intros c [->|Hc]; [done|].
    apply shape_eqb_true. apply (Hall (SArr c)). by apply in_map. }
  by rewrite (Hv a), (Hv b).
Qed.

(** C5 (counterexample).  Interpolation does not fail on every pair of
    arrays of different shapes: an array of one element is repeated along
    the other operand, here of three elements, and a result is returned. *)
Lemma interpolate_mismatch_counterexample :
  shape (Demo.vec [1]%R) <> shape (Demo.vec [1; 2; 3]%R)
  /\ interpolate_styles (Demo.vec [1]%R) (Demo.vec [1; 2; 3]%R) 0
     = Ok (Demo.vec [1; 3 / 2; 2]%R).
Proof.
  split; [discriminate|].
  unfold interpolate_styles, np_sub, np_add, np_binop, Demo.vec. simpl.
  repeat f_equal; lra.
Qed.

(** An element-wise operation reads its operands as if they were repeated
    to the broadcast shape. *)
Lemma np_binop_broadcast f (a b : ndarray R) s :
  broadcast_shapes (shape a) (shape b) = Some s ->
  np_binop f a b = np_binop f (broadcast_to s a) (broadcast_to s b).
Proof.
  intros Hs.
  assert (Hl : length (data (broadcast_to s a)) = prod_shape s)
    by (unfold broadcast_to; simpl; by rewrite length_map, length_seq).
  assert (Hl' : length (data (broadcast_to s b)) = prod_shape s)
    by (unfold broadcast_to; simpl; by rewrite length_map, length_seq).
  rewrite (np_binop_same_shape f (broadcast_to s a) (broadcast_to s b));
    [|done|done|done].
  unfold np_binop. rewrite Hs. cbn [shape data broadcast_to]. f_equal. f_equal.
  clear. induction (seq 0 (prod_shape s)) as [|i l IH]; simpl; [done|].
  by rewrite IH.
Qed.

Lemma interpolate_styles_broadcast (a b : ndarray R) (factor : R) s :
  broadcast_shapes (shape a) (shape b) = Some s ->
  interpolate_styles a b factor
  = interpolate_styles (broadcast_to s a) (broadcast_to s b) factor.
Proof.
  intros Hs. unfold interpolate_styles, np_sub, np_add.
  rewrite (np_binop_broadcast Rminus b a s)
    by (by rewrite broadcast_shapes_sym).
  by rewrite (np_binop_broadcast Rplus a b s).
Qed.

(** C5 (amended).  A matched group of full rows whose style vectors do not
    all have one shape makes [get_voice_group_vector] raise a [ValueError],
    with database and files left alone.  [interpolate_styles] on two arrays
    of different shapes raises a [ValueError] when the shapes cannot be
    broadcast against each other, as for two vectors of different lengths
    both other than 1; when they can, it returns the broadcast result: an
    array of the broadcast shape, one element per index, which is what
    [interpolate_styles] returns on the two operands repeated to that
    shape. *)
Theorem mismatched_shapes `{Externals} (query : string) (w : world)
  (rs : list row) (vs : list (ndarray R)) (a b : ndarray R) (factor : R) :
  sql_select query (pending w) = Ok (map row_tuple rs) ->
  map style_vector rs = map SArr vs ->
  (exists x y, In x vs /\ In y vs /\ shape x <> shape y) ->
  shape a <> shape b ->
  (exists msg w',
      get_voice_group_vector query w = (Raise (ValueError msg), w')
      /\ disk w' = disk w /\ pending w' = pending w /\ files w' = files w)
  /\ (broadcast_shapes (shape a) (shape b) = None ->
      exists msg, interpolate_styles a b factor = Raise (ValueError msg))
  /\ (forall n m, shape a = [n] -> shape b = [m] -> n <> 1 -> m <> 1 ->
      exists msg, interpolate_styles a b factor = Raise (ValueError msg))
  /\ (forall s, broadcast_shapes (shape a) (shape b) = Some s ->
      exists r,
        interpolate_styles a b factor = Ok r
        /\ shape r = s
        /\ wf_array r
        /\ interpolate_styles (broadcast_to s a) (broadcast_to s b) factor
           = Ok r).
Proof.
  intros Hq Hsv Hmix Hab.
  assert (Hnone : broadcast_shapes (shape a) (shape b) = None ->
                  exists msg, interpolate_styles a b factor = Raise (ValueError msg)).
  { intros Hb. unfold interpolate_styles, np_sub.
    rewrite np_binop_incompatible; [by eexists|].
    by rewrite broadcast_shapes_sym. }
  repeat split.
  - destruct vs as [|v vs]; [by destruct Hmix as (? & ? & [] & _)|].
    destruct rs as [|r rs]; [done|].
    rewrite (get_voice_group_vector_run _ _ _ _ Hq), Hsv.
    change (map SArr (v :: vs)) with (SArr v :: map SArr vs).
    unfold np_mean_axis0. rewrite mixed_shapes_check by done.
    by eexists _, _.
  - exact Hnone.
  - intros n m Hn Hm Hn1 Hm1. apply Hnone. rewrite Hn, Hm.
    apply broadcast_shapes_vectors; [congruence|done..].
  - intros s Hs.
    rewrite (interpolate_styles_broadcast a b factor s Hs).
    assert (Hwa : wf_array (broadcast_to s a))
      by (unfold wf_array, broadcast_to; simpl;
          by rewrite length_map, length_seq).
    assert (Hwb : wf_array (broadcast_to s b))
      by (unfold wf_array, broadcast_to; simpl;
          by rewrite length_map, length_seq).
    rewrite (interpolate_styles_same_shape (broadcast_to s a)
               (broadcast_to s b) factor eq_refl Hwa Hwb).
    eexists. split; [reflexivity|]. split; [reflexivity|]. split; [|reflexivity].
    unfold wf_array. cbn [shape data broadcast_to].
    rewrite length_zip_with, !length_map, length_seq. lia.
Qed.

Lemma mismatched_shapes_witness :
  (exists msg w',
      @get_voice_group_vector Demo.externals "SELECT * FROM voices" Demo.world0
      = (Raise (ValueError msg), w')
      /\ disk w' = disk Demo.world0 /\ pending w' = pending Demo.world0
      /\ files w' = files Demo.world0)
  /\ (exists msg,
        interpolate_styles (Demo.vec [1; 0]%R) (Demo.vec [1; 2; 3]%R) 1
        = Raise (ValueError msg))
  /\ (exists r,
        interpolate_styles (Demo.vec [1]%R) (Demo.vec [1; 2; 3]%R) 1 = Ok r
        /\ shape r = [3]
        /\ wf_array r
        /\ interpolate_styles (broadcast_to [3] (Demo.vec [1]%R))
             (broadcast_to [3] (Demo.vec [1; 2; 3]%R)) 1
           = Ok r).
Proof.
  pose proof (@mismatched_shapes Demo.externals "SELECT * FROM voices"
                Demo.world0 Demo.catalog
                [Demo.vec [1; 0]%R; Demo.vec [0; 1]%R; Demo.vec [1; 2; 3]%R]
                (Demo.vec [1; 0]%R) (Demo.vec [1; 2; 3]%R) 1) as H1.
  pose proof (@mismatched_shapes Demo.externals "SELECT * FROM voices"
                Demo.world0 Demo.catalog
                [Demo.vec [1; 0]%R; Demo.vec [0; 1]%R; Demo.vec [1; 2; 3]%R]
                (Demo.vec [1]%R) (Demo.vec [1; 2; 3]%R) 1) as H2.
  assert (Hmix : exists x y : ndarray R,
             In x [Demo.vec [1; 0]%R; Demo.vec [0; 1]%R; Demo.vec [1; 2; 3]%R]
             /\ In y [Demo.vec [1; 0]%R; Demo.vec [0; 1]%R; Demo.vec [1; 2; 3]%R]
             /\ shape x <> shape y).
  { exists (Demo.vec [1; 0]%R), (Demo.vec [1; 2; 3]%R).
    split; [by left|]. split; [by right; right; left|]. discriminate. }
  destruct (H1 eq_refl eq_refl Hmix) as (Hg & Hnone & _ & _); [discriminate|].
  destruct (H2 eq_refl eq_refl Hmix) as (_ & _ & _ & Hsome); [discriminate|].
  split; [exact Hg|]. split; [by apply Hnone|]. by apply Hsome.
Defined.

(** ** Computations that leave the store alone *)

Lemma bind_cases {A B} (m : M A) (k : A -> M B) w :
  (exists e w1, m w = (Raise e, w1) /\ bind m k w = (Raise e, w1))
  \/ (exists a w1, m w = (Ok a, w1) /\ bind m k w = k a w1).
Proof.
  unfold bind. destruct (m w) as [[a|e] w1]; [right|left]; by eexists _, _.
Qed.

Section Preservation.

Context (rel : world -> world -> Prop).
Hypothesis rel_refl : forall w, rel w w.
Hypothesis rel_trans : forall w1 w2 w3, rel w1 w2 -> rel w2 w3 -> rel w1 w3.

Lemma preserves_ret {A} (a : A) : preserves rel (ret a).
Proof. intros w. apply rel_refl. Qed.

Lemma preserves_raise {A} (e : exn) : preserves rel (@raise A e).
Proof. intros w. apply rel_refl. Qed.

Lemma preserves_lift {A} (r : result A) : preserves rel (lift r).
Proof. intros w. apply rel_refl. Qed.

Lemma preserves_bind {A B} (m : M A) (k : A -> M B) :
  preserves rel m -> (forall a, preserves rel (k a)) -> preserves rel (bind m k).
Proof.
  intros Hm Hk w. specialize (Hm w).
  destruct (bind_cases m k w) as [(e & w1 & E & ->)|(a & w1 & E & ->)];
    rewrite E in Hm; simpl in *; [done|].
  eapply rel_trans; [exact Hm|apply Hk].
Qed.

Lemma preserves_for_each {A} (l : list A) (body : A -> M unit) :
  (forall x, preserves rel (body x)) -> preserves rel (for_each l body).
Proof.
  intros Hb. induction l as [|x l IH]; simpl.
  - apply preserves_ret.
  - apply preserves_bind; [apply Hb|]. by intros _.
Qed.

Lemma preserves_map_m {A B} (f : A -> M B) (l : list A) :
  (forall x, preserves rel (f x)) -> preserves rel (map_m f l).
Proof.
  intros Hf. induction l as [|x l IH]; simpl.
  - apply preserves_ret.
  - apply preserves_bind; [apply Hf|]. intros y.
    apply preserves_bind; [exact IH|]. intros ys. apply preserves_ret.
Qed.

Lemma preserves_try_except {A} (body : M A) (handler : exn -> M A) :
  preserves rel body -> (forall e, preserves rel (handler e)) ->
  preserves rel (try_except body handler).
Proof.
  intros Hb Hh w. unfold try_except. specialize (Hb w).
  destruct (body w) as [[a|e] w1]; simpl in *; [done|].
  destruct (is_Exception e); simpl; [|done].
  eapply rel_trans; [exact Hb|apply Hh].
Qed.

Lemma preserves_try_finally {A} (body : M A) (final : M unit) :
  preserves rel body -> preserves rel final ->
  preserves rel (try_finally body final).
Proof.
  intros Hb Hf w. unfold try_finally. specialize (Hb w).
  destruct (body w) as [r w1]; simpl in *. specialize (Hf w1).
  destruct (final w1) as [[u|e] w2]; simpl in *; by eapply rel_trans.
Qed.

End Preservation.

Lemma same_store_refl w : same_store w w.
Proof. exists []. by rewrite after_nil. Qed.

Lemma same_store_trans w1 w2 w3 :
  same_store w1 w2 -> same_store w2 w3 -> same_store w1 w3.
Proof. intros [e1 ->] [e2 ->]. exists (e1 ++ e2). apply after_after. Qed.

Lemma same_db_refl w : same_db w w.
Proof. done. Qed.

Lemma same_db_trans w1 w2 w3 : same_db w1 w2 -> same_db w2 w3 -> same_db w1 w3.
Proof. unfold same_db. intros [-> ->] [-> ->]. done. Qed.

Lemma same_store_db w w' : same_store w w' -> same_db w w'.
Proof. by intros [e ->]. Qed.

Lemma preserves_weaken {A} (m : M A) :
  preserves same_store m -> preserves same_db m.
Proof. intros Hm w. apply same_store_db, Hm. Qed.

Lemma emit_same_store e : preserves same_store (emit e).
Proof. intros w. by exists [e]. Qed.

Lemma print_same_store line : preserves same_store (print line).
Proof. apply emit_same_store. Qed.

Lemma fetchall_same_store `{Externals} query :
  preserves same_store (fetchall query).
Proof. intros w. by exists [EExecute query]. Qed.

Lemma quiet_bind {A B} (m : M A) (k : A -> M B) :
  preserves same_store m -> (forall a, preserves same_store (k a)) ->
  preserves same_store (bind m k).
Proof. apply preserves_bind, same_store_trans. Qed.

Lemma quiet_for_each {A} (l : list A) (body : A -> M unit) :
  (forall x, preserves same_store (body x)) ->
  preserves same_store (for_each l body).
Proof.
  apply preserves_for_each; [apply same_store_refl|apply same_store_trans].
Qed.

Lemma quiet_map_m {A B} (f : A -> M B) (l : list A) :
  (forall x, preserves same_store (f x)) -> preserves same_store (map_m f l).
Proof.
  apply preserves_map_m; [apply same_store_refl|apply same_store_trans].
Qed.

Lemma quiet_lift {A} (r : result A) : preserves same_store (lift r).
Proof. apply preserves_lift, same_store_refl. Qed.

Lemma quiet_ret {A} (a : A) : preserves same_store (ret a).
Proof. apply preserves_ret, same_store_refl. Qed.

Lemma quiet_raise {A} (e : exn) : preserves same_store (@raise A e).
Proof. apply preserves_raise, same_store_refl. Qed.

Ltac quiet :=
  repeat first
    [ apply quiet_bind; [|intros ?]
    | apply quiet_for_each; intros ?
    | apply quiet_map_m; intros ?
    | apply quiet_lift
    | apply quiet_ret
    | apply quiet_raise
    | apply print_same_store
    | apply emit_same_store
    | apply fetchall_same_store ].

(** Group resolution reads the catalog and prints; it changes neither the
    database nor the output files, whatever its outcome. *)
Lemma get_voice_group_vector_same_store `{Externals} query :
  preserves same_store (get_voice_group_vector query).
Proof.
  unfold get_voice_group_vector.
  apply quiet_bind; [apply fetchall_same_store|].
  intros [|voice voices]; quiet.
Qed.

(** ** The command line *)

Lemma parse_args_cases (c : cli) (w : world) :
  (exists msg, parse_args c w = (Raise (SystemExit 2 msg), w))
  \/ (exists a, parse_args c w = (Ok a, w)
               /\ args_lang a = default "en-us" (cli_lang c)
               /\ args_insert a = cli_insert c
               /\ args_name a = cli_name c
               /\ args_gender a = cli_gender c
               /\ args_quality a = cli_quality c
               /\ args_notes a = cli_notes c).
Proof.
  unfold parse_args, required, check_gender, check_quality, parser_error.
  destruct (cli_source_query c) as [sq|]; [|left; by eexists].
  destruct (cli_target_query c) as [tq|]; [|left; by eexists].
  destruct (cli_gender c) as [g|] eqn:Eg;
    [destruct (existsb (String.eqb g) gender_choices);
       [|left; by eexists]|];
    (destruct (cli_quality c) as [q|] eqn:Eq;
       [destruct ((0 <=? q) && (q <? 101))%Z; [|left; by eexists]|]);
    right; eexists; (split; [reflexivity|]); simpl; by rewrite ?Eg, ?Eq.
Qed.

Lemma validate_insert_missing (a : args) (w : world) :
  args_insert a <> None ->
  args_name a = None \/ args_gender a = None \/ args_quality a = None ->
  exists msg, validate_insert a w = (Raise (SystemExit 2 msg), w)
              /\ In msg missing_argument_messages.
Proof.
  intros Hi Hm. unfold validate_insert, parser_error, missing_argument_messages.
  destruct (args_insert a); [|done].
  destruct (truthy (args_name a)) eqn:En;
    [|eexists; split; [reflexivity|by left]].
  destruct (truthy (args_gender a)) eqn:Eg;
    [|eexists; split; [reflexivity|by right; left]].
  destruct (args_quality a) eqn:Eq;
    [|eexists; split; [reflexivity|by right; right; left]].
  destruct Hm as [Hm|[Hm|Hm]]; rewrite Hm in *; discriminate.
Qed.

(** C7.  A request to insert a synthetic voice that lacks the name, the
    gender or the quality makes [main] stop with the parser's error (exit
    status 2) in the world it started in: no directory is made, no
    connection opened, no statement executed, the synthesis engine is not
    called and nothing is written.  When the command line is otherwise
    accepted, the message names the first missing option. *)
Theorem missing_argument_fails_first `{Externals} (c : cli) (w : world) :
  cli_insert c <> None ->
  cli_name c = None \/ cli_gender c = None \/ cli_quality c = None ->
  exists msg,
    main c w = (Raise (SystemExit 2 msg), w)
    /\ (forall a, parse_args c w = (Ok a, w) ->
          In msg missing_argument_messages).
Proof.
  intros Hi Hm. unfold main.
  destruct (parse_args_cases c w)
    as [[msg E]|(a & E & _ & Ei & En & Eg & Eq & _)].
  - exists msg. split; [by rewrite (bind_raise _ _ _ _ _ E)|].
    intros a Ea. congruence.
  - rewrite (bind_ok _ _ _ _ _ E).
    destruct (validate_insert_missing a w) as (msg & Ev & Hin).
    + congruence.
    + by rewrite En, Eg, Eq.
    + exists msg. split; [|by intros].
      unfold main_with. by rewrite (bind_raise _ _ _ _ _ Ev).
Qed.

Lemma missing_argument_fails_first_witness :
  exists msg,
    @main Demo.externals (Demo.request (Some "AB") None) Demo.world0
    = (Raise (SystemExit 2 msg), Demo.world0)
    /\ (forall a, parse_args (Demo.request (Some "AB") None) Demo.world0
                  = (Ok a, Demo.world0) ->
          In msg missing_argument_messages).
Proof.
  apply (@missing_argument_fails_first Demo.externals
           (Demo.request (Some "AB") None) Demo.world0).
  - discriminate.
  - right; right; reflexivity.
Defined.

(** ** Bulk export *)

(** C8.  With no voice in the catalog, [export_all_voices] raises its
    error right after the query: the output file is neither opened nor
    written, and the set of files is the one before the call. *)
Theorem export_empty_catalog_fails (output_file : string) (w : world) :
  pending w = [] ->
  export_all_voices output_file w =
    (Raise (ValueError "No voices found in database"),
     after w [EExecute "SELECT name, style_vector FROM voices"])
  /\ files (snd (export_all_voices output_file w)) = files w
  /\ files (snd (export_all_voices output_file w)) !! output_file
     = files w !! output_file.
Proof.
  intros Hp.
  assert (E : export_all_voices output_file w =
              (Raise (ValueError "No voices found in database"),
               after w [EExecute "SELECT name, style_vector FROM voices"])).
  { unfold export_all_voices.
    rewrite (bind_ok _ _ _ _ _ (emit_after _ w)).
    unfold bind; simpl. by rewrite Hp. }
  by rewrite E.
Qed.

Lemma export_empty_catalog_fails_witness :
  export_all_voices "exported_voices/voices.bin" Demo.empty_world =
    (Raise (ValueError "No voices found in database"),
     after Demo.empty_world [EExecute "SELECT name, style_vector FROM voices"])
  /\ files (snd (export_all_voices "exported_voices/voices.bin" Demo.empty_world))
     = files Demo.empty_world
  /\ files (snd (export_all_voices "exported_voices/voices.bin" Demo.empty_world))
       !! "exported_voices/voices.bin"
     = files Demo.empty_world !! "exported_voices/voices.bin".
Proof.
  apply (export_empty_catalog_fails "exported_voices/voices.bin" Demo.empty_world).
  reflexivity.
Defined.

(** A catalog with voices is written out, one entry per name. *)
Example export_demo :
  files (snd (export_all_voices "voices.bin" Demo.world0)) !! "voices.bin"
  = Some (NpzFile [("A", SArr (Demo.vec [1; 0]%R));
                   ("B", SArr (Demo.vec [0; 1]%R));
                   ("C", SArr (Demo.vec [1; 2; 3]%R))]).
Proof. vm_compute. reflexivity. Qed.

(** ** The workflow of [main] *)

Lemma print_after line w : print line w = (Ok tt, after w [EPrint line]).
Proof. done. Qed.

Lemma sql_insert_ok (r : row) (t t' : table) :
  sql_insert r t = Ok t' ->
  t' = t ++ [r] /\ has_key (name r) t = false /\ check_not_null r = Ok tt.
Proof.
  unfold sql_insert. destruct (check_not_null r) as [[]|e]; simpl; [|done].
  destruct (has_key (name r) t); [done|]. by intros [= <-].
Qed.

Lemma put_file_same_db path f e : preserves same_db (put_file path f e).
Proof. by intros w. Qed.

Lemma create_and_write_same_db `{Externals} a voice output_file :
  preserves same_db (create_and_write a voice output_file).
Proof.
  unfold create_and_write.
  apply preserves_bind; [apply same_db_trans| |intros _].
  { apply preserves_weaken, emit_same_store. }
  apply preserves_bind; [apply same_db_trans| |intros audio].
  { apply preserves_lift, same_db_refl. }
  apply put_file_same_db.
Qed.

Lemma generate_samples_same_db `{Externals} a s t :
  preserves same_db (generate_samples a s t).
Proof.
  unfold generate_samples.
  apply preserves_bind; [apply same_db_trans| |intros ranges].
  { apply preserves_weaken. quiet. }
  apply preserves_for_each; [apply same_db_refl|apply same_db_trans|].
  intros factor.
  apply preserves_bind; [apply same_db_trans| |intros _].
  { apply preserves_weaken, print_same_store. }
  apply preserves_bind; [apply same_db_trans| |intros v].
  { apply preserves_lift, same_db_refl. }
  apply preserves_bind; [apply same_db_trans| |intros _].
  { apply create_and_write_same_db. }
  apply preserves_weaken, print_same_store.
Qed.

Lemma lift_run {A} (r : result A) w : lift r w = (r, w).
Proof. done. Qed.

Lemma update_table_ok statement f w t :
  f (pending w) = Ok t ->
  update_table statement f w =
    (Ok tt, mk_world (disk w) t (files w) (trace w ++ [EExecute statement])).
Proof. intros E. unfold update_table. by rewrite E. Qed.

Lemma update_table_raise statement f w e :
  f (pending w) = Raise e ->
  update_table statement f w = (Raise e, after w [EExecute statement]).
Proof. intros E. unfold update_table. by rewrite E. Qed.

Lemma commit_run w :
  commit w = (Ok tt, mk_world (pending w) (pending w) (files w)
                       (trace w ++ [ECommit])).
Proof. done. Qed.

(** The insertion block either stops at the interpolation or at the
    [INSERT] statement, having changed neither database nor files, or adds
    exactly the synthetic row and commits it. *)
Lemma insert_voice_outcome `{Externals} a s t factor w :
  (exists e w',
      insert_voice a s t factor w = (Raise e, w')
      /\ same_store w w'
      /\ (interpolate_styles s t factor = Raise e
          \/ exists v, interpolate_styles s t factor = Ok v
                       /\ sql_insert (synthetic_row a v) (pending w) = Raise e))
  \/ (exists v r w',
        insert_voice a s t factor w = (r, w')
        /\ interpolate_styles s t factor = Ok v
        /\ has_key (name (synthetic_row a v)) (pending w) = false
        /\ disk w' = pending w ++ [synthetic_row a v]
        /\ pending w' = pending w ++ [synthetic_row a v]).
Proof.
  unfold insert_voice.
  rewrite (bind_ok _ _ _ _ _ (print_after _ w)).
  set (w1 := after w _).
  destruct (interpolate_styles s t factor) as [v|e] eqn:Ei.
  2:{ left. exists e, w1. rewrite (bind_raise _ _ _ _ _ (lift_run _ w1)).
      split; [done|]. split; [by eexists|by left]. }
  rewrite (bind_ok _ _ _ _ _ (lift_run _ w1)).
  destruct (sql_insert (synthetic_row a v) (pending w)) as [t'|e] eqn:Es.
  - right. apply sql_insert_ok in Es as Hs. destruct Hs as (-> & Hk & _).
    rewrite (bind_ok _ _ _ _ _ (update_table_ok _ _ w1 _ Es)).
    rewrite (bind_ok _ _ _ _ _ (commit_run _)). simpl.
    match goal with |- context [bind ?m ?k ?w0] =>
      pose proof (eq_refl : w0 = w0) as Hw0;
      assert (Hdb : same_db w0 (snd (bind m k w0)));
      [|destruct (bind m k w0) as [r w'] eqn:Er] end.
    { apply preserves_bind; [apply same_db_trans| |intros _].
      { apply preserves_weaken, print_same_store. }
      apply preserves_bind; [apply same_db_trans| |intros _].
      { apply create_and_write_same_db. }
      apply preserves_weaken, print_same_store. }
    exists v, r, w'. split; [done|]. split; [done|]. split; [done|].
    simpl in Hdb. by destruct Hdb as [-> ->].
  - left. exists e, (after w1 [EExecute "INSERT INTO voices"]).
    rewrite (bind_raise _ _ _ _ _ (update_table_raise _ _ w1 _ Es)).
    split; [done|]. split; [|right; by exists v].
    unfold w1. rewrite after_after. by eexists.
Qed.

Lemma pending_after w events : pending (after w events) = pending w.
Proof. done. Qed.

(** One step of a sequence whose head leaves the store alone: either the
    head raises, or the sequence goes on in a world that differs by its
    trace only. *)
Ltac quiet_step tac :=
  match goal with
  | |- context [bind ?m ?k ?w0] =>
      let Hs := fresh "Hs" in
      let E := fresh "E" in
      let ev := fresh "ev" in
      assert (Hs : same_store w0 (snd (m w0))) by tac;
      destruct (bind_cases m k w0) as [(? & ? & E & ->)|(? & ? & E & ->)];
      rewrite E in Hs; simpl in Hs; destruct Hs as [ev ->];
      rewrite ?after_after in *
  end.

(** The body of the [try] block fails with the store untouched, or runs
    the sample loop, which does not touch the database, or adds the
    synthetic row and commits it. *)
Lemma workflow_outcome `{Externals} a w :
  (exists e w', workflow a w = (Raise e, w') /\ same_store w w')
  \/ (args_insert a = None /\ same_db w (snd (workflow a w)))
  \/ (exists factor v r w',
        args_insert a = Some factor
        /\ workflow a w = (r, w')
        /\ has_key (name (synthetic_row a v)) (pending w) = false
        /\ disk w' = pending w ++ [synthetic_row a v]
        /\ pending w' = pending w ++ [synthetic_row a v]).
Proof.
  unfold workflow.
  quiet_step ltac:(apply print_same_store);
    [left; eexists _, _; split; [done|by eexists]|].
  quiet_step ltac:(apply get_voice_group_vector_same_store);
    [left; eexists _, _; split; [done|by eexists]|].
  quiet_step ltac:(apply print_same_store);
    [left; eexists _, _; split; [done|by eexists]|].
  quiet_step ltac:(apply get_voice_group_vector_same_store);
    [left; eexists _, _; split; [done|by eexists]|].
  quiet_step ltac:(apply emit_same_store);
    [left; eexists _, _; split; [done|by eexists]|].
  quiet_step ltac:(apply quiet_lift);
    [left; eexists _, _; split; [done|by eexists]|].
  destruct (args_insert a) as [factor|] eqn:Ei.
  - match goal with |- context [insert_voice a ?s ?t factor ?w0] =>
      destruct (insert_voice_outcome a s t factor w0)
        as [(e & w' & Er & [ev' ->] & _)|(v & r & w' & Er & _ & Hk & Hd & Hp)]
    end.
    + left. exists e. eexists. split; [exact Er|].
      rewrite after_after. by eexists.
    + right; right. exists factor, v, r, w'.
      rewrite pending_after in *. done.
  - right; left. split; [done|].
    match goal with |- context [generate_samples a ?s ?t ?w0] =>
      pose proof (generate_samples_same_db a s t w0) as Hg
    end.
    destruct Hg as [Hd Hp]. split; [by rewrite Hd|by rewrite Hp].
Qed.

Lemma validate_insert_cases (a : args) (w : world) :
  (exists msg, validate_insert a w = (Raise (SystemExit 2 msg), w))
  \/ (validate_insert a w = (Ok tt, w)
      /\ (args_insert a <> None ->
          truthy (args_name a) = true /\ truthy (args_gender a) = true
          /\ args_quality a <> None)).
Proof.
  unfold validate_insert, parser_error.
  destruct (args_insert a); [|right; by split].
  destruct (truthy (args_name a)); [|left; by eexists].
  destruct (truthy (args_gender a)); [|left; by eexists].
  destruct (args_quality a); [|left; by eexists].
  right. by split.
Qed.

Lemma try_finally_close {A} (body : M A) w :
  try_finally body close w =
    (fst (body w),
     mk_world (disk (snd (body w))) (disk (snd (body w)))
       (files (snd (body w))) (trace (snd (body w)) ++ [EClose])).
Proof. unfold try_finally. by destruct (body w) as [r w1]. Qed.

(** The world in which the [try] block starts. *)
Lemma main_with_run `{Externals} a w :
  validate_insert a w = (Ok tt, w) ->
  main_with a w =
    try_finally (workflow a) close
      (mk_world (disk w) (disk w) (files w)
         (trace w ++ [EMkdir (args_output_dir a)] ++ [EConnect (args_db_path a)])).
Proof.
  intros Ev. unfold main_with, mkdir.
  rewrite (bind_ok _ _ _ _ _ Ev).
  rewrite (bind_ok _ _ _ _ _ (emit_after _ w)).
  unfold bind, connect, after; simpl. by rewrite <- app_assoc.
Qed.

(** A run of the workflow leaves the catalog as it was, and then, when an
    insertion was asked for, fails and writes no file; or it appends
    exactly the synthetic row, whose name was not in the catalog. *)
Lemma main_with_outcome `{Externals} a w :
  (disk (snd (main_with a w)) = disk w
   /\ (args_insert a <> None ->
       files (snd (main_with a w)) = files w
       /\ exists e, fst (main_with a w) = Raise e))
  \/ (exists factor v,
        args_insert a = Some factor
        /\ has_key (name (synthetic_row a v)) (disk w) = false
        /\ disk (snd (main_with a w)) = disk w ++ [synthetic_row a v]).
Proof.
  destruct (validate_insert_cases a w) as [[msg Ev]|[Ev _]].
  { left. unfold main_with. rewrite (bind_raise _ _ _ _ _ Ev). simpl.
    split; [done|]. intros _. split; [done|by eexists]. }
  rewrite (main_with_run _ _ Ev), try_finally_close. simpl.
  set (w2 := mk_world (disk w) (disk w) (files w) _).
  destruct (workflow_outcome a w2)
    as [(e & w' & Er & [ev ->])|[[Ei [Hd Hp]]|(factor & v & r & w' & Ei & Er & Hk & Hd & _)]].
  - left. rewrite Er. simpl. split; [done|]. intros _. split; [done|by eexists].
  - left. split; [exact Hd|]. by intros [].
  - right. exists factor, v. rewrite Er. simpl. done.
Qed.

(** C10.  The catalog changes in one way only, and a successful insertion
    changes it.  A run of [main] leaves the catalog on disk as it was or
    appends one row to it, and that row has as language the [--lang]
    option, ['en-us'] when the option is absent, 1 (true) as [is_synthetic],
    NULL as [training_duration], and the [--name] option as name; no option
    sets the language of the stored row apart from [--lang].  When [--insert]
    is given and the run succeeds, the row is appended. *)
Theorem synthetic_record_fields `{Externals} (c : cli) (w : world) :
  (disk (snd (main c w)) = disk w
   \/ exists r : row,
        disk (snd (main c w)) = disk w ++ [r]
        /\ cli_insert c <> None
        /\ language r = SText (default "en-us" (cli_lang c))
        /\ is_synthetic r = SInt 1
        /\ training_duration r = SNull
        /\ name r = bind_str (cli_name c))
  /\ (forall factor : R,
        cli_insert c = Some factor ->
        fst (main c w) = Ok tt ->
        exists r : row,
          disk (snd (main c w)) = disk w ++ [r]
          /\ language r = SText (default "en-us" (cli_lang c))
          /\ is_synthetic r = SInt 1
          /\ training_duration r = SNull
          /\ name r = bind_str (cli_name c)).
Proof.
  unfold main.
  destruct (parse_args_cases c w)
    as [[msg E]|(a & E & El & Ei & En & _)].
  { rewrite (bind_raise _ _ _ _ _ E). simpl. split; [by left|done]. }
  rewrite (bind_ok _ _ _ _ _ E).
  destruct (main_with_outcome a w) as [[Hd Hf]|(factor & v & Hi & _ & Hd)].
  - split; [by left|]. intros factor Hc Hok.
    destruct Hf as [_ [e He]]; [by rewrite Ei, Hc|]. congruence.
  - assert (Hr : exists r : row,
               disk (snd (main_with a w)) = disk w ++ [r]
               /\ language r = SText (default "en-us" (cli_lang c))
               /\ is_synthetic r = SInt 1
               /\ training_duration r = SNull
               /\ name r = bind_str (cli_name c)).
    { exists (synthetic_row a v). simpl. by rewrite En, El. }
    split; [|by intros].
    right. destruct Hr as (r & H1 & H2 & H3 & H4 & H5).
    exists r. repeat split; try done. by rewrite <- Ei, Hi.
Qed.

Lemma synthetic_record_fields_witness :
  exists r : row,
    disk (snd (@main Demo.externals (Demo.request (Some "AB") (Some 75%Z))
                 Demo.world0))
    = disk Demo.world0 ++ [r]
    /\ language r = SText "en-us"
    /\ is_synthetic r = SInt 1
    /\ training_duration r = SNull
    /\ name r = SText "AB".
Proof.
  apply (proj2 (@synthetic_record_fields Demo.externals
                  (Demo.request (Some "AB") (Some 75%Z)) Demo.world0) 0%R).
  - reflexivity.
  - vm_compute. reflexivity.
Defined.

(** The insertion does happen on a valid request for a new name. *)
Example synthetic_insertion_demo :
  exists v,
    @main Demo.externals (Demo.request (Some "AB") (Some 75%Z)) Demo.world0
    = (Ok tt,
       mk_world
         (Demo.catalog ++
            [mk_row (SText "AB") (SText "M") (SText "en-us") (SInt 75) SNull
               (SArr v) (SInt 1) SNull (SText "2025-06-01 12:00:00")])
         (Demo.catalog ++
            [mk_row (SText "AB") (SText "M") (SText "en-us") (SInt 75) SNull
               (SArr v) (SInt 1) SNull (SText "2025-06-01 12:00:00")])
         (<["output/AB.wav" := WavFile [] 24000]> ∅)
         (trace (snd (@main Demo.externals
                        (Demo.request (Some "AB") (Some 75%Z)) Demo.world0)))).
Proof. eexists. vm_compute. reflexivity. Qed.

(** ** A name that is already in the catalog *)

Lemma filter_split_length {A} (f : A -> bool) (l : list A) :
  length (List.filter f l) + length (List.filter (fun x => negb (f x)) l)
  = length l.
Proof.
  induction l as [|x l IH]; simpl; [done|].
  destruct (f x); simpl; lia.
Qed.

(** The loop body of the bulk load on an entry that makes a row. *)
Lemma add_voice_run `{Externals} (voice : json) (r : row) (w : world) :
  describes voice r ->
  exists events,
    try_except (add_voice voice) (report_failure voice) w =
      (Ok tt,
       mk_world (disk w)
         (List.filter (fun r' => negb (key_eqb (name r) (name r'))) (pending w)
            ++ [r])
         (files w) (trace w ++ events)).
Proof.
  intros (jn & sv & p & Hn & Hs & Hp & Hb & Hc).
  unfold try_except, add_voice.
  rewrite (bind_ok _ _ w jn w) by (by rewrite lift_run, Hn).
  rewrite (bind_ok _ _ _ _ _ (emit_after _ w)).
  rewrite (bind_ok _ _ _ sv (after w [EGetVoiceStyle jn]))
    by (by rewrite lift_run, Hs).
  rewrite (bind_ok _ _ _ p (after w [EGetVoiceStyle jn]))
    by (by rewrite lift_run, Hp).
  erewrite bind_ok; cycle 1.
  { apply update_table_ok. rewrite Hb. simpl.
    unfold sql_insert_or_replace. rewrite Hc. reflexivity. }
  erewrite bind_ok; cycle 1.
  { rewrite lift_run, Hn. reflexivity. }
  rewrite print_after. unfold after; simpl.
  rewrite <- !app_assoc. by eexists.
Qed.

Lemma parse_args_insert_request c sq tq n factor w :
  insert_request c sq tq n factor ->
  exists a,
    parse_args c w = (Ok a, w)
    /\ args_source_query a = sq /\ args_target_query a = tq
    /\ args_insert a = Some factor /\ args_name a = Some n
    /\ (exists g, args_gender a = Some g /\ g <> "")
    /\ (exists q, args_quality a = Some q).
Proof.
  intros (Hsq & Htq & Hi & Hn & _ & (g & Hg & Hin) & (q & Hq & Hr)).
  unfold parse_args, required, check_gender, check_quality, bind, ret.
  rewrite Hsq, Htq, Hg, Hq, Hi, Hn.
  assert (Hc : existsb (String.eqb g) gender_choices = true).
  { apply existsb_exists. exists g. split; [done|apply String.eqb_refl]. }
  assert (Hb : ((0 <=? q) && (q <? 101))%Z = true).
  { apply andb_true_intro. split; [apply Z.leb_le|apply Z.ltb_lt]; lia. }
  rewrite Hc, Hb. eexists. split; [reflexivity|]. simpl.
  repeat split; try done.
  - exists g. split; [done|].
    destruct Hin as [<-|[<-|[<-|[]]]]; discriminate.
  - by exists q.
Qed.

Lemma truthy_some n : n <> "" -> truthy (Some n) = true.
Proof.
  intros Hn. unfold truthy. by destruct (String.eqb_spec n "").
Qed.

Lemma group_of_run `{Externals} query v w :
  group_of (pending w) query v ->
  exists events, get_voice_group_vector query w = (Ok v, after w events).
Proof.
  intros (r & rs & Hq & Hm).
  rewrite (get_voice_group_vector_run _ _ _ _ Hq), Hm. by eexists.
Qed.

(** The run of [main] on a valid insertion request whose name is taken. *)
Lemma duplicate_insert_run `{Externals} c sq tq n factor src tgt v w :
  insert_request c sq tq n factor ->
  group_of (disk w) sq src ->
  group_of (disk w) tq tgt ->
  Kokoro "kokoro-v1.0.onnx" "voices-v1.0.bin" = Ok tt ->
  interpolate_styles src tgt factor = Ok v ->
  has_key (SText n) (disk w) = true ->
  exists events,
    main c w =
      (Raise (IntegrityError "UNIQUE constraint failed: voices.name"),
       mk_world (disk w) (disk w) (files w) (trace w ++ events)).
Proof.
  intros Hreq Hsrc Htgt Hk Hi Hdup.
  pose proof Hreq as (_ & _ & _ & _ & Hnne & _).
  destruct (parse_args_insert_request c sq tq n factor w Hreq)
    as (a & Ep & Hsq & Htq & Hins & Hn & (g & Hg & Hgne) & (q & Hq)).
  unfold main. rewrite (bind_ok _ _ _ _ _ Ep).
  assert (Ev : validate_insert a w = (Ok tt, w)).
  { unfold validate_insert.
    by rewrite Hins, Hn, Hg, Hq, (truthy_some n Hnne), (truthy_some g Hgne). }
  rewrite (main_with_run _ _ Ev), try_finally_close.
  set (w2 := mk_world (disk w) (disk w) (files w) _).
  assert (Hw : exists events,
             workflow a w2 =
               (Raise (IntegrityError "UNIQUE constraint failed: voices.name"),
                after w2 events)).
  { unfold workflow. rewrite Hsq, Htq, Hins.
    rewrite (bind_ok _ _ _ _ _ (print_after _ w2)).
    destruct (group_of_run sq src (after w2 [EPrint [FText (NL +:+ "Processing source group...")]]) Hsrc)
      as [ev1 E1].
    rewrite (bind_ok _ _ _ _ _ E1).
    rewrite (bind_ok _ _ _ _ _ (print_after _ _)).
    match goal with |- context [bind (get_voice_group_vector tq) _ ?w0] =>
      destruct (group_of_run tq tgt w0 Htgt) as [ev2 E2] end.
    rewrite (bind_ok _ _ _ _ _ E2).
    rewrite (bind_ok _ _ _ _ _ (emit_after _ _)).
    erewrite bind_ok; cycle 1.
    { rewrite lift_run, Hk. reflexivity. }
    unfold insert_voice.
    rewrite (bind_ok _ _ _ _ _ (print_after _ _)).
    erewrite bind_ok; cycle 1.
    { rewrite lift_run, Hi. reflexivity. }
    erewrite bind_raise; cycle 1.
    { apply update_table_raise. unfold sql_insert, check_not_null, synthetic_row.
      simpl. rewrite Hg, Hq, Hn. simpl. rewrite Hdup. reflexivity. }
    rewrite !after_after. by eexists. }
  destruct Hw as (events & ->). simpl.
  unfold w2; simpl. rewrite <- !app_assoc. by eexists.
Qed.

(** The bulk load of a manifest with one entry that makes a row. *)
Lemma populate_database_one `{Externals} (voice_data voice : json) (r : row) w :
  getitem voice_data "voices" = Ok (JList [voice]) ->
  describes voice r ->
  exists events,
    populate_database voice_data w =
      (Ok tt,
       mk_world
         (List.filter (fun r' => negb (key_eqb (name r) (name r'))) (pending w)
            ++ [r])
         (List.filter (fun r' => negb (key_eqb (name r) (name r'))) (pending w)
            ++ [r])
         (files w) (trace w ++ events)).
Proof.
  intros Hv Hd. unfold populate_database.
  erewrite bind_ok; cycle 1.
  { rewrite lift_run, Hv. reflexivity. }
  erewrite bind_ok; cycle 1.
  { rewrite lift_run. reflexivity. }
  destruct (add_voice_run voice r w Hd) as [ev Ea].
  simpl for_each.
  erewrite bind_ok; cycle 1.
  { erewrite bind_ok; [|exact Ea]. reflexivity. }
  rewrite commit_run. simpl. rewrite <- app_assoc. by eexists.
Qed.

(** C6.  Bulk load: a manifest entry whose name is already stored once is
    added without error; afterwards the catalog holds the new row under
    that name and no other, the rows under other names are kept, and the
    count is the same.  Synthetic insertion: a valid request whose name is
    already stored, when both groups resolve, the engine loads and the
    interpolation succeeds, makes [main] fail with the integrity error of
    the uniqueness constraint; catalog, count and output files are as
    before. *)
Theorem duplicate_name_paths `{Externals}
  (voice_data voice : json) (r : row) (wb : world)
  (c : cli) (sq tq n : string) (factor : R) (src tgt v : ndarray R)
  (w : world) :
  getitem voice_data "voices" = Ok (JList [voice]) ->
  describes voice r ->
  length (rows_named (name r) (pending wb)) = 1 ->
  insert_request c sq tq n factor ->
  group_of (disk w) sq src ->
  group_of (disk w) tq tgt ->
  Kokoro "kokoro-v1.0.onnx" "voices-v1.0.bin" = Ok tt ->
  interpolate_styles src tgt factor = Ok v ->
  has_key (SText n) (disk w) = true ->
  (exists wb',
      populate_database voice_data wb = (Ok tt, wb')
      /\ disk wb' = pending wb'
      /\ In r (disk wb')
      /\ (forall r', In r' (disk wb') ->
            key_eqb (name r) (name r') = true -> r' = r)
      /\ (forall r', In r' (pending wb) ->
            key_eqb (name r) (name r') = false -> In r' (disk wb'))
      /\ count (disk wb') = count (pending wb))
  /\ (exists w',
        main c w =
          (Raise (IntegrityError "UNIQUE constraint failed: voices.name"), w')
        /\ disk w' = disk w
        /\ count (disk w') = count (disk w)
        /\ files w' = files w).
Proof.
  intros Hv Hd Hone Hreq Hsrc Htgt Hk Hi Hdup. split.
  - destruct (populate_database_one voice_data voice r wb Hv Hd) as [ev ->].
    eexists. split; [reflexivity|]. simpl.
    split; [done|]. split; [apply in_or_app; right; by left|].
    split; [|split].
    + intros r' Hin Hkey. apply in_app_or in Hin as [Hin|[<-|[]]]; [|done].
      apply filter_In in Hin as [_ Hneg]. by rewrite Hkey in Hneg.
    + intros r' Hin Hkey. apply in_or_app; left.
      apply filter_In. by rewrite Hkey.
    + unfold count. rewrite length_app; simpl.
      pose proof (filter_split_length
                    (fun r' => key_eqb (name r) (name r')) (pending wb)) as Hl.
      unfold rows_named in Hone. lia.
  - destruct (duplicate_insert_run c sq tq n factor src tgt v w
                Hreq Hsrc Htgt Hk Hi Hdup) as [ev ->].
    by eexists.
Qed.

Lemma duplicate_name_paths_witness :
  (exists wb',
      @populate_database Demo.externals Demo.manifest_a Demo.world0 = (Ok tt, wb')
      /\ disk wb' = pending wb'
      /\ In Demo.row_a (disk wb')
      /\ (forall r', In r' (disk wb') ->
            key_eqb (name Demo.row_a) (name r') = true -> r' = Demo.row_a)
      /\ (forall r', In r' (pending Demo.world0) ->
            key_eqb (name Demo.row_a) (name r') = false -> In r' (disk wb'))
      /\ count (disk wb') = count (pending Demo.world0))
  /\ (exists w',
        @main Demo.externals (Demo.request (Some "A") (Some 75%Z)) Demo.world0 =
          (Raise (IntegrityError "UNIQUE constraint failed: voices.name"), w')
        /\ disk w' = disk Demo.world0
        /\ count (disk w') = count (disk Demo.world0)
        /\ files w' = files Demo.world0).
Proof.
  apply (@duplicate_name_paths Demo.externals
           Demo.manifest_a Demo.entry_a Demo.row_a Demo.world0
           (Demo.request (Some "A") (Some 75%Z))
           "SELECT * FROM voices WHERE name = 'A'"
           "SELECT * FROM voices WHERE name = 'B'"
           "A" 0%R Demo.mean_a Demo.mean_b Demo.between_a_b Demo.world0).
  - reflexivity.
  - eexists _, _, _. repeat split; reflexivity.
  - reflexivity.
  - repeat split; try reflexivity.
    + discriminate.
    + exists "M". split; [reflexivity|by left].
    + exists 75%Z. split; [reflexivity|lia].
  - exists Demo.voice_a, []. split; reflexivity.
  - exists Demo.voice_b, []. split; reflexivity.
  - reflexivity.
  - apply interpolate_styles_same_shape; reflexivity.
  - reflexivity.
Defined.

(** ** Bulk load: entries that fail *)

Lemma catchable_lift {A} (r : result A) :
  catchable_result r -> catchable (lift r).
Proof. intros Hr w e. simpl. apply Hr. Qed.

Lemma catchable_emit ev : catchable (emit ev).
Proof. by intros w e. Qed.

Lemma catchable_bind {A B} (m : M A) (k : A -> M B) :
  catchable m -> (forall a, catchable (k a)) -> catchable (bind m k).
Proof.
  intros Hm Hk w e.
  destruct (bind_cases m k w) as [(e' & w1 & E & ->)|(a & w1 & E & ->)].
  - simpl. intros [= <-]. apply (Hm w). by rewrite E.
  - apply Hk.
Qed.

Lemma catchable_update_table statement f :
  (forall t, catchable_result (f t)) -> catchable (update_table statement f).
Proof.
  intros Hf w e. unfold update_table.
  destruct (f (pending w)) as [t|e'] eqn:E; simpl; [done|].
  intros [= <-]. by apply (Hf (pending w)).
Qed.

Lemma catchable_rbind {A B} (r : result A) (k : A -> result B) :
  catchable_result r -> (forall a, catchable_result (k a)) ->
  catchable_result (rbind r k).
Proof.
  intros Hr Hk e. destruct r as [a|e']; simpl; [apply Hk|].
  intros [= <-]. by apply Hr.
Qed.

Lemma catchable_ok {A} (a : A) : catchable_result (Ok a).
Proof. by intros e. Qed.

Lemma getitem_catchable obj key : catchable_result (getitem obj key).
Proof.
  intros e. unfold getitem.
  destruct obj as [| | | | | |d]; try (by intros [= <-]).
  destruct (assoc key d); [done|by intros [= <-]].
Qed.

Lemma get_catchable obj key dflt : catchable_result (get obj key dflt).
Proof. intros e. by destruct obj; simpl; intros [= <-]. Qed.

Lemma bind_param_catchable v : catchable_result (bind_param v).
Proof.
  intros e. destruct v as [|b|z|r|s|l|d]; simpl; try (by intros [= <-]).
  destruct ((- 2 ^ 63 <=? z) && (z <? 2 ^ 63))%Z; [done|by intros [= <-]].
Qed.

Lemma not_null_catchable column v : catchable_result (not_null column v).
Proof. intros e. by destruct v; simpl; intros [= <-]. Qed.

Lemma voice_params_catchable voice : catchable_result (voice_params voice).
Proof.
  unfold voice_params.
  repeat (apply catchable_rbind;
          [first [apply getitem_catchable|apply get_catchable]|intros ?]).
  apply catchable_ok.
Qed.

Lemma bind_params_catchable `{Externals} p style :
  catchable_result (bind_params p style).
Proof.
  unfold bind_params.
  repeat (apply catchable_rbind; [apply bind_param_catchable|intros ?]).
  apply catchable_ok.
Qed.

Lemma sql_insert_or_replace_catchable r t :
  catchable_result (sql_insert_or_replace r t).
Proof.
  unfold sql_insert_or_replace, check_not_null.
  apply catchable_rbind; [|intros ?; apply catchable_ok].
  repeat (apply catchable_rbind; [apply not_null_catchable|intros ?]).
  apply not_null_catchable.
Qed.

Lemma add_voice_catchable `{Externals} voice :
  (forall j, catchable_result (kokoro_get_voice_style j)) ->
  catchable (add_voice voice).
Proof.
  intros Hk. unfold add_voice.
  apply catchable_bind; [apply catchable_lift, getitem_catchable|intros jn].
  apply catchable_bind; [apply catchable_emit|intros _].
  apply catchable_bind; [apply catchable_lift, Hk|intros sv].
  apply catchable_bind; [apply catchable_lift, voice_params_catchable|intros p].
  apply catchable_bind.
  { apply catchable_update_table. intros t.
    apply catchable_rbind; [apply bind_params_catchable|intros r].
    apply sql_insert_or_replace_catchable. }
  intros _.
  apply catchable_bind; [apply catchable_lift, getitem_catchable|intros shown].
  apply catchable_emit.
Qed.

(** An entry that has a name never stops the loop, when the engine raises
    ordinary exceptions only: its failure is reported and the loop goes on. *)
Lemma named_entry_never_stops `{Externals} voice voice_name w :
  (forall j, catchable_result (kokoro_get_voice_style j)) ->
  getitem voice "name" = Ok voice_name ->
  fst (try_except (add_voice voice) (report_failure voice) w) = Ok tt.
Proof.
  intros Hk Hn. unfold try_except.
  pose proof (add_voice_catchable voice Hk w) as Hc.
  destruct (add_voice voice w) as [[[]|e] w1]; simpl in *; [done|].
  rewrite (Hc e eq_refl). unfold report_failure.
  erewrite bind_ok; [|by rewrite lift_run, Hn]. done.
Qed.

Lemma named_entries_loop `{Externals} (entries : list json) :
  (forall j, catchable_result (kokoro_get_voice_style j)) ->
  Forall (fun voice => exists n, getitem voice "name" = Ok n) entries ->
  forall w, exists w',
    for_each entries (fun voice =>
      try_except (add_voice voice) (report_failure voice)) w
    = (Ok tt, w').
Proof.
  intros Hk Hall.
  induction Hall as [|voice l [n Hn] _ IH]; intros w; simpl.
  - by eexists.
  - pose proof (named_entry_never_stops voice n w Hk Hn) as Hb.
    destruct (try_except (add_voice voice) (report_failure voice) w)
      as [r w1] eqn:E.
    simpl in Hb. subst r.
    rewrite (bind_ok _ _ _ _ _ E). apply IH.
Qed.

(** With a name in every entry the bulk load runs to its commit. *)
Lemma populate_database_named `{Externals} voice_data (entries : list json) w :
  (forall j, catchable_result (kokoro_get_voice_style j)) ->
  getitem voice_data "voices" = Ok (JList entries) ->
  Forall (fun voice => exists n, getitem voice "name" = Ok n) entries ->
  exists w',
    populate_database voice_data w = (Ok tt, w')
    /\ disk w' = pending w'
    /\ last (trace w') = Some ECommit.
Proof.
  intros Hk Hv Hall. unfold populate_database.
  erewrite bind_ok; [|by rewrite lift_run, Hv].
  erewrite bind_ok; [|by rewrite lift_run].
  destruct (named_entries_loop entries Hk Hall w) as [w1 E1].
  rewrite (bind_ok _ _ _ _ _ E1), commit_run.
  eexists. split; [reflexivity|]. simpl. split; [done|].
  by rewrite last_snoc.
Qed.

(** C9 (the code at the failing input).  On a manifest whose first entry
    has no ["name"], the handler of [populate_database] itself raises
    [KeyError]: the load stops there, the second entry, which is valid, is
    never read, nothing is stored and no commit is made. *)
Theorem populate_database_nameless_entry :
  @populate_database Demo.externals Demo.manifest_nameless Demo.empty_world
  = (Raise (KeyError "name"), Demo.empty_world)
  /\ ~ In ECommit
         (trace (snd (@populate_database Demo.externals Demo.manifest_nameless
                        Demo.empty_world)))
  /\ pending (snd (@populate_database Demo.externals Demo.manifest_nameless
                     Demo.empty_world)) = [].
Proof.
  assert (E : @populate_database Demo.externals Demo.manifest_nameless
                Demo.empty_world
              = (Raise (KeyError "name"), Demo.empty_world))
    by (vm_compute; reflexivity).
  rewrite E. split; [done|]. split; [|done]. simpl. tauto.
Qed.

(** A failure of the engine, by contrast, is skipped: the second entry is
    stored and committed. *)
Example populate_database_unknown_voice :
  disk (snd (@populate_database Demo.externals Demo.manifest_unknown
               Demo.empty_world))
  = [mk_row (SText "A") (SText "M") (SText "en-us") (SInt 90) SNull
       (SArr (Demo.vec [1; 0]%R)) (SInt 0) SNull (SText "2025-06-01 12:00:00")]
  /\ fst (@populate_database Demo.externals Demo.manifest_unknown
            Demo.empty_world) = Ok tt.
Proof. split; vm_compute; reflexivity. Qed.

(** ** The blob codec *)

Lemma byte_eqb_refl b : byte_eqb b b = true.
Proof. unfold byte_eqb. by apply Byte.byte_dec_lb. Qed.

Lemma strip_prefix_app p s : strip_prefix p (p ++ s) = Some s.
Proof.
  induction p as [|a p IH]; simpl; [by destruct s|].
  by rewrite byte_eqb_refl.
Qed.

Lemma break_at_app c s1 s2 :
  Forall (fun b => byte_eqb b c = false) s1 ->
  break_at c (s1 ++ c :: s2) = Some (s1, s2).
Proof.
  induction 1 as [|b s1 Hb _ IH]; simpl.
  - by rewrite byte_eqb_refl.
  - by rewrite Hb, IH.
Qed.


Lemma split_bytes_app sep s1 s2 :
  Forall (fun b => byte_eqb b sep = false) s1 ->
  split_bytes sep (s1 ++ sep :: s2) = s1 :: split_bytes sep s2.
Proof.
  induction 1 as [|b s1 Hb _ IH]; simpl.
  - by rewrite byte_eqb_refl.
  - by rewrite Hb, IH.
Qed.

Lemma split_bytes_one sep s :
  Forall (fun b => byte_eqb b sep = false) s -> split_bytes sep s = [s].
Proof.
  induction 1 as [|b s Hb _ IH]; simpl; [done|]. by rewrite Hb, IH.
Qed.

(** *** Decimal literals *)

Lemma dec_digits n : Forall (fun b => is_digit b = true) (dec n).
Proof.
  unfold dec. generalize (Nat.to_uint n) as d.
  induction d; simpl; constructor; done.
Qed.

Lemma digit_not c :
  is_digit c = false ->
  forall n, Forall (fun b => byte_eqb b c = false) (dec n).
Proof.
  intros Hc n. eapply Forall_impl; [apply dec_digits|].
  intros b Hb; simpl in *. unfold byte_eqb.
  destruct (Byte.eqb b c) eqn:E; [|done].
  apply Byte.byte_dec_bl in E. congruence.
Qed.

Lemma to_uint_normal n : Decimal.unorm (Nat.to_uint n) = Nat.to_uint n.
Proof.
  rewrite <- (Unsigned.to_of (Nat.to_uint n)). by rewrite Unsigned.of_to.
Qed.

Lemma parse_dec_dec n : parse_dec (dec n) = Some n.
Proof.
  unfold parse_dec, dec, ascii_bytes.
  rewrite string_of_list_byte_of_string, NilEmpty.usu, to_uint_normal.
  rewrite (Decimal.internal_uint_dec_lb _ _ eq_refl).
  by rewrite Unsigned.of_to.
Qed.


(** *** The shape tuple *)

Lemma shape_repr_inner s : shape_repr s = x28 :: shape_inner s ++ [rparen].
Proof.
  destruct s as [|n [|m s]]; simpl; [done| |].
  - by rewrite <- app_assoc.
  - rewrite <- !app_assoc. simpl. by rewrite <- !app_assoc.
Qed.

Lemma items_no_rparen (l : list nat) :
  Forall (fun b => byte_eqb b rparen = false)
    (flat_map (fun m => comma :: space :: dec m) l).
Proof.
  induction l as [|m l IH]; simpl; [done|].
  do 2 (constructor; [done|]). apply Forall_app. split; [|done].
  by apply digit_not.
Qed.

Lemma shape_inner_no_rparen s :
  Forall (fun b => byte_eqb b rparen = false) (shape_inner s).
Proof.
  destruct s as [|n [|m s]]; simpl; [done| |].
  - apply Forall_app. split; [by apply digit_not|by constructor].
  - apply Forall_app. split; [by apply digit_not|].
    apply (items_no_rparen (m :: s)).
Qed.

Lemma split_items (l : list nat) m :
  split_bytes comma
    (space :: dec m ++ flat_map (fun m' => comma :: space :: dec m') l)
  = map (fun m' => space :: dec m') (m :: l).
Proof.
  revert m. induction l as [|m' l IH]; intros m; simpl flat_map.
  - rewrite app_nil_r. apply (split_bytes_one comma (space :: dec m)).
    constructor; [done|]. by apply digit_not.
  - change (split_bytes comma
              ((space :: dec m) ++ comma ::
                 (space :: dec m' ++ flat_map (fun x => comma :: space :: dec x) l))
            = map (fun x => space :: dec x) (m :: m' :: l)).
    rewrite (split_bytes_app comma (space :: dec m)).
    + by rewrite IH.
    + constructor; [done|]. by apply digit_not.
Qed.

Lemma omap_parse_item (l : list nat) :
  omap parse_item (map (fun m => space :: dec m) l) = Some l.
Proof.
  induction l as [|m l IH]; simpl; [done|].
  by rewrite parse_dec_dec, IH.
Qed.

Lemma parse_shape_inner s : parse_shape (shape_inner s) = Some s.
Proof.
  destruct s as [|n [|m s]]; [done| |].
  - unfold parse_shape, shape_inner.
    destruct (dec n ++ [comma]) as [|b bs] eqn:E.
    { by destruct (dec n). }
    rewrite <- E. rewrite split_bytes_app by (by apply digit_not).
    simpl. by rewrite parse_dec_dec.
  - unfold parse_shape, shape_inner. simpl flat_map.
    destruct (dec n ++ comma :: space :: dec m ++ _) as [|b bs] eqn:E.
    { by destruct (dec n). }
    rewrite <- E. rewrite split_bytes_app by (by apply digit_not).
    rewrite split_items. simpl map.
    rewrite parse_dec_dec. 
    change (omap parse_item ((space :: dec m) :: map (fun m' => space :: dec m') s))
      with (omap parse_item (map (fun m' => space :: dec m') (m :: s))).
    by rewrite omap_parse_item.
Qed.

(** *** The header *)

Lemma is_trailer_spaces k : is_trailer (repeat space k ++ [newline]) = true.
Proof.
  induction k as [|k IH]; [done|].
  simpl repeat. simpl app.
  destruct (repeat space k ++ [newline]) as [|b bs] eqn:E.
  { by destruct (repeat space k). }
  change (is_trailer (space :: b :: bs))
    with (byte_eqb space space && is_trailer (b :: bs)).
  by rewrite IH.
Qed.

Lemma dtype_of_descr_descr d : dtype_of_descr (ascii_bytes (descr d)) = Some d.
Proof. by destruct d. Qed.

Lemma descr_no_quote d :
  Forall (fun b => byte_eqb b quote = false) (ascii_bytes (descr d)).
Proof. destruct d; repeat constructor. Qed.

Ltac flatten_app :=
  repeat first [rewrite <- app_assoc | rewrite <- app_comm_cons].

Lemma header_text_split d s :
  header_text d s =
    ascii_bytes "{'descr': '" ++ ascii_bytes (descr d)
      ++ quote :: ascii_bytes ", 'fortran_order': False, 'shape': ("
      ++ shape_inner s
      ++ rparen :: ascii_bytes ", }" ++ repeat space (growth_padding s).
Proof.
  unfold header_text, header_dict. rewrite shape_repr_inner.
  change (ascii_bytes "', 'fortran_order': False, 'shape': ")
    with (quote :: removelast
                     (ascii_bytes ", 'fortran_order': False, 'shape': (")).
  change (ascii_bytes ", 'fortran_order': False, 'shape': (")
    with (removelast (ascii_bytes ", 'fortran_order': False, 'shape': (")
            ++ [x28]) at 2.
  generalize (removelast (ascii_bytes ", 'fortran_order': False, 'shape': ("))
    as middle.
  intros middle. flatten_app. reflexivity.
Qed.

Lemma parse_header_text d s k :
  parse_header (header_text d s ++ repeat space k ++ [newline]) = Some (d, s).
Proof.
  unfold parse_header. rewrite header_text_split. flatten_app.
  rewrite strip_prefix_app.
  rewrite break_at_app by apply descr_no_quote.
  rewrite dtype_of_descr_descr, strip_prefix_app.
  rewrite break_at_app by apply shape_inner_no_rparen.
  rewrite parse_shape_inner, strip_prefix_app.
  rewrite app_assoc, <- repeat_app. by rewrite is_trailer_spaces.
Qed.

(** *** Elements *)

Lemma to_N_byte_of_N x : Byte.to_N (byte_of_N x) = (x mod 256)%N.
Proof.
  unfold byte_of_N. destruct (Byte.of_N (x mod 256)) as [b|] eqn:E.
  - by apply Byte.to_of_N.
  - apply Byte.of_N_None_iff in E.
    pose proof (N.mod_upper_bound x 256). lia.
Qed.

Lemma le_bytes_length k x : length (le_bytes k x) = k.
Proof. revert x. induction k as [|k IH]; intros x; simpl; [done|]. by rewrite IH. Qed.

Lemma le_word_le_bytes k x :
  (x < 2 ^ N.of_nat (8 * k))%N -> le_word (le_bytes k x) = x.
Proof.
  revert x. induction k as [|k IH]; intros x Hx; simpl le_bytes; simpl le_word.
  - simpl in Hx. lia.
  - replace (8 * S k) with (8 + 8 * k) in Hx by lia.
    rewrite Nat2N.inj_add, N.pow_add_r in Hx.
    change (2 ^ N.of_nat 8)%N with 256%N in Hx.
    rewrite to_N_byte_of_N, IH.
    + pose proof (N.div_mod x 256). lia.
    + apply N.Div0.div_lt_upper_bound. lia.
Qed.

Lemma read_words_flat_map k (ws : list N) rest :
  Forall (fun x => (x < 2 ^ N.of_nat (8 * k))%N) ws ->
  read_words k (length ws) (flat_map (le_bytes k) ws ++ rest) = Some ws.
Proof.
  induction 1 as [|x ws Hx _ IH]; simpl; [done|].
  rewrite <- app_assoc.
  assert (Hlen : (length (le_bytes k x ++ flat_map (le_bytes k) ws ++ rest) <? k)
                 = false).
  { apply Nat.ltb_ge. rewrite length_app, le_bytes_length. lia. }
  rewrite Hlen.
  rewrite (drop_app_length' (le_bytes k x)) by (by rewrite le_bytes_length).
  rewrite (take_app_length' (le_bytes k x)) by (by rewrite le_bytes_length).
  by rewrite IH, le_word_le_bytes.
Qed.

(** *** The size of the header *)

Lemma dec_usize n : length (dec n) = Unsigned.usize (Nat.to_uint n).
Proof.
  unfold dec, ascii_bytes, list_byte_of_string. rewrite length_map.
  generalize (Nat.to_uint n) as d.
  induction d; simpl; congruence.
Qed.

(** A numeral without leading zero that denotes a number below [10 ^ k]
    has at most [k] digits. *)
Lemma usize_bound (d : Decimal.uint) k :
  Decimal.unorm d = d -> 0 < k -> Nat.of_uint d < 10 ^ k ->
  Unsigned.usize d <= k.
Proof.
  intros Hn Hk Hlt.
  assert (Hhead : forall d' j, 0 < j -> Nat.of_uint_acc d' j < 10 ^ k ->
                               S (Unsigned.usize d') <= k).
  { intros d' j Hj Hacc. rewrite Unsigned.of_uint_acc_spec in Hacc.
    assert (H10 : 10 ^ Unsigned.usize d' < 10 ^ k) by nia.
    apply Nat.pow_lt_mono_r_iff in H10; lia. }
  destruct d as [|d'|d'|d'|d'|d'|d'|d'|d'|d'|d'];
    try (simpl; eapply Hhead; [|exact Hlt]; apply Nat.lt_0_succ).
  - simpl; lia.
  - unfold Decimal.unorm in Hn. rewrite nzhead_D0 in Hn.
    destruct (Decimal.nzhead d') eqn:E; try discriminate Hn.
    + injection Hn as <-. simpl. lia.
    + exfalso. exact (nzhead_nonzero _ _ E).
Qed.

Lemma dec_length_bound n :
  (N.of_nat n < 2 ^ 63)%N -> length (dec n) <= 19.
Proof.
  intros Hn. rewrite dec_usize. apply usize_bound.
  - apply to_uint_normal.
  - lia.
  - rewrite Unsigned.of_to.
    assert (H : (N.of_nat n < N.of_nat (10 ^ 19))%N).
    { rewrite Nat2N.inj_pow.
      change (N.of_nat 10 ^ N.of_nat 19)%N with (10 ^ 19)%N.
      eapply N.lt_trans; [exact Hn|]. reflexivity. }
    lia.
Qed.

Lemma items_length (l : list nat) :
  Forall (fun n => (N.of_nat n < 2 ^ 63)%N) l ->
  length (flat_map (fun m => comma :: space :: dec m) l) <= 21 * length l.
Proof.
  induction 1 as [|m l Hm _ IH]; simpl; [lia|].
  rewrite length_app. pose proof (dec_length_bound m Hm). lia.
Qed.

Lemma shape_inner_length s :
  Forall (fun n => (N.of_nat n < 2 ^ 63)%N) s ->
  length (shape_inner s) <= 21 * length s.
Proof.
  intros Hs. destruct s as [|n [|m s]]; simpl; [lia| |].
  - inversion Hs as [|? ? Hn _]; subst.
    rewrite length_app. pose proof (dec_length_bound n Hn). simpl. lia.
  - inversion Hs as [|? ? Hn Hrest]; subst.
    rewrite length_app. pose proof (dec_length_bound n Hn).
    pose proof (items_length (m :: s) Hrest) as Hi. simpl in Hi. simpl. lia.
Qed.

(** Within NumPy's limits the header stays far below the size that
    [np.load] accepts, and the writer uses format version 1.0. *)
Lemma header_text_length d s :
  within_numpy_limits s ->
  length (header_text d s) + 65 <= max_header_size.
Proof.
  intros [Hn Hs]. rewrite header_text_split.
  repeat first [rewrite length_app | rewrite length_cons].
  rewrite repeat_length.
  pose proof (shape_inner_length s Hs).
  assert (Hg : growth_padding s <= 21).
  { unfold growth_padding. destruct s; lia. }
  assert (Hd : length (ascii_bytes (descr d)) = 3) by (by destruct d).
  change (length (ascii_bytes "{'descr': '")) with 11.
  change (length (ascii_bytes ", 'fortran_order': False, 'shape': (")) with 36.
  change (length (ascii_bytes ", }")) with 3.
  assert (Hm : max_header_size = 100 * 100) by reflexivity.
  lia.
Qed.

(** *** The round trip *)

Lemma wrap_header_v1 (header : list byte) :
  length header + 65 <= max_header_size ->
  exists padlen,
    length header + 1 + padlen <= max_header_size
    /\ wrap_header_guess_version header =
         Ok (magic ++ [x01; x00]
               ++ le_bytes 2 (N.of_nat (length header + 1 + padlen))
               ++ header ++ repeat space padlen ++ [newline]).
Proof.
  intros Hh. unfold wrap_header_guess_version, wrap_header.
  set (padlen := ARRAY_ALIGN - ((MAGIC_LEN + 2 + (length header + 1)) mod ARRAY_ALIGN)).
  assert (Hp : padlen <= 64) by (unfold padlen, ARRAY_ALIGN; lia).
  assert (Hm : max_header_size = 100 * 100) by reflexivity.
  exists padlen. split; [lia|].
  assert (Hfit : (N.of_nat (length header + 1 + padlen) <? 2 ^ N.of_nat (8 * 2))%N
                 = true).
  { apply N.ltb_lt. change (2 ^ N.of_nat (8 * 2))%N with 65536%N. lia. }
  by rewrite Hfit.
Qed.

Lemma np_load_np_save (arr : float_array) :
  storable arr ->
  exists blob, np_save arr = Ok blob /\ np_load blob = Ok arr.
Proof.
  intros (Hlim & Hwf & Hbits).
  destruct arr as [d [s ws]]. unfold wf_array in Hwf.
  cbn [float_dtype bits shape data] in *.
  pose proof (header_text_length d s Hlim) as Hh.
  unfold np_save. cbn [float_dtype bits shape data].
  destruct (wrap_header_v1 (header_text d s) Hh) as (padlen & Hp & ->).
  cbn [rbind]. eexists. split; [reflexivity|].
  assert (Hm : max_header_size = 100 * 100) by reflexivity.
  set (L := length (header_text d s) + 1 + padlen) in *.
  set (body := flat_map (le_bytes (itemsize d)) ws).
  set (header := header_text d s ++ repeat space padlen ++ [newline]).
  assert (Hblob :
            (magic ++ [x01; x00] ++ le_bytes 2 (N.of_nat L) ++ header) ++ body
            = magic ++ x01 :: x00 :: le_bytes 2 (N.of_nat L) ++ header ++ body).
  { flatten_app. reflexivity. }
  rewrite Hblob. clear Hblob.
  assert (Hlen : length header = L).
  { unfold header, L. rewrite !length_app, repeat_length. simpl. lia. }
  unfold np_load. rewrite strip_prefix_app.
  change (length_field_size x01 x00) with (Some 2). cbv iota beta.
  assert (Hrest : (length (le_bytes 2 (N.of_nat L) ++ header ++ body) <? 2)
                  = false).
  { apply Nat.ltb_ge. rewrite length_app, le_bytes_length. lia. }
  rewrite Hrest.
  rewrite (take_app_length' (le_bytes 2 (N.of_nat L)))
    by (by rewrite le_bytes_length).
  rewrite (drop_app_length' (le_bytes 2 (N.of_nat L)))
    by (by rewrite le_bytes_length).
  rewrite le_word_le_bytes, Nat2N.id
    by (change (2 ^ N.of_nat (8 * 2))%N with 65536%N; lia).
  assert (Hshort : (length (header ++ body) <? L) = false).
  { apply Nat.ltb_ge. rewrite length_app. lia. }
  assert (Hbig : (max_header_size <? L) = false) by (apply Nat.ltb_ge; lia).
  rewrite Hshort, Hbig.
  rewrite (take_app_length' header) by done.
  rewrite (drop_app_length' header) by done.
  unfold header. rewrite parse_header_text.
  rewrite <- Hwf. unfold body.
  rewrite <- (app_nil_r (flat_map _ ws)).
  by rewrite read_words_flat_map.
Qed.

(** C2.  For an array of 16-, 32- or 64-bit floats given by its shape and
    the bit patterns of its elements, [adapt_array] returns a blob and
    [convert_array] of that blob returns the array: same element type, same
    shape, same bit patterns.  [convert_array] takes the blob alone; the
    blob determines the array. *)
Theorem codec_round_trip (arr : float_array) :
  storable arr ->
  exists blob,
    adapt_array arr = Ok blob
    /\ convert_array blob = Ok arr
    /\ (forall arr', storable arr' -> adapt_array arr' = Ok blob -> arr' = arr).
Proof.
  intros Hs. unfold adapt_array, convert_array.
  destruct (np_load_np_save arr Hs) as (blob & Hsave & Hload).
  exists blob. split; [done|]. split; [done|].
  intros arr' Hs' Hsave'.
  destruct (np_load_np_save arr' Hs') as (blob' & Hsave'' & Hload').
  congruence.
Qed.

Lemma codec_round_trip_witness :
  exists blob,
    adapt_array Demo.style = Ok blob
    /\ convert_array blob = Ok Demo.style
    /\ (forall arr', storable arr' -> adapt_array arr' = Ok blob ->
          arr' = Demo.style).
Proof.
  apply (codec_round_trip Demo.style).
  split; [|split].
  - split; [simpl; lia|repeat constructor].
  - reflexivity.
  - repeat constructor.
Defined.

(** The blob of the example: 128 bytes of header, 8 bytes of elements. *)
Example adapt_array_demo :
  option_map (fun blob => (length blob, skipn 128 blob))
    (match adapt_array Demo.style with Ok blob => Some blob | Raise _ => None end)
  = Some (136, [x00; x00; x80; x3f; x00; x00; x80; xbf]).
Proof. vm_compute. reflexivity. Qed.

(** ** The scenarios of the catalog with voices A = [1, 0] and B = [0, 1] *)

(** The centroid of the group {A, B}. *)
Example centroid_demo :
  fst (@get_voice_group_vector Demo.externals
         "SELECT * FROM voices WHERE gender = 'M'" Demo.world0)
  = Ok (Demo.vec [1 / 2; 1 / 2]%R).
Proof.
  rewrite (@get_voice_group_vector_run Demo.externals _ _ Demo.voice_a
             [Demo.voice_b]) by reflexivity.
  unfold np_mean_axis0, Demo.vec, vsum. simpl.
  repeat f_equal; lra.
Qed.

(** Interpolation at 0 and extrapolation at 2. *)
Example interpolation_demo :
  interpolate_styles (Demo.vec [0; 0]%R) (Demo.vec [1 / 2; 1 / 2]%R) 0
  = Ok (Demo.vec [1 / 4; 1 / 4]%R)
  /\ interpolate_styles (Demo.vec [0; 0]%R) (Demo.vec [1; 0]%R) 2
     = Ok (Demo.vec [3 / 2; 0]%R).
Proof.
  split; rewrite interpolate_styles_same_shape by reflexivity;
    unfold Demo.vec; simpl; repeat f_equal; lra.
Qed.

(* ===================================================================== *)
(** * Part III.  Further properties of the code                           *)
(* ===================================================================== *)

(** ** Interpolation *)




(** ** Rows that lack a column *)

Lemma map_m_lift {A B} (f : A -> result B) (l : list A) w :
  map_m (fun x => lift (f x)) l w = (rmap f l, w).
Proof.
  revert w. induction l as [|x l IH]; intros w; simpl; [done|].
  unfold bind at 1. rewrite lift_run.
  destruct (f x) as [y|e]; simpl; [|done].
  unfold bind at 1. rewrite IH. by destruct (rmap f l).
Qed.

Lemma index_short (t : list sqlval) i :
  length t <= i -> index t i = Raise (IndexError "tuple index out of range").
Proof.
  intros Hl. unfold index. by rewrite (lookup_ge_None_2 t i Hl).
Qed.

Lemma index_cases (t : list sqlval) i :
  (exists v, index t i = Ok v)
  \/ index t i = Raise (IndexError "tuple index out of range").
Proof. unfold index. destruct (t !! i); [left; by eexists|by right]. Qed.

Lemma rmap_index_short (rows : list (list sqlval)) i :
  Exists (fun voice => length voice <= i) rows ->
  rmap (fun voice => index voice i) rows
  = Raise (IndexError "tuple index out of range").
Proof.
  induction 1 as [voice rows Hs|voice rows _ IH]; simpl.
  - by rewrite index_short.
  - destruct (index_cases voice i) as [[v ->]| ->]; simpl; [|done].
    by rewrite IH.
Qed.

(** Printing one matched voice ends normally or raises [IndexError]; it
    only prints. *)
Lemma voice_line_cases (voice : list sqlval) w :
  exists events r,
    (v0 <- lift (index voice 0) ;;
     v1 <- lift (index voice 1) ;;
     v2 <- lift (index voice 2) ;;
     v3 <- lift (index voice 3) ;;
     print [FText "Name: "; FSql v0; FText ", Gender: "; FSql v1;
            FText ", Language: "; FSql v2; FText ", Quality: "; FSql v3]) w
    = (r, after w events)
    /\ (r = Ok tt \/ r = Raise (IndexError "tuple index out of range")).
Proof.
  unfold bind, lift, index, print, emit.
  destruct (voice !! 0); [|exists [], (Raise (IndexError "tuple index out of range"));
                            rewrite after_nil; by split; [|right]].
  destruct (voice !! 1); [|exists [], (Raise (IndexError "tuple index out of range"));
                            rewrite after_nil; by split; [|right]].
  destruct (voice !! 2); [|exists [], (Raise (IndexError "tuple index out of range"));
                            rewrite after_nil; by split; [|right]].
  destruct (voice !! 3); [|exists [], (Raise (IndexError "tuple index out of range"));
                            rewrite after_nil; by split; [|right]].
  eexists _, _. split; [reflexivity|by left].
Qed.

(** So does the loop over all matched voices. *)
Lemma voice_lines_cases (rows : list (list sqlval)) w :
  exists events r,
    for_each rows (fun voice =>
       v0 <- lift (index voice 0) ;;
       v1 <- lift (index voice 1) ;;
       v2 <- lift (index voice 2) ;;
       v3 <- lift (index voice 3) ;;
       print [FText "Name: "; FSql v0; FText ", Gender: "; FSql v1;
              FText ", Language: "; FSql v2; FText ", Quality: "; FSql v3]) w
    = (r, after w events)
    /\ (r = Ok tt \/ r = Raise (IndexError "tuple index out of range")).
Proof.
  revert w. induction rows as [|voice rows IH]; intros w.
  - exists [], (Ok tt). rewrite after_nil. by split; [|left].
  - cbn [for_each].
    destruct (voice_line_cases voice w) as (ev & r & E & [-> | ->]).
    + rewrite (bind_ok _ _ _ _ _ E).
      destruct (IH (after w ev)) as (ev' & r' & -> & Hr).
      rewrite after_after. by eexists _, _.
    + rewrite (bind_raise _ _ _ _ _ E). eexists _, _. by split; [|right].
Qed.

(** X6.  When the query yields rows and one of them has fewer than six
    columns, group resolution fails with [IndexError]: no centroid is
    computed from the rows that do have a vector. *)
Theorem short_row_raises `{Externals} (query : string) (w : world)
  (rows : list (list sqlval)) :
  sql_select query (pending w) = Ok rows ->
  Exists (fun voice => length voice <= 5) rows ->
  exists events,
    get_voice_group_vector query w
    = (Raise (IndexError "tuple index out of range"), after w events).
Proof.
  intros Hq Hshort. unfold get_voice_group_vector.
  rewrite (bind_ok _ _ w rows (after w [EExecute query]))
    by (by rewrite fetchall_run, Hq).
  destruct rows as [|voice rows]; [by inversion Hshort|].
  rewrite (bind_ok _ _ _ _ _ (print_after _ _)), after_after.
  match goal with |- context [bind (for_each ?l ?body) ?k ?w0] =>
    destruct (voice_lines_cases l w0) as (ev & r & E & [-> | ->]) end.
  - rewrite (bind_ok _ _ _ _ _ E), after_after.
    erewrite bind_raise; cycle 1.
    { rewrite map_m_lift, (rmap_index_short _ 5 Hshort). reflexivity. }
    by eexists.
  - rewrite (bind_raise _ _ _ _ _ E), after_after. by eexists.
Qed.

Lemma short_row_raises_witness :
  exists events,
    @get_voice_group_vector Demo2.externals "SELECT name FROM voices"
      Demo2.world0
    = (Raise (IndexError "tuple index out of range"),
       after Demo2.world0 events).
Proof.
  apply (@short_row_raises Demo2.externals "SELECT name FROM voices"
           Demo2.world0 [[SText "A"]; [SText "B"]]).
  - reflexivity.
  - left. simpl. lia.
Defined.

(** ** Runs of [main] *)

(** The body of the [try] block up to the choice between insertion and
    samples, when both groups resolve and the engine loads. *)
Lemma workflow_run `{Externals} (a : args) (src tgt : ndarray R) w :
  group_of (pending w) (args_source_query a) src ->
  group_of (pending w) (args_target_query a) tgt ->
  Kokoro "kokoro-v1.0.onnx" "voices-v1.0.bin" = Ok tt ->
  exists events,
    workflow a w =
      match args_insert a with
      | Some factor => insert_voice a src tgt factor (after w events)
      | None => generate_samples a src tgt (after w events)
      end.
Proof.
  intros Hsrc Htgt Hk. unfold workflow.
  rewrite (bind_ok _ _ _ _ _ (print_after _ w)).
  destruct (group_of_run (args_source_query a) src
              (after w [EPrint [FText (NL +:+ "Processing source group...")]])
              Hsrc) as [ev1 E1].
  rewrite (bind_ok _ _ _ _ _ E1).
  rewrite (bind_ok _ _ _ _ _ (print_after _ _)).
  match goal with |- context [bind (get_voice_group_vector _) _ ?w0] =>
    destruct (group_of_run (args_target_query a) tgt w0 Htgt) as [ev2 E2] end.
  rewrite (bind_ok _ _ _ _ _ E2).
  rewrite (bind_ok _ _ _ _ _ (emit_after _ _)).
  erewrite bind_ok; cycle 1.
  { rewrite lift_run, Hk. reflexivity. }
  rewrite !after_after. exists (([EPrint [FText (NL +:+ "Processing source group...")]] ++ ev1) ++ [EPrint [FText (NL +:+ "Processing target group...")]] ++ ev2 ++ [EKokoro "kokoro-v1.0.onnx" "voices-v1.0.bin"]).
  rewrite <- !app_assoc. by destruct (args_insert a).
Qed.

Lemma main_run `{Externals} (c : cli) (a : args) w :
  parse_args c w = (Ok a, w) ->
  validate_insert a w = (Ok tt, w) ->
  main c w =
    try_finally (workflow a) close
      (mk_world (disk w) (disk w) (files w)
         (trace w ++ [EMkdir (args_output_dir a)] ++ [EConnect (args_db_path a)])).
Proof.
  intros Ep Ev. unfold main.
  by rewrite (bind_ok _ _ _ _ _ Ep), (main_with_run _ _ Ev).
Qed.

Lemma create_and_write_raise `{Externals} a voice output_file e w :
  kokoro_create (args_text a) voice (args_speed a) (args_lang a) = Raise e ->
  create_and_write a voice output_file w =
    (Raise e,
     after w [ECreate (args_text a) voice (args_speed a) (args_lang a)]).
Proof.
  intros Hc. unfold create_and_write.
  rewrite (bind_ok _ _ _ _ _ (emit_after _ w)).
  erewrite bind_raise; cycle 1.
  { rewrite lift_run, Hc. reflexivity. }
  reflexivity.
Qed.

Lemma validated_row_not_null `{Externals} a v w factor :
  validate_insert a w = (Ok tt, w) ->
  args_insert a = Some factor ->
  check_not_null (synthetic_row a v) = Ok tt.
Proof.
  intros Ev Hi.
  destruct (validate_insert_cases a w) as [[msg E]|[_ Hv]]; [congruence|].
  destruct Hv as (_ & Hg & Hq); [congruence|].
  unfold check_not_null, synthetic_row; simpl.
  destruct (args_gender a); [|done].
  destruct (args_quality a); done.
Qed.

(** The insertion block up to the commit. *)
Lemma insert_voice_commit `{Externals} a src tgt factor v w :
  interpolate_styles src tgt factor = Ok v ->
  check_not_null (synthetic_row a v) = Ok tt ->
  has_key (name (synthetic_row a v)) (pending w) = false ->
  insert_voice a src tgt factor w =
    (_ <- print [FText "Inserted synthetic voice '";
                 FText (str_opt (args_name a)); FText "' into database"] ;;
     _ <- create_and_write a v
            (path_join (args_output_dir a) (str_opt (args_name a) +:+ ".wav")) ;;
     print [FText "Created sample file: ";
            FText (path_join (args_output_dir a)
                     (str_opt (args_name a) +:+ ".wav"))])
      (mk_world (pending w ++ [synthetic_row a v])
         (pending w ++ [synthetic_row a v]) (files w)
         (trace w ++ [EPrint [FText (NL +:+ "Generating voice for insertion at factor: ");
                              FReal factor];
                      EExecute "INSERT INTO voices"; ECommit])).
Proof.
  intros Hi Hn Hk. unfold insert_voice.
  rewrite (bind_ok _ _ _ _ _ (print_after _ w)).
  erewrite bind_ok; cycle 1.
  { rewrite lift_run, Hi. reflexivity. }
  erewrite bind_ok; cycle 1.
  { apply update_table_ok. unfold sql_insert. rewrite Hn.
    unfold after; simpl in Hk |- *. rewrite Hk. reflexivity. }
  erewrite bind_ok; cycle 1.
  { apply commit_run. }
  unfold after; simpl. by rewrite <- !app_assoc.
Qed.

(** X9.  The same request with an engine that fails to synthesize: the run
    fails with the engine's error, but the synthetic row was committed before
    the synthesis started and stays in the catalog on disk; no sample file
    is written. *)
Theorem synthesis_failure_keeps_row `{Externals} (c : cli) (a : args)
    (factor : R) (src tgt v : ndarray R) (e : exn) (w : world) :
  parse_args c w = (Ok a, w) ->
  validate_insert a w = (Ok tt, w) ->
  args_insert a = Some factor ->
  group_of (disk w) (args_source_query a) src ->
  group_of (disk w) (args_target_query a) tgt ->
  Kokoro "kokoro-v1.0.onnx" "voices-v1.0.bin" = Ok tt ->
  interpolate_styles src tgt factor = Ok v ->
  has_key (name (synthetic_row a v)) (disk w) = false ->
  kokoro_create (args_text a) v (args_speed a) (args_lang a) = Raise e ->
  exists events,
    main c w =
      (Raise e,
       mk_world (disk w ++ [synthetic_row a v]) (disk w ++ [synthetic_row a v])
         (files w) (trace w ++ events)).
Proof.
  intros Ep Ev Hins Hsrc Htgt Hk Hi Hfree Hc.
  rewrite (main_run _ _ _ Ep Ev), try_finally_close.
  set (w2 := mk_world (disk w) (disk w) (files w) _).
  destruct (workflow_run a src tgt w2 Hsrc Htgt Hk) as [ev ->].
  rewrite Hins.
  rewrite (insert_voice_commit a src tgt factor v (after w2 ev) Hi
             (validated_row_not_null a v w factor Ev Hins) Hfree).
  rewrite (bind_ok _ _ _ _ _ (print_after _ _)).
  erewrite bind_raise; cycle 1.
  { apply (create_and_write_raise _ _ _ e), Hc. }
  unfold after, w2; simpl.
  flatten_app. by eexists.
Qed.

Lemma synthesis_failure_keeps_row_witness :
  exists events,
    @main Demo3.mute (Demo.request (Some "AB") (Some 75%Z)) Demo.world0 =
      (Raise (RuntimeError "inference failed"),
       mk_world
         (disk Demo.world0 ++ [@synthetic_row Demo3.mute Demo3.args_ab Demo.between_a_b])
         (disk Demo.world0 ++ [@synthetic_row Demo3.mute Demo3.args_ab Demo.between_a_b])
         (files Demo.world0) (trace Demo.world0 ++ events)).
Proof.
  apply (@synthesis_failure_keeps_row Demo3.mute
           (Demo.request (Some "AB") (Some 75%Z)) Demo3.args_ab 0%R
           Demo.mean_a Demo.mean_b Demo.between_a_b
           (RuntimeError "inference failed") Demo.world0).
  - reflexivity.
  - reflexivity.
  - reflexivity.
  - exists Demo.voice_a, []. split; reflexivity.
  - exists Demo.voice_b, []. split; reflexivity.
  - reflexivity.
  - apply interpolate_styles_same_shape; reflexivity.
  - reflexivity.
  - reflexivity.
Defined.

(** X10.  When the source query matches nothing, the body of the [try]
    block of [main] stops with the error that names the source query: the
    target query is never evaluated and the engine is never loaded, and the
    database and the files are what they were. *)
Theorem empty_source_stops_workflow `{Externals} (a : args) (w : world) :
  sql_select (args_source_query a) (pending w) = Ok [] ->
  workflow a w =
    (Raise (ValueError ("No voices found for query: " +:+ args_source_query a)),
     mk_world (disk w) (pending w) (files w)
       (trace w ++ [EPrint [FText (NL +:+ "Processing source group...")];
                    EExecute (args_source_query a)])).
Proof.
  intros Hq. unfold workflow.
  rewrite (bind_ok _ _ _ _ _ (print_after _ w)).
  erewrite bind_raise; cycle 1.
  { unfold get_voice_group_vector.
    erewrite bind_ok; cycle 1.
    { rewrite fetchall_run. unfold after at 1; cbn [pending]. rewrite Hq.
      reflexivity. }
    reflexivity. }
  by rewrite after_after.
Qed.

Lemma empty_source_stops_workflow_witness :
  @workflow Demo.externals Demo3.nobody_args Demo.world0 =
    (Raise (ValueError ("No voices found for query: "
                        +:+ args_source_query Demo3.nobody_args)),
     mk_world (disk Demo.world0) (pending Demo.world0) (files Demo.world0)
       (trace Demo.world0
          ++ [EPrint [FText (NL +:+ "Processing source group...")];
              EExecute (args_source_query Demo3.nobody_args)])).
Proof.
  apply (@empty_source_stops_workflow Demo.externals Demo3.nobody_args
           Demo.world0); reflexivity.
Defined.

(** X12.  All factors of [--ranges] are converted before the first sample is
    made: when one of them does not parse, the run fails with the conversion
    error, and no file is written, not even for the factors before it. *)
Theorem bad_factor_writes_nothing `{Externals} (c : cli) (a : args)
    (src tgt : ndarray R) (e : exn) (w : world) :
  parse_args c w = (Ok a, w) ->
  args_insert a = None ->
  group_of (disk w) (args_source_query a) src ->
  group_of (disk w) (args_target_query a) tgt ->
  Kokoro "kokoro-v1.0.onnx" "voices-v1.0.bin" = Ok tt ->
  rmap float_of_str (split_on "," (args_ranges a)) = Raise e ->
  exists events,
    main c w =
      (Raise e, mk_world (disk w) (disk w) (files w) (trace w ++ events))
    /\ Forall (fun ev => forall text voice speed lang,
                 ev <> ECreate text voice speed lang) events.
Proof.
  intros Ep Hins (r1 & rs1 & Hq1 & Hm1) (r2 & rs2 & Hq2 & Hm2) Hk Hr.
  assert (Ev : validate_insert a w = (Ok tt, w)).
  { unfold validate_insert. by rewrite Hins. }
  rewrite (main_run _ _ _ Ep Ev), try_finally_close.
  set (w2 := mk_world (disk w) (disk w) (files w) _).
  unfold workflow.
  rewrite (bind_ok _ _ _ _ _ (print_after _ w2)).
  erewrite bind_ok; cycle 1.
  { rewrite (get_voice_group_vector_run _ _ r1 rs1); [|exact Hq1].
    rewrite Hm1. reflexivity. }
  rewrite (bind_ok _ _ _ _ _ (print_after _ _)).
  erewrite bind_ok; cycle 1.
  { rewrite (get_voice_group_vector_run _ _ r2 rs2); [|exact Hq2].
    rewrite Hm2. reflexivity. }
  rewrite (bind_ok _ _ _ _ _ (emit_after _ _)).
  erewrite bind_ok; cycle 1.
  { rewrite lift_run, Hk. reflexivity. }
  rewrite Hins. unfold generate_samples.
  erewrite bind_raise; cycle 1.
  { rewrite map_m_lift, Hr. reflexivity. }
  rewrite !after_after. unfold after, w2; simpl. flatten_app.
  eexists. split; [reflexivity|].
  repeat first [apply Forall_cons; split; [by intros|]
               | apply Forall_app; split
               | apply Forall_nil ];
  try exact I;
  try (apply Forall_forall; intros ev Hev%list_elem_of_fmap;
       destruct Hev as (r & -> & _); by intros).
Qed.

Lemma bad_factor_writes_nothing_witness :
  exists events,
    @main Demo.externals (Demo3.samples_cli "0,x") Demo.world0 =
      (Raise (ValueError "could not convert string to float"),
       mk_world (disk Demo.world0) (disk Demo.world0) (files Demo.world0)
         (trace Demo.world0 ++ events))
    /\ Forall (fun ev => forall text voice speed lang,
                 ev <> ECreate text voice speed lang) events.
Proof.
  apply (@bad_factor_writes_nothing Demo.externals (Demo3.samples_cli "0,x")
           (Demo3.samples_args "0,x") Demo.mean_a Demo.mean_b
           (ValueError "could not convert string to float") Demo.world0).
  - reflexivity.
  - reflexivity.
  - exists Demo.voice_a, []. split; reflexivity.
  - exists Demo.voice_b, []. split; reflexivity.
  - reflexivity.
  - reflexivity.
Defined.

(** ** The bulk load as a fold *)

Lemma entry_row_catchable `{Externals} voice :
  (forall j, catchable_result (kokoro_get_voice_style j)) ->
  catchable_result (entry_row voice).
Proof.
  intros Hk. unfold entry_row.
  apply catchable_rbind; [apply getitem_catchable|intros n].
  apply catchable_rbind; [apply Hk|intros sv].
  apply catchable_rbind; [apply voice_params_catchable|intros p].
  apply catchable_rbind; [apply bind_params_catchable|intros r].
  unfold check_not_null, not_null. intros e.
  destruct (gender r), (language r), (quality r), (style_vector r),
    (is_synthetic r); simpl; by intros [= <-].
Qed.

(** One round of the [try] block: the statement runs exactly when the entry
    makes a row, and the error raised otherwise is the one met on the way. *)
Lemma add_voice_cases `{Externals} voice n w :
  getitem voice "name" = Ok n ->
  exists events,
    add_voice voice w =
      (match entry_row voice with Ok _ => Ok tt | Raise e => Raise e end,
       mk_world (disk w) (load_entry (pending w) voice) (files w)
         (trace w ++ events)).
Proof.
  intros Hn. unfold add_voice, load_entry, entry_row. rewrite !Hn. simpl rbind.
  rewrite (bind_ok _ _ _ _ _ (lift_run _ w)).
  rewrite (bind_ok _ _ _ _ _ (emit_after _ w)).
  destruct (kokoro_get_voice_style n) as [sv|e]; simpl rbind.
  2: { rewrite (bind_raise _ _ _ _ _ (lift_run _ _)). by eexists. }
  rewrite (bind_ok _ _ _ _ _ (lift_run _ _)).
  destruct (voice_params voice) as [p|e]; simpl rbind.
  2: { rewrite (bind_raise _ _ _ _ _ (lift_run _ _)). by eexists. }
  rewrite (bind_ok _ _ _ _ _ (lift_run _ _)).
  destruct (bind_params p sv) as [r|e] eqn:Eb; simpl rbind.
  2: { erewrite bind_raise; cycle 1.
       { apply update_table_raise. reflexivity. }
       rewrite after_after. by eexists. }
  destruct (check_not_null r) as [[]|e] eqn:Ec; simpl rbind.
  2: { erewrite bind_raise; cycle 1.
       { apply update_table_raise. simpl.
         unfold sql_insert_or_replace. rewrite ?Ec. reflexivity. }
       rewrite after_after. by eexists. }
  erewrite bind_ok; cycle 1.
  { apply update_table_ok. simpl.
    unfold sql_insert_or_replace. rewrite ?Ec. reflexivity. }
  rewrite (bind_ok _ _ _ _ _ (lift_run _ _)).
  unfold print, emit, after, upsert; simpl. flatten_app. by eexists.
Qed.

(** One round of the loop, handler included. *)
Lemma load_entry_run `{Externals} voice n w :
  (forall j, catchable_result (kokoro_get_voice_style j)) ->
  getitem voice "name" = Ok n ->
  exists events,
    try_except (add_voice voice) (report_failure voice) w =
      (Ok tt,
       mk_world (disk w) (load_entry (pending w) voice) (files w)
         (trace w ++ events)).
Proof.
  intros Hk Hn. destruct (add_voice_cases voice n w Hn) as [ev E].
  unfold try_except. rewrite E.
  pose proof (entry_row_catchable voice Hk) as Hc.
  destruct (entry_row voice) as [r|e]; [by eexists|].
  rewrite (Hc e eq_refl). unfold report_failure.
  erewrite bind_ok; [|by rewrite lift_run, Hn].
  unfold print, emit, after; simpl. flatten_app. by eexists.
Qed.

(** The loop of [populate_database]. *)
Lemma load_entries_run `{Externals} (entries : list json) :
  (forall j, catchable_result (kokoro_get_voice_style j)) ->
  Forall (fun voice => exists n, getitem voice "name" = Ok n) entries ->
  forall w, exists events,
    for_each entries (fun voice =>
      try_except (add_voice voice) (report_failure voice)) w
    = (Ok tt,
       mk_world (disk w) (fold_left load_entry entries (pending w)) (files w)
         (trace w ++ events)).
Proof.
  intros Hk Hall.
  induction Hall as [|voice l [n Hn] _ IH]; intros w; simpl.
  - exists []. rewrite app_nil_r. by destruct w.
  - destruct (load_entry_run voice n w Hk Hn) as [ev E].
    rewrite (bind_ok _ _ _ _ _ E).
    destruct (IH (mk_world (disk w) (load_entry (pending w) voice) (files w)
                    (trace w ++ ev))) as [ev' E'].
    rewrite E'. simpl. flatten_app. by eexists.
Qed.

(** An entry of the documented types has a name, and the name is a string. *)
Lemma typed_entry_name voice :
  typed_entry voice = true -> exists n, getitem voice "name" = Ok (JStr n).
Proof.
  destruct voice as [| | | | | |d]; try done. simpl.
  destruct (assoc "name" d) as [[| | | |n| |]|]; try done. by exists n.
Qed.

Lemma typed_entries_named (entries : list json) :
  Forall (fun voice => typed_entry voice = true) entries ->
  Forall (fun voice => exists n, getitem voice "name" = Ok n) entries.
Proof.
  intros Hall. eapply Forall_impl; [exact Hall|].
  intros voice Ht. destruct (typed_entry_name voice Ht) as [n Hn]. by eexists.
Qed.

(** The name of the row that an entry makes is the bound name of the
    entry. *)
Lemma entry_row_name `{Externals} voice r :
  entry_row voice = Ok r ->
  exists jn, getitem voice "name" = Ok jn /\ bind_param jn = Ok (name r).
Proof.
  unfold entry_row. intros E.
  destruct (getitem voice "name") as [jn|] eqn:En; [|done]. simpl in E.
  destruct (kokoro_get_voice_style jn) as [sv|] eqn:Es; [|done]. simpl in E.
  destruct (voice_params voice) as [p|] eqn:Ep; [|done]. simpl in E.
  destruct (bind_params p sv) as [r'|] eqn:Eb; [|done]. simpl in E.
  destruct (check_not_null r') as [[]|]; [|done]. simpl in E.
  injection E as ->. exists jn. split; [done|].
  unfold voice_params in Ep. rewrite En in Ep. simpl in Ep.
  repeat match type of Ep with
         | rbind ?x _ = _ => destruct x; [|done]; simpl in Ep
         end.
  injection Ep as <-.
  unfold bind_params in Eb. simpl in Eb.
  destruct (bind_param jn) as [c0|]; [|done]. simpl in Eb.
  repeat match type of Eb with
         | rbind ?x _ = _ => destruct x; [|done]; simpl in Eb
         end.
  by injection Eb as <-.
Qed.

(** The rows made from entries of the documented types carry text names. *)
Lemma typed_rows_text `{Externals} (entries : list json) :
  Forall (fun voice => typed_entry voice = true) entries ->
  Forall (fun r => exists n, name r = SText n) (loaded_rows entries).
Proof.
  intros Hall. unfold loaded_rows.
  induction Hall as [|voice l Ht _ IH]; simpl; [constructor|].
  destruct (entry_row voice) as [r|e] eqn:Er; [|exact IH].
  simpl. constructor; [|exact IH].
  destruct (typed_entry_name voice Ht) as [n Hn].
  destruct (entry_row_name voice r Er) as (jn & Hjn & Hb).
  rewrite Hn in Hjn. injection Hjn as <-. simpl in Hb.
  injection Hb as <-. by exists n.
Qed.

(** X13.  When every entry of the manifest is of the documented types (a
    name that is a string; strings for gender and language, an integer
    quality, a boolean [is_synthetic], strings or null for duration and
    notes, where the entry has them) and the engine raises ordinary
    exceptions only, the bulk load succeeds and commits, and the catalog it
    leaves is the fold of [load_entry] over the entries in their order: an
    entry that makes a row replaces the rows of its name and is added at the
    end, an entry that fails on the way leaves the catalog as it was.  No
    file is touched. *)
Theorem populate_database_is_fold `{Externals} (voice_data : json)
    (entries : list json) (w : world) :
  (forall j, catchable_result (kokoro_get_voice_style j)) ->
  getitem voice_data "voices" = Ok (JList entries) ->
  Forall (fun voice => typed_entry voice = true) entries ->
  exists events,
    populate_database voice_data w =
      (Ok tt,
       mk_world (fold_left load_entry entries (pending w))
         (fold_left load_entry entries (pending w))
         (files w) (trace w ++ events ++ [ECommit])).
Proof.
  intros Hk Hv Htyped. pose proof (typed_entries_named entries Htyped) as Hall.
  unfold populate_database.
  erewrite bind_ok; [|by rewrite lift_run, Hv].
  erewrite bind_ok; [|by rewrite lift_run].
  destruct (load_entries_run entries Hk Hall w) as [ev E].
  rewrite (bind_ok _ _ _ _ _ E), commit_run. simpl.
  exists ev. by rewrite <- app_assoc.
Qed.

Lemma demo_engine_catchable j : catchable_result (Demo3.voice_style j).
Proof.
  intros e. destruct j as [| | | |s| |]; simpl; try (by intros [= <-]).
  destruct (String.eqb s "A"); [done|].
  destruct (String.eqb s "B"); [done|]. by intros [= <-].
Qed.

Lemma populate_database_is_fold_witness :
  exists events,
    @populate_database Demo3.externals
      (Demo3.manifest [Demo3.entry_z; Demo3.entry_a]) Demo.world0 =
      (Ok tt,
       mk_world
         (fold_left (@load_entry Demo3.externals)
            [Demo3.entry_z; Demo3.entry_a] (pending Demo.world0))
         (fold_left (@load_entry Demo3.externals)
            [Demo3.entry_z; Demo3.entry_a] (pending Demo.world0))
         (files Demo.world0) (trace Demo.world0 ++ events ++ [ECommit])).
Proof.
  apply (@populate_database_is_fold Demo3.externals
           (Demo3.manifest [Demo3.entry_z; Demo3.entry_a])
           [Demo3.entry_z; Demo3.entry_a] Demo.world0).
  - exact demo_engine_catchable.
  - reflexivity.
  - by repeat constructor.
Defined.

Lemma fold_load_entry `{Externals} (entries : list json) (t : table) :
  fold_left load_entry entries t =
    fold_left (fun t r => upsert r t) (loaded_rows entries) t.
Proof.
  revert t. induction entries as [|voice l IH]; intros t; [done|].
  simpl. unfold loaded_rows in *. simpl. unfold load_entry at 2.
  destruct (entry_row voice) as [r|e]; simpl; apply IH.
Qed.

Lemma in_upsert (r r' : row) (t : table) :
  In r' (upsert r t) <->
    (In r' t /\ key_eqb (name r) (name r') = false) \/ r' = r.
Proof.
  unfold upsert. rewrite in_app_iff, filter_In, negb_true_iff. simpl.
  intuition.
Qed.

(** The rows of a table after a sequence of upserts: the old rows whose
    key no new row carries, and the new rows that no later row replaces. *)
Lemma in_fold_upsert (rows : list row) (t : table) (r' : row) :
  In r' (fold_left (fun t r => upsert r t) rows t) <->
    (In r' t /\ Forall (fun r => key_eqb (name r) (name r') = false) rows)
    \/ (exists l1 l2,
          rows = l1 ++ r' :: l2
          /\ Forall (fun r => key_eqb (name r) (name r') = false) l2).
Proof.
  revert t. induction rows as [|r rows IH]; intros t; simpl.
  { split; [intros Hin; left; by split|].
    intros [[Hin _]|(l1 & l2 & Hl & _)]; [done|]. by destruct l1. }
  rewrite IH, in_upsert. split.
  - intros [[[[Hin Hk]| ->] Hall]|(l1 & l2 & -> & Hall)].
    + left. split; [done|]. by constructor.
    + right. by exists [], rows.
    + right. by exists (r :: l1), l2.
  - intros [[Hin Hall]|(l1 & l2 & Hl & Hall)].
    + apply Forall_cons in Hall as [Hk Hall]. left. split; [|done].
      left. by split.
    + destruct l1 as [|r0 l1]; simpl in Hl; injection Hl as -> ->.
      * left. split; [by right|done].
      * right. by exists l1, l2.
Qed.

(** X14.  What the catalog holds after a bulk load whose entries are all of
    the documented types: the old rows whose name no loaded row carries, and
    every loaded row that no later loaded row of the same name replaces.  So
    of two entries with one name the later one wins, and rows that the
    manifest does not mention are kept. *)
Theorem bulk_load_last_entry_wins `{Externals} (voice_data : json)
    (entries : list json) (w : world) (r' : row) :
  (forall j, catchable_result (kokoro_get_voice_style j)) ->
  getitem voice_data "voices" = Ok (JList entries) ->
  Forall (fun voice => typed_entry voice = true) entries ->
  exists w',
    populate_database voice_data w = (Ok tt, w')
    /\ (In r' (disk w') <->
          (In r' (pending w)
           /\ Forall (fun r => key_eqb (name r) (name r') = false)
                (loaded_rows entries))
          \/ (exists l1 l2,
                loaded_rows entries = l1 ++ r' :: l2
                /\ Forall (fun r => key_eqb (name r) (name r') = false) l2)).
Proof.
  intros Hk Hv Htyped. pose proof (typed_entries_named entries Htyped) as Hall.
  unfold populate_database.
  erewrite bind_ok; [|by rewrite lift_run, Hv].
  erewrite bind_ok; [|by rewrite lift_run].
  destruct (load_entries_run entries Hk Hall w) as [ev E].
  rewrite (bind_ok _ _ _ _ _ E), commit_run. simpl.
  eexists. split; [reflexivity|]. simpl.
  rewrite fold_load_entry. apply in_fold_upsert.
Qed.

Lemma bulk_load_last_entry_wins_witness :
  exists w',
    @populate_database Demo3.externals
      (Demo3.manifest [Demo3.entry_a; Demo.entry_a]) Demo.world0 = (Ok tt, w')
    /\ (In Demo.row_a (disk w') <->
          (In Demo.row_a (pending Demo.world0)
           /\ Forall (fun r => key_eqb (name r) (name Demo.row_a) = false)
                (@loaded_rows Demo3.externals [Demo3.entry_a; Demo.entry_a]))
          \/ (exists l1 l2,
                @loaded_rows Demo3.externals [Demo3.entry_a; Demo.entry_a]
                  = l1 ++ Demo.row_a :: l2
                /\ Forall (fun r => key_eqb (name r) (name Demo.row_a) = false)
                     l2)).
Proof.
  apply (@bulk_load_last_entry_wins Demo3.externals
           (Demo3.manifest [Demo3.entry_a; Demo.entry_a])
           [Demo3.entry_a; Demo.entry_a] Demo.world0 Demo.row_a).
  - exact demo_engine_catchable.
  - reflexivity.
  - by repeat constructor.
Defined.

(** ** Loading a manifest twice *)

Lemma filter_app_list {A} (f : A -> bool) (l1 l2 : list A) :
  List.filter f (l1 ++ l2) = List.filter f l1 ++ List.filter f l2.
Proof.
  induction l1 as [|x l1 IH]; simpl; [done|].
  destruct (f x); simpl; by rewrite IH.
Qed.

Lemma filter_filter_list {A} (f g : A -> bool) (l : list A) :
  List.filter f (List.filter g l) = List.filter (fun x => g x && f x) l.
Proof.
  induction l as [|x l IH]; simpl; [done|].
  destruct (g x); simpl; [destruct (f x); simpl|]; by rewrite IH.
Qed.

(** A sequence of upserts keeps the old rows that carry none of the new
    keys, in their order, and puts behind them what the same upserts make
    of the empty table. *)
Lemma fold_upsert_split (rows : list row) (t : table) :
  fold_left (fun t r => upsert r t) rows t =
    List.filter (no_key_of rows) t
      ++ fold_left (fun t r => upsert r t) rows [].
Proof.
  revert t. induction rows as [|r rows IH]; intros t; simpl.
  { rewrite app_nil_r. induction t as [|x t IHt]; simpl; [done|].
    by rewrite <- IHt. }
  rewrite IH, (IH (upsert r [])). unfold upsert. simpl.
  rewrite filter_app_list, filter_filter_list, <- app_assoc. done.
Qed.

Lemma fold_upsert_nil_keys (rows : list row) (r' : row) :
  Forall (fun r => key_eqb (name r) (name r) = true) rows ->
  In r' (fold_left (fun t r => upsert r t) rows []) ->
  no_key_of rows r' = false.
Proof.
  intros Hrefl Hin. apply in_fold_upsert in Hin as [[[] _]|(l1 & l2 & -> & _)].
  unfold no_key_of. rewrite forallb_app. simpl.
  apply Forall_app in Hrefl as [_ Hr]. apply Forall_cons in Hr as [Hr _].
  rewrite Hr. simpl. by rewrite andb_false_r.
Qed.

Lemma filter_none {A} (f : A -> bool) (l : list A) :
  (forall x, In x l -> f x = false) -> List.filter f l = [].
Proof.
  induction l as [|x l IH]; intros Hf; simpl; [done|].
  rewrite (Hf x (or_introl eq_refl)). apply IH. intros y Hy. apply Hf. by right.
Qed.

Lemma fold_upsert_twice (rows : list row) (t : table) :
  Forall (fun r => key_eqb (name r) (name r) = true) rows ->
  fold_left (fun t r => upsert r t) rows
    (fold_left (fun t r => upsert r t) rows t)
  = fold_left (fun t r => upsert r t) rows t.
Proof.
  intros Hrefl.
  rewrite (fold_upsert_split rows (fold_left _ rows t)).
  rewrite (fold_upsert_split rows t) at 1.
  rewrite filter_app_list, filter_filter_list.
  rewrite (filter_none (no_key_of rows) (fold_left _ rows []));
    [|intros x Hx; by apply fold_upsert_nil_keys].
  rewrite app_nil_r, (fold_upsert_split rows t). f_equal.
  apply filter_ext. intros x. by destruct (no_key_of rows x).
Qed.

(** X15.  Loading the same manifest a second time changes nothing but the
    time stamps: when every entry is of the documented types, the catalog
    after the second load has the same rows in the same order as after the
    first, in all the columns that the statement lists. *)
Theorem bulk_load_twice `{Externals} (voice_data : json)
    (entries : list json) (w : world) :
  (forall j, catchable_result (kokoro_get_voice_style j)) ->
  getitem voice_data "voices" = Ok (JList entries) ->
  Forall (fun voice => typed_entry voice = true) entries ->
  exists w1 w2,
    populate_database voice_data w = (Ok tt, w1)
    /\ populate_database voice_data w1 = (Ok tt, w2)
    /\ map listed_columns (disk w2) = map listed_columns (disk w1).
Proof.
  intros Hk Hv Htyped.
  pose proof (typed_entries_named entries Htyped) as Hall.
  pose proof (typed_rows_text entries Htyped) as Htext.
  assert (Hrun : forall w0, exists events,
            populate_database voice_data w0 =
              (Ok tt,
               mk_world (fold_left load_entry entries (pending w0))
                 (fold_left load_entry entries (pending w0))
                 (files w0) (trace w0 ++ events))).
  { intros w0. unfold populate_database.
    erewrite bind_ok; [|by rewrite lift_run, Hv].
    erewrite bind_ok; [|by rewrite lift_run].
    destruct (load_entries_run entries Hk Hall w0) as [ev E].
    rewrite (bind_ok _ _ _ _ _ E), commit_run. simpl.
    rewrite <- app_assoc. by eexists. }
  destruct (Hrun w) as [ev1 E1]. rewrite E1.
  match goal with |- context [(Ok tt, ?w1)] =>
    destruct (Hrun w1) as [ev2 E2] end.
  eexists _, _. split; [reflexivity|]. split; [exact E2|]. simpl.
  rewrite !fold_load_entry, fold_upsert_twice; [done|].
  eapply Forall_impl; [exact Htext|]. intros r [n ->]. simpl.
  apply String.eqb_refl.
Qed.

Lemma bulk_load_twice_witness :
  exists w1 w2,
    @populate_database Demo3.externals
      (Demo3.manifest [Demo3.entry_b; Demo3.entry_a; Demo3.entry_z])
      Demo.world0 = (Ok tt, w1)
    /\ @populate_database Demo3.externals
         (Demo3.manifest [Demo3.entry_b; Demo3.entry_a; Demo3.entry_z])
         w1 = (Ok tt, w2)
    /\ map listed_columns (disk w2) = map listed_columns (disk w1).
Proof.
  apply (@bulk_load_twice Demo3.externals
           (Demo3.manifest [Demo3.entry_b; Demo3.entry_a; Demo3.entry_z])
           [Demo3.entry_b; Demo3.entry_a; Demo3.entry_z] Demo.world0).
  - exact demo_engine_catchable.
  - reflexivity.
  - by repeat constructor.
Defined.

(** ** An entry without a name *)

Lemma for_each_app_ok {A} (l1 l2 : list A) (body : A -> M unit) w w1 :
  for_each l1 body w = (Ok tt, w1) ->
  for_each (l1 ++ l2) body w = for_each l2 body w1.
Proof.
  revert w. induction l1 as [|x l1 IH]; intros w; simpl.
  { by intros [= <-]. }
  unfold bind. destruct (body x w) as [[[]|e] w0]; [|done].
  apply IH.
Qed.

(** X16.  An entry without a name stops the bulk load for good: the handler
    that should report it fails on the same missing name.  The error leaves
    [populate_database]; the entries before it were executed but are never
    committed, so the catalog on disk is what it was, and the entries after
    it are never read. *)
Theorem nameless_entry_discards_load `{Externals} (voice_data : json)
    (before after_it : list json) (bad : json) (e : exn) (w : world) :
  (forall j, catchable_result (kokoro_get_voice_style j)) ->
  getitem voice_data "voices" = Ok (JList (before ++ bad :: after_it)) ->
  Forall (fun voice => exists n, getitem voice "name" = Ok n) before ->
  getitem bad "name" = Raise e ->
  exists events,
    populate_database voice_data w =
      (Raise e,
       mk_world (disk w) (fold_left load_entry before (pending w)) (files w)
         (trace w ++ events)).
Proof.
  intros Hk Hv Hall Hbad. unfold populate_database.
  erewrite bind_ok; [|by rewrite lift_run, Hv].
  erewrite bind_ok; [|by rewrite lift_run].
  destruct (load_entries_run before Hk Hall w) as [ev E].
  erewrite bind_raise; cycle 1.
  { rewrite (for_each_app_ok _ _ _ _ _ E). simpl.
    erewrite bind_raise; [reflexivity|].
    unfold try_except, add_voice.
    erewrite bind_raise; [|by rewrite lift_run, Hbad].
    rewrite (getitem_catchable _ _ e Hbad). unfold report_failure.
    erewrite bind_raise; [reflexivity|by rewrite lift_run, Hbad]. }
  by exists ev.
Qed.

Lemma nameless_entry_discards_load_witness :
  exists events,
    @populate_database Demo3.externals
      (Demo3.manifest [Demo3.entry_a; Demo3.entry_nameless; Demo3.entry_b])
      Demo.empty_world =
      (Raise (KeyError "name"),
       mk_world (disk Demo.empty_world)
         (fold_left (@load_entry Demo3.externals) [Demo3.entry_a]
            (pending Demo.empty_world))
         (files Demo.empty_world) (trace Demo.empty_world ++ events)).
Proof.
  apply (@nameless_entry_discards_load Demo3.externals
           (Demo3.manifest [Demo3.entry_a; Demo3.entry_nameless; Demo3.entry_b])
           [Demo3.entry_a] [Demo3.entry_b] Demo3.entry_nameless
           (KeyError "name") Demo.empty_world).
  - exact demo_engine_catchable.
  - reflexivity.
  - repeat constructor; by eexists.
  - reflexivity.
Defined.

(** ** Lookup of a voice by its name *)

Lemma fetchone_by_name_run voice_name w :
  fetchone_by_name voice_name w =
    (Ok (head (map row_tuple (rows_named (SText voice_name) (pending w)))),
     after w [EExecute "SELECT * FROM voices WHERE name = ?"]).
Proof. done. Qed.

Lemma synthesize_lookup_found voice_name (r : row) (rs : list row) w :
  rows_named (SText voice_name) (pending w) = r :: rs ->
  exists events,
    synthesize.get_voice_vector voice_name w =
      (Ok (style_vector r), after w events).
Proof.
  intros Hr. unfold synthesize.get_voice_vector.
  rewrite (bind_ok _ _ _ _ _ (fetchone_by_name_run _ w)). rewrite Hr.
  cbn [map head].
  rewrite (bind_ok _ _ _ _ _ (print_after _ _)).
  change (index (row_tuple r) 0) with (Ok (name r)).
  change (index (row_tuple r) 1) with (Ok (gender r)).
  change (index (row_tuple r) 2) with (Ok (language r)).
  change (index (row_tuple r) 3) with (Ok (quality r)).
  change (index (row_tuple r) 5) with (Ok (style_vector r)).
  do 4 rewrite (bind_ok _ _ _ _ _ (lift_run _ _)).
  rewrite (bind_ok _ _ _ _ _ (print_after _ _)).
  rewrite lift_run, !after_after. by eexists.
Qed.

Lemma rows_named_absent (k : sqlval) (t : table) :
  has_key k t = false -> rows_named k t = [].
Proof.
  unfold has_key, rows_named. induction t as [|r t IH]; simpl; [done|].
  intros [-> Ht]%orb_false_iff. by apply IH.
Qed.

(** ** scripts/synthesize.py: runs of [main] *)

Lemma make_directory_run `{Host} (path : string) w :
  path_mkdir path = Ok tt ->
  make_directory path w = (Ok tt, after w [EMkdir path]).
Proof.
  intros Hm. unfold make_directory.
  erewrite bind_ok; [|by rewrite lift_run, Hm].
  apply emit_after.
Qed.

Lemma open_database_run `{Host} (db_path : string) w :
  sqlite3_connect db_path = Ok tt ->
  open_database db_path w =
    (Ok tt, mk_world (disk w) (disk w) (files w)
              (trace w ++ [EConnect db_path])).
Proof.
  intros Hc. unfold open_database.
  erewrite bind_ok; [|by rewrite lift_run, Hc].
  reflexivity.
Qed.

Lemma synthesize_main_run `{Externals} `{VoiceArgument} `{Host}
    (c : synthesize.cli) (a : synthesize.args) w :
  synthesize.parse_args c w = (Ok a, w) ->
  path_mkdir (synthesize.args_output_dir a) = Ok tt ->
  sqlite3_connect (synthesize.args_db_path a) = Ok tt ->
  synthesize.main c w =
    try_finally (synthesize.workflow a) close
      (mk_world (disk w) (disk w) (files w)
         (trace w ++ [EMkdir (synthesize.args_output_dir a);
                      EConnect (synthesize.args_db_path a)])).
Proof.
  intros Ep Hm Hc. unfold synthesize.main.
  rewrite (bind_ok _ _ _ _ _ Ep).
  rewrite (bind_ok _ _ _ _ _ (make_directory_run _ w Hm)).
  rewrite (bind_ok _ _ _ _ _ (open_database_run _ _ Hc)).
  unfold after; simpl. by rewrite <- app_assoc.
Qed.

(** X19.  [synthesize.py] on a name that the catalog does not have, on a
    host where the output directory can be made and the database opened:
    the run fails with the error that names the voice, the engine is never
    loaded, nothing is synthesized or written, and the connection is
    closed. *)
Theorem synthesize_unknown_voice `{Externals} `{VoiceArgument} `{Host}
    (c : synthesize.cli) (a : synthesize.args) (w : world) :
  synthesize.parse_args c w = (Ok a, w) ->
  path_mkdir (synthesize.args_output_dir a) = Ok tt ->
  sqlite3_connect (synthesize.args_db_path a) = Ok tt ->
  has_key (SText (synthesize.args_voice_name a)) (disk w) = false ->
  synthesize.main c w =
    (Raise (ValueError ("No voice found with name: "
                        +:+ synthesize.args_voice_name a)),
     mk_world (disk w) (disk w) (files w)
       (trace w ++ [EMkdir (synthesize.args_output_dir a);
                    EConnect (synthesize.args_db_path a);
                    EExecute "SELECT * FROM voices WHERE name = ?";
                    EClose])).
Proof.
  intros Ep Hm Hc Hno.
  rewrite (synthesize_main_run _ _ _ Ep Hm Hc), try_finally_close.
  set (w2 := mk_world (disk w) (disk w) (files w) _).
  assert (Hw : synthesize.workflow a w2 =
                 (Raise (ValueError ("No voice found with name: "
                                     +:+ synthesize.args_voice_name a)),
                  after w2 [EExecute "SELECT * FROM voices WHERE name = ?"])).
  { unfold synthesize.workflow.
    erewrite bind_raise; [reflexivity|].
    unfold synthesize.get_voice_vector.
    rewrite (bind_ok _ _ _ _ _ (fetchone_by_name_run _ w2)).
    unfold w2 at 1. cbn [pending]. by rewrite (rows_named_absent _ _ Hno). }
  rewrite Hw. unfold after, w2; simpl. by flatten_app.
Qed.

Lemma synthesize_unknown_voice_witness :
  @synthesize.main Demo.externals Demo4.voice_argument Demo4.host
    (Demo4.say "Q") Demo.world0 =
    (Raise (ValueError ("No voice found with name: "
                        +:+ synthesize.args_voice_name (Demo4.say_args "Q"))),
     mk_world (disk Demo.world0) (disk Demo.world0) (files Demo.world0)
       (trace Demo.world0
          ++ [EMkdir (synthesize.args_output_dir (Demo4.say_args "Q"));
              EConnect (synthesize.args_db_path (Demo4.say_args "Q"));
              EExecute "SELECT * FROM voices WHERE name = ?";
              EClose])).
Proof.
  apply (@synthesize_unknown_voice Demo.externals Demo4.voice_argument
           Demo4.host (Demo4.say "Q") (Demo4.say_args "Q") Demo.world0);
    reflexivity.
Defined.

(** X20.  [synthesize.py] on a name that the catalog has and whose vector
    reads as an array, when the directory can be made, the database opened,
    the engine loads and synthesizes, and the sound file can be written: the
    run succeeds; the sample is made from the vector of the row with the
    language ['en-us'], whatever the language of the row, and written to the
    path that the output directory makes with
    [<voice_name>_<first 20 characters of the text>.wav]; the catalog and
    every other file are what they were. *)
Theorem synthesize_writes_sample `{Externals} `{VoiceArgument} `{Host}
    (c : synthesize.cli) (a : synthesize.args) (r : row) (rs : list row)
    (v : ndarray R) (audio : list R * Z) (w : world) :
  synthesize.parse_args c w = (Ok a, w) ->
  path_mkdir (synthesize.args_output_dir a) = Ok tt ->
  sqlite3_connect (synthesize.args_db_path a) = Ok tt ->
  rows_named (SText (synthesize.args_voice_name a)) (disk w) = r :: rs ->
  style_vector r = SArr v ->
  Kokoro "kokoro-v1.0.onnx" "voices-v1.0.bin" = Ok tt ->
  kokoro_create (synthesize.args_text a) v (synthesize.args_speed a) "en-us"
    = Ok audio ->
  sf_write
    (joinpath (synthesize.args_output_dir a)
       (synthesize.args_voice_name a +:+ "_"
        +:+ str_prefix 20 (synthesize.args_text a) +:+ ".wav"))
    (fst audio) (snd audio) = Ok tt ->
  exists events,
    synthesize.main c w =
      (Ok tt,
       mk_world (disk w) (disk w)
         (<[joinpath (synthesize.args_output_dir a)
              (synthesize.args_voice_name a +:+ "_"
               +:+ str_prefix 20 (synthesize.args_text a) +:+ ".wav")
            := WavFile (fst audio) (snd audio)]> (files w))
         (trace w ++ events))
    /\ In (ECreate (synthesize.args_text a) v (synthesize.args_speed a)
             "en-us") events.
Proof.
  intros Ep Hm Hcn Hr Hv Hk Hc Hsf.
  rewrite (synthesize_main_run _ _ _ Ep Hm Hcn), try_finally_close.
  set (w2 := mk_world (disk w) (disk w) (files w) _).
  unfold synthesize.workflow.
  destruct (synthesize_lookup_found (synthesize.args_voice_name a) r rs w2 Hr)
    as [ev E].
  rewrite (bind_ok _ _ _ _ _ E), Hv.
  rewrite (bind_ok _ _ _ _ _ (emit_after _ _)).
  erewrite bind_ok; cycle 1.
  { rewrite lift_run, Hk. reflexivity. }
  rewrite (bind_ok _ _ _ _ _ (print_after _ _)).
  erewrite bind_ok; cycle 1.
  { unfold create_from_row.
    rewrite (bind_ok _ _ _ _ _ (emit_after _ _)).
    rewrite lift_run, Hc. reflexivity. }
  erewrite bind_ok; cycle 1.
  { unfold write_sound, synthesize.output_file.
    erewrite bind_ok; [|by rewrite lift_run, Hsf].
    reflexivity. }
  unfold put_file, print, emit, after, synthesize.output_file, w2; simpl.
  flatten_app. eexists. split; [reflexivity|].
  right. right. apply (in_or_app ev). right. simpl. right. right. by left.
Qed.

Lemma synthesize_writes_sample_witness :
  exists events,
    @synthesize.main Demo.externals Demo4.voice_argument Demo4.host
      (Demo4.say "C") Demo.world0 =
      (Ok tt,
       mk_world (disk Demo.world0) (disk Demo.world0)
         (<[@joinpath Demo4.host
              (synthesize.args_output_dir (Demo4.say_args "C"))
              (synthesize.args_voice_name (Demo4.say_args "C") +:+ "_"
               +:+ str_prefix 20 (synthesize.args_text (Demo4.say_args "C"))
               +:+ ".wav")
            := WavFile (fst (@nil R, 24000%Z)) (snd (@nil R, 24000%Z))]>
            (files Demo.world0))
         (trace Demo.world0 ++ events))
    /\ In (ECreate (synthesize.args_text (Demo4.say_args "C"))
             (Demo.vec [1; 2; 3]%R)
             (synthesize.args_speed (Demo4.say_args "C")) "en-us") events.
Proof.
  apply (@synthesize_writes_sample Demo.externals Demo4.voice_argument
           Demo4.host (Demo4.say "C") (Demo4.say_args "C") Demo.voice_c []
           (Demo.vec [1; 2; 3]%R) ([], 24000%Z) Demo.world0); reflexivity.
Defined.

(** ** scripts/export_voice.py: a run without a choice *)

(** X21.  [export_voice.py] called with neither [--export-all] nor a
    non-empty [--voice-name], on a host where the output directory can be
    made and the database opened, ends with exit status 2, but only after
    the directory was made and the database opened; the connection is closed
    again, and catalog and files are what they were. *)
Theorem export_without_choice `{Torch} `{Host} (c : export_voice.cli)
    (w : world) :
  export_voice.cli_export_all c = false ->
  truthy (export_voice.cli_voice_name c) = false ->
  path_mkdir (default "exported_voices" (export_voice.cli_output_dir c))
    = Ok tt ->
  sqlite3_connect (default "voices.db" (export_voice.cli_db_path c))
    = Ok tt ->
  export_voice.main c w =
    (Raise (SystemExit 2 "Either --voice-name or --export-all must be specified"),
     mk_world (disk w) (disk w) (files w)
       (trace w
          ++ [EMkdir (default "exported_voices" (export_voice.cli_output_dir c));
              EConnect (default "voices.db" (export_voice.cli_db_path c));
              EClose])).
Proof.
  intros Hall Hname Hm Hc.
  unfold export_voice.main, export_voice.parse_args.
  unfold bind at 1. unfold ret at 1. cbv iota beta.
  cbn [export_voice.args_output_dir export_voice.args_db_path].
  rewrite (bind_ok _ _ _ _ _ (make_directory_run _ w Hm)).
  rewrite (bind_ok _ _ _ _ _ (open_database_run _ _ Hc)).
  rewrite try_finally_close. unfold export_voice.workflow.
  cbn [export_voice.args_export_all export_voice.args_voice_name
       export_voice.args_output_dir export_voice.args_db_path].
  rewrite Hall, Hname. unfold parser_error, raise, after; simpl.
  by flatten_app.
Qed.

Lemma export_without_choice_witness :
  @export_voice.main Demo4.torch Demo4.host Demo4.no_option Demo.world0 =
    (Raise (SystemExit 2 "Either --voice-name or --export-all must be specified"),
     mk_world (disk Demo.world0) (disk Demo.world0) (files Demo.world0)
       (trace Demo.world0
          ++ [EMkdir (default "exported_voices"
                        (export_voice.cli_output_dir Demo4.no_option));
              EConnect (default "voices.db"
                          (export_voice.cli_db_path Demo4.no_option));
              EClose])).
Proof.
  apply (@export_without_choice Demo4.torch Demo4.host Demo4.no_option
           Demo.world0); reflexivity.
Defined.

(** ** The two copies of the lookup *)

Lemma export_lookup_found voice_name (r : row) (rs : list row) (b : bool) w :
  rows_named (SText voice_name) (pending w) = r :: rs ->
  export_voice.truth (notes r) = Ok b ->
  exists events,
    export_voice.get_voice_vector voice_name w =
      (Ok (style_vector r), after w events).
Proof.
  intros Hr Hb. unfold export_voice.get_voice_vector.
  rewrite (bind_ok _ _ _ _ _ (fetchone_by_name_run _ w)). rewrite Hr.
  cbn [map head].
  change (index (row_tuple r) 0) with (Ok (name r)).
  change (index (row_tuple r) 1) with (Ok (gender r)).
  change (index (row_tuple r) 2) with (Ok (language r)).
  change (index (row_tuple r) 3) with (Ok (quality r)).
  change (index (row_tuple r) 5) with (Ok (style_vector r)).
  change (index (row_tuple r) 7) with (Ok (notes r)).
  rewrite (bind_ok _ _ _ _ _ (print_after _ _)).
  do 4 (rewrite (bind_ok _ _ _ _ _ (lift_run _ _));
        rewrite (bind_ok _ _ _ _ _ (print_after _ _))).
  rewrite (bind_ok _ _ _ _ _ (lift_run _ _)).
  rewrite Hb. rewrite (bind_ok _ _ _ _ _ (lift_run _ _)).
  destruct b.
  - erewrite bind_ok; cycle 1.
    { rewrite (bind_ok _ _ _ _ _ (lift_run _ _)). apply print_after. }
    rewrite lift_run, !after_after. by eexists.
  - erewrite bind_ok; [|reflexivity].
    rewrite lift_run, !after_after. by eexists.
Qed.

(** X22.  The lookups of [export_voice.py] and of [synthesize.py] agree: on
    a catalog whose notes are NULL or text they return the same vector for
    every name, or fail with the same error when the name is not there;
    they differ in what they print only. *)
Theorem lookups_agree (voice_name : string) (w : world) :
  Forall (fun r => notes r = SNull \/ exists s, notes r = SText s) (pending w) ->
  fst (export_voice.get_voice_vector voice_name w)
  = fst (synthesize.get_voice_vector voice_name w).
Proof.
  intros Hnotes.
  destruct (rows_named (SText voice_name) (pending w)) as [|r rs] eqn:Hr.
  - unfold export_voice.get_voice_vector, synthesize.get_voice_vector.
    rewrite !(bind_ok _ _ _ _ _ (fetchone_by_name_run _ w)).
    by rewrite Hr.
  - assert (Hin : In r (pending w)).
    { assert (Hin : In r (rows_named (SText voice_name) (pending w)))
        by (rewrite Hr; by left).
      unfold rows_named in Hin. by apply filter_In in Hin as [Hin _]. }
    assert (Hb : exists b, export_voice.truth (notes r) = Ok b).
    { rewrite Forall_forall in Hnotes.
      destruct (Hnotes r) as [->|[s ->]];
        [by apply list_elem_of_In| |]; by eexists. }
    destruct Hb as [b Hb].
    destruct (export_lookup_found voice_name r rs b w Hr Hb) as [ev1 ->].
    by destruct (synthesize_lookup_found voice_name r rs w Hr) as [ev2 ->].
Qed.

Lemma lookups_agree_witness :
  fst (export_voice.get_voice_vector "A" Demo.world0)
  = fst (synthesize.get_voice_vector "A" Demo.world0).
Proof.
  apply (lookups_agree "A" Demo.world0).
  repeat constructor.
Defined.

(** ** scripts/create_voice_db.py: the report of [main] *)

Lemma report_lines_run (rows : list (list sqlval)) w :
  Forall (fun row => 4 <= length row) rows ->
  exists events,
    for_each rows (fun row =>
       v0 <- lift (index row 0) ;;
       v1 <- lift (index row 1) ;;
       v2 <- lift (index row 2) ;;
       v3 <- lift (index row 3) ;;
       print [FText "Name: "; FSql v0; FText ", Gender: "; FSql v1;
              FText ", Language: "; FSql v2; FText ", Quality: "; FSql v3]) w
    = (Ok tt, after w events).
Proof.
  intros Hall. revert w.
  induction Hall as [|row rows Hrow _ IH]; intros w; simpl.
  { exists []. by rewrite after_nil. }
  destruct row as [|c0 [|c1 [|c2 [|c3 row]]]]; simpl in Hrow; try lia.
  erewrite bind_ok; cycle 1.
  { unfold index; simpl.
    do 4 rewrite (bind_ok _ _ _ _ _ (lift_run _ _)). apply print_after. }
  destruct (IH (after w [EPrint [FText "Name: "; FSql c0; FText ", Gender: ";
                                 FSql c1; FText ", Language: "; FSql c2;
                                 FText ", Quality: "; FSql c3]]))
    as [ev ->].
  rewrite after_after. by eexists.
Qed.

(** X23.  [create_voice_db.py] reports success with the size of the whole
    catalog.  With an engine that loads, a manifest that is read and whose
    entries are all of the documented types, a database that can be opened,
    and a report query that answers with rows of four columns, [main]
    succeeds, commits the catalog that the fold of the entries makes of the
    one on disk, and prints as the number of voices the number of rows of
    that catalog: rows that were there before count, entries that failed do
    not. *)
Theorem create_db_reports_catalog_size `{Externals} `{Manifest} `{Host}
    (voice_data : json) (entries : list json) (rows : list (list sqlval))
    (w : world) :
  Kokoro "kokoro-v1.0.onnx" "voices-v1.0.bin" = Ok tt ->
  json_load "voice-data.json" = Ok voice_data ->
  sqlite3_connect "voices.db" = Ok tt ->
  (forall j, catchable_result (kokoro_get_voice_style j)) ->
  getitem voice_data "voices" = Ok (JList entries) ->
  Forall (fun voice => typed_entry voice = true) entries ->
  sql_select create_voice_db.top_quality_query
    (fold_left load_entry entries (disk w)) = Ok rows ->
  Forall (fun row => 4 <= length row) rows ->
  exists before after_it,
    create_voice_db.main w =
      (Ok tt,
       mk_world (fold_left load_entry entries (disk w))
         (fold_left load_entry entries (disk w)) (files w)
         (trace w ++ before
            ++ [EPrint [FText (NL +:+ "Database created successfully with ");
                        FNat (length (fold_left load_entry entries (disk w)));
                        FText " voices"]]
            ++ after_it)).
Proof.
  intros Hk Hj Hcn Hc Hv Htyped Hq Hrows.
  pose proof (typed_entries_named entries Htyped) as Hall.
  unfold create_voice_db.main.
  rewrite (bind_ok _ _ _ _ _ (print_after _ w)).
  rewrite (bind_ok _ _ _ _ _ (emit_after _ _)).
  erewrite bind_ok; [|by rewrite lift_run, Hk].
  rewrite (bind_ok _ _ _ _ _ (print_after _ _)).
  erewrite bind_ok; cycle 1.
  { unfold create_voice_db.load_voice_data.
    rewrite (bind_ok _ _ _ _ _ (emit_after _ _)).
    rewrite lift_run, Hj. reflexivity. }
  rewrite (bind_ok _ _ _ _ _ (print_after _ _)).
  rewrite !after_after.
  erewrite bind_ok; cycle 1.
  { unfold create_voice_db.create_voice_database.
    rewrite (bind_ok _ _ _ _ _ (open_database_run _ _ Hcn)).
    erewrite bind_ok; [|by apply update_table_ok].
    apply commit_run. }
  cbn [disk pending files trace after].
  rewrite (bind_ok _ _ _ _ _ (print_after _ _)).
  match goal with |- context [bind (populate_database _) _ ?w0] =>
    set (w1 := w0) end.
  assert (Hpop : exists events,
             populate_database voice_data w1 =
               (Ok tt,
                mk_world (fold_left load_entry entries (disk w))
                  (fold_left load_entry entries (disk w)) (files w)
                  (trace w1 ++ events))).
  { unfold populate_database.
    erewrite bind_ok; [|by rewrite lift_run, Hv].
    erewrite bind_ok; [|by rewrite lift_run].
    destruct (load_entries_run entries Hc Hall w1) as [ev E].
    rewrite (bind_ok _ _ _ _ _ E), commit_run. simpl.
    rewrite <- app_assoc. by eexists. }
  destruct Hpop as [ev1 E1]. rewrite (bind_ok _ _ _ _ _ E1).
  rewrite (bind_ok _ _ _ _ _ (emit_after _ _)).
  unfold bind at 1. cbn [after pending count].
  rewrite (bind_ok _ _ _ _ _ (print_after _ _)).
  erewrite bind_ok; cycle 1.
  { rewrite fetchall_run. unfold after at 1 2; cbn [pending]. rewrite Hq.
    reflexivity. }
  rewrite (bind_ok _ _ _ _ _ (print_after _ _)).
  match goal with |- context [bind (for_each rows _) _ ?w0] =>
    destruct (report_lines_run rows w0 Hrows) as [ev2 E2] end.
  rewrite (bind_ok _ _ _ _ _ E2).
  unfold close, after, w1; simpl. flatten_app.
  eexists (_ :: _ :: _ :: _ :: _ :: _ :: _ :: _ :: _ :: ev1 ++ [_]), _.
  simpl. flatten_app. reflexivity.
Qed.

Lemma create_db_reports_catalog_size_witness :
  exists before after_it,
    @create_voice_db.main Demo5.externals Demo5.manifest_file Demo4.host
      Demo.world0 =
      (Ok tt,
       mk_world
         (fold_left (@load_entry Demo5.externals)
            [Demo3.entry_z; Demo3.entry_a] (disk Demo.world0))
         (fold_left (@load_entry Demo5.externals)
            [Demo3.entry_z; Demo3.entry_a] (disk Demo.world0))
         (files Demo.world0)
         (trace Demo.world0 ++ before
            ++ [EPrint [FText (NL +:+ "Database created successfully with ");
                        FNat (length
                                (fold_left (@load_entry Demo5.externals)
                                   [Demo3.entry_z; Demo3.entry_a]
                                   (disk Demo.world0)));
                        FText " voices"]]
            ++ after_it)).
Proof.
  apply (@create_db_reports_catalog_size Demo5.externals Demo5.manifest_file
           Demo4.host
           (Demo3.manifest [Demo3.entry_z; Demo3.entry_a])
           [Demo3.entry_z; Demo3.entry_a]
           (map (fun r => [name r; gender r; language r; quality r])
              (firstn 5
                 (fold_left (@load_entry Demo5.externals)
                    [Demo3.entry_z; Demo3.entry_a] (disk Demo.world0))))
           Demo.world0).
  - reflexivity.
  - reflexivity.
  - reflexivity.
  - exact demo_engine_catchable.
  - reflexivity.
  - by repeat constructor.
  - reflexivity.
  - repeat constructor.
Defined.

(** ** The layout of a blob *)

(** The writer's prefix: magic, version 1.0, length field and a header that
    ends at a multiple of 64 bytes. *)
Lemma np_save_layout (d : dtype) (s : list nat) (ws : list N) :
  within_numpy_limits s ->
  exists header,
    length header <= max_header_size
    /\ (10 + length header) mod 64 = 0
    /\ parse_header header = Some (d, s)
    /\ np_save (mk_float_array d (mk_ndarray s ws)) =
         Ok ((magic ++ x01 :: x00
                :: le_bytes 2 (N.of_nat (length header)) ++ header)
               ++ flat_map (le_bytes (itemsize d)) ws).
Proof.
  intros Hlim.
  pose proof (header_text_length d s Hlim) as Hh.
  assert (Hm : max_header_size = 100 * 100) by reflexivity.
  set (h := header_text d s) in *.
  set (padlen := 64 - ((8 + 2 + (length h + 1)) mod 64)).
  assert (Hmod : (8 + 2 + (length h + 1)) mod 64 < 64)
    by (apply Nat.mod_upper_bound; lia).
  exists (h ++ repeat space padlen ++ [newline]).
  assert (Hlen : length (h ++ repeat space padlen ++ [newline])
                 = length h + 1 + padlen).
  { rewrite !length_app, repeat_length. simpl. lia. }
  rewrite Hlen. split; [unfold padlen; lia|]. split.
  { pose proof (Nat.div_mod (8 + 2 + (length h + 1)) 64) as Hdm.
    replace (10 + (length h + 1 + padlen))
      with ((1 + (8 + 2 + (length h + 1)) / 64) * 64) by (unfold padlen; lia).
    apply Nat.Div0.mod_mul. }
  split; [apply parse_header_text|].
  unfold np_save. cbn [float_dtype bits shape data]. fold h.
  unfold wrap_header_guess_version, wrap_header.
  change (ARRAY_ALIGN - (MAGIC_LEN + 2 + (length h + 1)) mod ARRAY_ALIGN)
    with padlen.
  assert (Hfit : (N.of_nat (length h + 1 + padlen) <? 2 ^ N.of_nat (8 * 2))%N
                 = true).
  { apply N.ltb_lt. change (2 ^ N.of_nat (8 * 2))%N with 65536%N.
    unfold padlen. lia. }
  rewrite Hfit. cbn [rbind]. f_equal; by flatten_app.
Qed.

(** The reader on the writer's prefix followed by any bytes. *)
Lemma np_load_layout (d : dtype) (s : list nat) (header bs : list byte) :
  length header <= max_header_size ->
  parse_header header = Some (d, s) ->
  np_load ((magic ++ x01 :: x00
              :: le_bytes 2 (N.of_nat (length header)) ++ header) ++ bs) =
    match read_words (itemsize d) (prod_shape s) bs with
    | Some ws => Ok (mk_float_array d (mk_ndarray s ws))
    | None => Raise (ValueError "EOF: reading array data")
    end.
Proof.
  intros Hmax Hparse.
  assert (Hm : max_header_size = 100 * 100) by reflexivity.
  set (L := length header) in *.
  replace ((magic ++ x01 :: x00 :: le_bytes 2 (N.of_nat L) ++ header) ++ bs)
    with (magic ++ x01 :: x00 :: le_bytes 2 (N.of_nat L) ++ header ++ bs)
    by (by flatten_app).
  unfold np_load. rewrite strip_prefix_app.
  change (length_field_size x01 x00) with (Some 2). cbv iota beta.
  assert (Hrest : (length (le_bytes 2 (N.of_nat L) ++ header ++ bs) <? 2)
                  = false).
  { apply Nat.ltb_ge. rewrite length_app, le_bytes_length. lia. }
  rewrite Hrest.
  rewrite (take_app_length' (le_bytes 2 (N.of_nat L)))
    by (by rewrite le_bytes_length).
  rewrite (drop_app_length' (le_bytes 2 (N.of_nat L)))
    by (by rewrite le_bytes_length).
  rewrite le_word_le_bytes, Nat2N.id
    by (change (2 ^ N.of_nat (8 * 2))%N with 65536%N; lia).
  assert (Hshort : (length (header ++ bs) <? L) = false).
  { apply Nat.ltb_ge. rewrite length_app. fold L. lia. }
  assert (Hbig : (max_header_size <? L) = false) by (apply Nat.ltb_ge; lia).
  rewrite Hshort, Hbig.
  rewrite (take_app_length' header) by done.
  rewrite (drop_app_length' header) by done.
  by rewrite Hparse.
Qed.

Lemma flat_map_le_bytes_length k (ws : list N) :
  length (flat_map (le_bytes k) ws) = k * length ws.
Proof.
  induction ws as [|x ws IH]; simpl; [lia|].
  rewrite length_app, le_bytes_length, IH. lia.
Qed.

Lemma read_words_short k count (bs : list byte) :
  length bs < k * count -> read_words k count bs = None.
Proof.
  revert bs. induction count as [|count IH]; intros bs Hl; simpl; [lia|].
  destruct (length bs <? k) eqn:E; [done|].
  apply Nat.ltb_ge in E. rewrite IH; [done|].
  rewrite length_skipn. lia.
Qed.

(** X24.  The size of a blob: the bytes of the elements, [itemsize] each,
    after a header block whose length is a positive multiple of 64, so that
    the data start at an aligned offset. *)
Theorem blob_size (arr : float_array) :
  storable arr ->
  exists blob blocks,
    adapt_array arr = Ok blob
    /\ 0 < blocks
    /\ length blob =
         64 * blocks
         + itemsize (float_dtype arr) * prod_shape (shape (bits arr)).
Proof.
  intros (Hlim & Hwf & _). destruct arr as [d [s ws]].
  unfold wf_array in Hwf. cbn [float_dtype bits shape data] in *.
  destruct (np_save_layout d s ws Hlim) as (header & _ & Hmod & _ & Hsave).
  unfold adapt_array. rewrite Hsave.
  eexists. exists ((10 + length header) / 64).
  split; [reflexivity|].
  pose proof (Nat.div_mod (10 + length header) 64) as Hdm.
  rewrite Hmod in Hdm.
  rewrite !length_app, flat_map_le_bytes_length, Hwf. simpl length.
  set (q := (10 + length header) / 64) in *. lia.
Qed.

Lemma blob_size_witness :
  exists blob blocks,
    adapt_array Demo.style = Ok blob
    /\ 0 < blocks
    /\ length blob =
         64 * blocks
         + itemsize (float_dtype Demo.style)
           * prod_shape (shape (bits Demo.style)).
Proof.
  apply (blob_size Demo.style).
  split; [|split].
  - split; [simpl; lia|]. repeat constructor.
  - reflexivity.
  - repeat constructor.
Defined.

(** X25.  The reader takes from a blob what the header announces and
    nothing more: bytes that follow the blob of an array do not change what
    [convert_array] returns. *)
Theorem trailing_bytes_ignored (arr : float_array) (blob junk : list byte) :
  storable arr ->
  adapt_array arr = Ok blob ->
  convert_array (blob ++ junk) = Ok arr.
Proof.
  intros (Hlim & Hwf & Hbits) Hsave. destruct arr as [d [s ws]].
  unfold wf_array in Hwf. cbn [float_dtype bits shape data] in *.
  destruct (np_save_layout d s ws Hlim) as (header & Hmax & _ & Hparse & Hs).
  unfold adapt_array in Hsave.
  assert (Hb : blob = (magic ++ x01 :: x00
                         :: le_bytes 2 (N.of_nat (length header)) ++ header)
                        ++ flat_map (le_bytes (itemsize d)) ws) by congruence.
  subst blob. clear Hsave.
  unfold convert_array. rewrite <- app_assoc.
  rewrite (np_load_layout d s header _ Hmax Hparse).
  by rewrite <- Hwf, read_words_flat_map.
Qed.

(** X26.  A truncated blob is never taken for an array: [convert_array]
    fails on every proper prefix of the blob of an array. *)
Theorem truncated_blob_rejected (arr : float_array) (blob : list byte) (n : nat) :
  storable arr ->
  adapt_array arr = Ok blob ->
  n < length blob ->
  exists e, convert_array (firstn n blob) = Raise e.
Proof.
  intros (Hlim & Hwf & Hbits) Hsave Hn. destruct arr as [d [s ws]].
  unfold wf_array in Hwf. cbn [float_dtype bits shape data] in *.
  destruct (np_save_layout d s ws Hlim) as (header & Hmax & _ & Hparse & Hs).
  unfold adapt_array in Hsave.
  assert (Hb : blob = (magic ++ x01 :: x00
                         :: le_bytes 2 (N.of_nat (length header)) ++ header)
                        ++ flat_map (le_bytes (itemsize d)) ws) by congruence.
  subst blob. clear Hsave.
  assert (Hm : max_header_size = 100 * 100) by reflexivity.
  set (L := length header) in *.
  set (body := flat_map (le_bytes (itemsize d)) ws) in *.
  set (P := magic ++ x01 :: x00 :: le_bytes 2 (N.of_nat L) ++ header) in *.
  assert (HP : length P = 10 + L).
  { unfold P. rewrite length_app. simpl. fold L. lia. }
  rewrite length_app, HP in Hn.
  unfold convert_array. rewrite firstn_app, HP.
  destruct (Nat.le_gt_cases (10 + L) n) as [Hge|Hlt].
  - (* the cut is in the data *)
    rewrite firstn_all2 by lia.
    unfold P, L. rewrite (np_load_layout d s header _ Hmax Hparse).
    rewrite read_words_short; [by eexists|].
    rewrite length_firstn. unfold body in *.
    rewrite flat_map_le_bytes_length, Hwf in *. fold L. lia.
  - (* the cut is in the prefix *)
    replace (n - (10 + L)) with 0 by lia. cbn [firstn]. rewrite app_nil_r.
    unfold P. clear Hn HP Hs. clear P.
    do 8 (destruct n as [|n]; [by eexists|]).
    change (firstn (S (S (S (S (S (S (S (S n))))))))
              (magic ++ x01 :: x00 :: le_bytes 2 (N.of_nat L) ++ header))
      with (magic ++ x01 :: x00
              :: firstn n (le_bytes 2 (N.of_nat L) ++ header)).
    unfold np_load. rewrite strip_prefix_app.
    change (length_field_size x01 x00) with (Some 2). cbv iota beta.
    destruct (length (firstn n (le_bytes 2 (N.of_nat L) ++ header)) <? 2)
      eqn:E2; [by eexists|].
    apply Nat.ltb_ge in E2. rewrite length_firstn in E2.
    rewrite firstn_app, le_bytes_length.
    rewrite (firstn_all2 (le_bytes 2 _)) by (rewrite le_bytes_length; lia).
    rewrite (take_app_length' (le_bytes 2 (N.of_nat L)))
      by (by rewrite le_bytes_length).
    rewrite (drop_app_length' (le_bytes 2 (N.of_nat L)))
      by (by rewrite le_bytes_length).
    rewrite le_word_le_bytes, Nat2N.id
      by (change (2 ^ N.of_nat (8 * 2))%N with 65536%N; lia).
    assert (Hshort : (length (firstn (n - 2) header) <? L) = true).
    { apply Nat.ltb_lt. rewrite length_firstn. fold L. lia. }
    rewrite Hshort. by eexists.
Qed.

Lemma demo_style_storable : storable Demo.style.
Proof.
  split; [|split].
  - split; [simpl; lia|]. repeat constructor.
  - reflexivity.
  - repeat constructor.
Qed.

Lemma trailing_bytes_ignored_witness :
  convert_array (Demo4.style_blob ++ [x00; x01]) = Ok Demo.style.
Proof.
  apply (trailing_bytes_ignored Demo.style Demo4.style_blob [x00; x01]).
  - exact demo_style_storable.
  - vm_compute. reflexivity.
Defined.

Lemma truncated_blob_rejected_witness :
  exists e, convert_array (firstn 130 Demo4.style_blob) = Raise e.
Proof.
  apply (truncated_blob_rejected Demo.style Demo4.style_blob 130).
  - exact demo_style_storable.
  - vm_compute. reflexivity.
  - apply Nat.ltb_lt. vm_compute. reflexivity.
Defined.

(* ===================================================================== *)
(** * Part IV.  The arithmetic in floating point                          *)
(* ===================================================================== *)

(** ** Element-wise operations on arrays of one shape *)




(** ** Zeros *)







(** ** The mean of a group *)





Local Open Scope Z_scope.



Local Close Scope Z_scope.




